(** * Backup retention engine: period algebra, config validator, GFS keep-set,
      deletion pipeline and cleaner loop.

    A shallow embedding of
      - [period.TimePeriod] ([ToDuration], [CompareTo]),
      - [backups_config.BackupConfig] ([Validate], [validateRetentionPolicy]),
      - [backuping.BackupCleaner] ([DeleteBackup], [cleanByTimePeriod],
        [cleanByCount], [cleanByGFS], [cleanExceededBackupsForDatabase],
        [isRecentBackup], [buildGFSKeepSet])
    followed by the properties the specification states about them. *)

From Stdlib Require Import ZArith QArith Lia List Bool DecimalString.
From stdpp Require Import gmap strings list.

Local Open Scope string_scope.
Local Open Scope list_scope.
Local Open Scope Z_scope.

(* ===================================================================== *)
(** * Part I: definitions                                                 *)
(* ===================================================================== *)

(** ** Go values shared by all packages *)

(** A Go call either returns a value or panics with a message. *)
Inductive outcome (A : Type) : Type :=
  | Ret (a : A)
  | Panic (msg : string).
Arguments Ret {A} a.
Arguments Panic {A} msg.

Definition obind {A B} (x : outcome A) (k : A -> outcome B) : outcome B :=
  match x with
  | Ret a => k a
  | Panic m => Panic m
  end.

Notation "'do' x <- e ; k" := (obind e (fun x => k))
  (at level 10, x name, e at level 100, k at level 200, only parsing).

(** Go's [error]: [None] is [nil], [Some msg] is [errors.New(msg)]. *)
Definition error := option string.
Definition nil_error : error := None.
Definition errors_New (msg : string) : error := Some msg.

(** [uuid.UUID] is a 128-bit value; [uuid.Nil] is the all-zero one. *)
Definition UUID := N.
Definition uuid_Nil : UUID := 0%N.

(** ** Package [period] *)

Module period.

Definition TimePeriod := string.

Definition PeriodDay     : TimePeriod := "DAY".
Definition PeriodWeek    : TimePeriod := "WEEK".
Definition PeriodMonth   : TimePeriod := "MONTH".
Definition Period3Month  : TimePeriod := "3_MONTH".
Definition Period6Month  : TimePeriod := "6_MONTH".
Definition PeriodYear    : TimePeriod := "YEAR".
Definition Period2Years  : TimePeriod := "2_YEARS".
Definition Period3Years  : TimePeriod := "3_YEARS".
Definition Period4Years  : TimePeriod := "4_YEARS".
Definition Period5Years  : TimePeriod := "5_YEARS".
Definition PeriodForever : TimePeriod := "FOREVER".

(** The eleven declared constants, in declaration order. *)
Definition named_periods : list TimePeriod :=
  [ PeriodDay; PeriodWeek; PeriodMonth; Period3Month; Period6Month;
    PeriodYear; Period2Years; Period3Years; Period4Years; Period5Years;
    PeriodForever ].

(** [time.Duration] counts nanoseconds in an int64; [time.Hour]. *)
Definition Hour : Z := 3600 * 1000000000.

Definition ToDuration (p : TimePeriod) : outcome Z :=
  if String.eqb p PeriodDay then Ret (24 * Hour)
  else if String.eqb p PeriodWeek then Ret (7 * 24 * Hour)
  else if String.eqb p PeriodMonth then Ret (30 * 24 * Hour)
  else if String.eqb p Period3Month then Ret (90 * 24 * Hour)
  else if String.eqb p Period6Month then Ret (180 * 24 * Hour)
  else if String.eqb p PeriodYear then Ret (365 * 24 * Hour)
  else if String.eqb p Period2Years then Ret (2 * 365 * 24 * Hour)
  else if String.eqb p Period3Years then Ret (3 * 365 * 24 * Hour)
  else if String.eqb p Period4Years then Ret (4 * 365 * 24 * Hour)
  else if String.eqb p Period5Years then Ret (5 * 365 * 24 * Hour)
  else if String.eqb p PeriodForever then Ret 0
  else Panic ("unknown period: " +:+ p).

Definition CompareTo (p other : TimePeriod) : outcome Z :=
  if String.eqb p other then Ret 0
  else
    do d1 <- ToDuration p;
    do d2 <- ToDuration other;
    if String.eqb p PeriodForever then Ret 1
    else if String.eqb other PeriodForever then Ret (-1)
    else if d1 <? d2 then Ret (-1)
    else if d1 >? d2 then Ret 1
    else Ret 0.

(** Position of a period in the canonical chain
    DAY < WEEK < ... < 5_YEARS < FOREVER (11 for any other string). *)
Fixpoint index_of (p : TimePeriod) (l : list TimePeriod) : Z :=
  match l with
  | [] => 0
  | q :: l' => if String.eqb p q then 0 else 1 + index_of p l'
  end.

Definition rank (p : TimePeriod) : Z := index_of p named_periods.

End period.

(** ** Go's [strings], as far as the config hooks use it *)

Module gostrings.

(** [strings.Join(elems, sep)]. *)
Fixpoint Join (elems : list string) (sep : string) : string :=
  match elems with
  | [] => ""
  | [e] => e
  | e :: rest => e +:+ sep +:+ Join rest sep
  end.

(** [strings.Split(s, sep)] for a separator of one byte: the pieces of [s]
    between the separators, one piece more than there are separators. *)
Fixpoint Split (s : string) (sep : Ascii.ascii) : list string :=
  match s with
  | EmptyString => [""]
  | String ch s' =>
    if Ascii.eqb ch sep then "" :: Split s' sep
    else match Split s' sep with
         | piece :: pieces => String ch piece :: pieces
         | [] => [String ch ""]
         end
  end.

(** The byte [ch] occurs in [s]. *)
Fixpoint contains_byte (s : string) (ch : Ascii.ascii) : bool :=
  match s with
  | EmptyString => false
  | String c s' => Ascii.eqb c ch || contains_byte s' ch
  end.

End gostrings.

(** ** Package [backups_config] *)

Module backups_config.

Definition BackupEncryption := string.
Definition BackupEncryptionNone      : BackupEncryption := "NONE".
Definition BackupEncryptionEncrypted : BackupEncryption := "ENCRYPTED".

Definition RetentionPolicyType := string.
Definition RetentionPolicyTypeTimePeriod : RetentionPolicyType := "TIME_PERIOD".
Definition RetentionPolicyTypeCount      : RetentionPolicyType := "COUNT".
Definition RetentionPolicyTypeGFS        : RetentionPolicyType := "GFS".

(** [intervals.Interval]: only its presence is read here. *)
Record Interval := { IntervalID : UUID }.

Record BackupConfig := {
  DatabaseID            : UUID;
  IsBackupsEnabled      : bool;
  RetentionPolicyType_  : RetentionPolicyType;
  RetentionTimePeriod   : period.TimePeriod;
  RetentionCount        : Z;
  RetentionGfsHours     : Z;
  RetentionGfsDays      : Z;
  RetentionGfsWeeks     : Z;
  RetentionGfsMonths    : Z;
  RetentionGfsYears     : Z;
  BackupIntervalID      : UUID;
  BackupInterval        : option Interval;
  StorageID             : option UUID;
  IsRetryIfFailed       : bool;
  MaxFailedTriesCount   : Z;
  Encryption            : BackupEncryption;
  MaxBackupSizeMB       : Z;
  MaxBackupsTotalSizeMB : Z
}.

(** Modelled from the spec: the struct [plans.DatabasePlan] (package
    [plan] is not among the sources; the validator and its tests read
    these three limits).  Zero, or [FOREVER], means unlimited. *)
Record DatabasePlan := {
  PlanMaxBackupSizeMB       : Z;
  PlanMaxBackupsTotalSizeMB : Z;
  PlanMaxStoragePeriod      : period.TimePeriod
}.

Definition validateRetentionPolicy (b : BackupConfig) (plan : DatabasePlan)
  : outcome error :=
  let ty := RetentionPolicyType_ b in
  if String.eqb ty RetentionPolicyTypeTimePeriod || String.eqb ty "" then
    if String.eqb (RetentionTimePeriod b) "" then
      Ret (errors_New "retention time period is required")
    else if negb (String.eqb (PlanMaxStoragePeriod plan) period.PeriodForever) then
      do c <- period.CompareTo (RetentionTimePeriod b) (PlanMaxStoragePeriod plan);
      if 0 <? c then Ret (errors_New "storage period exceeds plan limit")
      else Ret nil_error
    else Ret nil_error
  else if String.eqb ty RetentionPolicyTypeCount then
    if RetentionCount b <=? 0 then
      Ret (errors_New "retention count must be greater than 0")
    else Ret nil_error
  else if String.eqb ty RetentionPolicyTypeGFS then
    if (RetentionGfsHours b <=? 0) && (RetentionGfsDays b <=? 0)
       && (RetentionGfsWeeks b <=? 0) && (RetentionGfsMonths b <=? 0)
       && (RetentionGfsYears b <=? 0) then
      Ret (errors_New "at least one GFS retention field must be greater than 0")
    else Ret nil_error
  else Ret (errors_New "invalid retention policy type").

(** [Validate]; [isCloud] is [config.GetEnv().IsCloud]. *)
Definition Validate (isCloud : bool) (b : BackupConfig) (plan : DatabasePlan)
  : outcome error :=
  if N.eqb (BackupIntervalID b) uuid_Nil
     && (match BackupInterval b with None => true | Some _ => false end) then
    Ret (errors_New "backup interval is required")
  else
    do err <- validateRetentionPolicy b plan;
    match err with
    | Some e => Ret (Some e)
    | None =>
      if IsRetryIfFailed b && (MaxFailedTriesCount b <=? 0) then
        Ret (errors_New "max failed tries count must be greater than 0")
      else if negb (String.eqb (Encryption b) "")
              && negb (String.eqb (Encryption b) BackupEncryptionNone)
              && negb (String.eqb (Encryption b) BackupEncryptionEncrypted) then
        Ret (errors_New "encryption must be NONE or ENCRYPTED")
      else if isCloud && negb (String.eqb (Encryption b) BackupEncryptionEncrypted) then
        Ret (errors_New "encryption is mandatory for cloud storage")
      else if MaxBackupSizeMB b <? 0 then
        Ret (errors_New "max backup size must be non-negative")
      else if MaxBackupsTotalSizeMB b <? 0 then
        Ret (errors_New "max backups total size must be non-negative")
      else if (0 <? PlanMaxBackupSizeMB plan)
              && ((MaxBackupSizeMB b =? 0)
                  || (PlanMaxBackupSizeMB plan <? MaxBackupSizeMB b)) then
        Ret (errors_New "max backup size exceeds plan limit")
      else if (0 <? PlanMaxBackupsTotalSizeMB plan)
              && ((MaxBackupsTotalSizeMB b =? 0)
                  || (PlanMaxBackupsTotalSizeMB plan <? MaxBackupsTotalSizeMB b)) then
        Ret (errors_New "max total backups size exceeds plan limit")
      else Ret nil_error
    end.

(** *** The validator as the specification words it

    Eight numbered checks, each a function of the config and the plan,
    run in order; the result is the first one that does not pass. *)

Definition check := BackupConfig -> DatabasePlan -> outcome error.

Definition check_interval : check := fun b _ =>
  match BackupInterval b with
  | Some _ => Ret nil_error
  | None => if N.eqb (BackupIntervalID b) uuid_Nil
            then Ret (errors_New "backup interval is required")
            else Ret nil_error
  end.

Definition check_retention : check := validateRetentionPolicy.

Definition check_retry : check := fun b _ =>
  if IsRetryIfFailed b && negb (1 <=? MaxFailedTriesCount b)
  then Ret (errors_New "max failed tries count must be greater than 0")
  else Ret nil_error.

Definition check_encryption : check := fun b _ =>
  if existsb (String.eqb (Encryption b))
       [""; BackupEncryptionNone; BackupEncryptionEncrypted]
  then Ret nil_error
  else Ret (errors_New "encryption must be NONE or ENCRYPTED").

Definition check_cloud (isCloud : bool) : check := fun b _ =>
  if isCloud && negb (String.eqb (Encryption b) BackupEncryptionEncrypted)
  then Ret (errors_New "encryption is mandatory for cloud storage")
  else Ret nil_error.

Definition check_size_sign : check := fun b _ =>
  if 0 <=? MaxBackupSizeMB b then Ret nil_error
  else Ret (errors_New "max backup size must be non-negative").

Definition check_total_sign : check := fun b _ =>
  if 0 <=? MaxBackupsTotalSizeMB b then Ret nil_error
  else Ret (errors_New "max backups total size must be non-negative").

Definition gate_backup_size : check := fun b plan =>
  if (0 <? PlanMaxBackupSizeMB plan)
     && ((MaxBackupSizeMB b =? 0) || (PlanMaxBackupSizeMB plan <? MaxBackupSizeMB b))
  then Ret (errors_New "max backup size exceeds plan limit")
  else Ret nil_error.

Definition gate_total_size : check := fun b plan =>
  if (0 <? PlanMaxBackupsTotalSizeMB plan)
     && ((MaxBackupsTotalSizeMB b =? 0)
         || (PlanMaxBackupsTotalSizeMB plan <? MaxBackupsTotalSizeMB b))
  then Ret (errors_New "max total backups size exceeds plan limit")
  else Ret nil_error.

Definition ordered_checks (isCloud : bool) : list check :=
  [ check_interval; check_retention; check_retry; check_encryption;
    check_cloud isCloud; check_size_sign; check_total_sign;
    gate_backup_size; gate_total_size ].

Fixpoint first_failure (cs : list check) (b : BackupConfig) (plan : DatabasePlan)
  : outcome error :=
  match cs with
  | [] => Ret nil_error
  | c :: cs' =>
    match c b plan with
    | Ret None => first_failure cs' b plan
    | r => r
    end
  end.

(** The test fixtures [createValidBackupConfig] and [createUnlimitedPlan]. *)
Definition createValidBackupConfig : BackupConfig := {|
  DatabaseID := 1%N;
  IsBackupsEnabled := true;
  RetentionPolicyType_ := RetentionPolicyTypeTimePeriod;
  RetentionTimePeriod := period.PeriodMonth;
  RetentionCount := 0;
  RetentionGfsHours := 0; RetentionGfsDays := 0; RetentionGfsWeeks := 0;
  RetentionGfsMonths := 0; RetentionGfsYears := 0;
  BackupIntervalID := 2%N;
  BackupInterval := Some {| IntervalID := 2%N |};
  StorageID := None;
  IsRetryIfFailed := false;
  MaxFailedTriesCount := 3;
  Encryption := BackupEncryptionNone;
  MaxBackupSizeMB := 100;
  MaxBackupsTotalSizeMB := 1000
|}.

Definition createUnlimitedPlan : DatabasePlan := {|
  PlanMaxBackupSizeMB := 0;
  PlanMaxBackupsTotalSizeMB := 0;
  PlanMaxStoragePeriod := period.PeriodForever
|}.

Definition with_period (p : period.TimePeriod) (b : BackupConfig) : BackupConfig :=
  {| DatabaseID := DatabaseID b; IsBackupsEnabled := IsBackupsEnabled b;
     RetentionPolicyType_ := RetentionPolicyType_ b;
     RetentionTimePeriod := p;
     RetentionCount := RetentionCount b;
     RetentionGfsHours := RetentionGfsHours b;
     RetentionGfsDays := RetentionGfsDays b;
     RetentionGfsWeeks := RetentionGfsWeeks b;
     RetentionGfsMonths := RetentionGfsMonths b;
     RetentionGfsYears := RetentionGfsYears b;
     BackupIntervalID := BackupIntervalID b;
     BackupInterval := BackupInterval b;
     StorageID := StorageID b;
     IsRetryIfFailed := IsRetryIfFailed b;
     MaxFailedTriesCount := MaxFailedTriesCount b;
     Encryption := Encryption b;
     MaxBackupSizeMB := MaxBackupSizeMB b;
     MaxBackupsTotalSizeMB := MaxBackupsTotalSizeMB b |}.

Definition with_sizes (sz total : Z) (b : BackupConfig) : BackupConfig :=
  {| DatabaseID := DatabaseID b; IsBackupsEnabled := IsBackupsEnabled b;
     RetentionPolicyType_ := RetentionPolicyType_ b;
     RetentionTimePeriod := RetentionTimePeriod b;
     RetentionCount := RetentionCount b;
     RetentionGfsHours := RetentionGfsHours b;
     RetentionGfsDays := RetentionGfsDays b;
     RetentionGfsWeeks := RetentionGfsWeeks b;
     RetentionGfsMonths := RetentionGfsMonths b;
     RetentionGfsYears := RetentionGfsYears b;
     BackupIntervalID := BackupIntervalID b;
     BackupInterval := BackupInterval b;
     StorageID := StorageID b;
     IsRetryIfFailed := IsRetryIfFailed b;
     MaxFailedTriesCount := MaxFailedTriesCount b;
     Encryption := Encryption b;
     MaxBackupSizeMB := sz;
     MaxBackupsTotalSizeMB := total |}.

Definition without_interval (b : BackupConfig) : BackupConfig :=
  {| DatabaseID := DatabaseID b; IsBackupsEnabled := IsBackupsEnabled b;
     RetentionPolicyType_ := RetentionPolicyType_ b;
     RetentionTimePeriod := RetentionTimePeriod b;
     RetentionCount := RetentionCount b;
     RetentionGfsHours := RetentionGfsHours b;
     RetentionGfsDays := RetentionGfsDays b;
     RetentionGfsWeeks := RetentionGfsWeeks b;
     RetentionGfsMonths := RetentionGfsMonths b;
     RetentionGfsYears := RetentionGfsYears b;
     BackupIntervalID := uuid_Nil;
     BackupInterval := None;
     StorageID := StorageID b;
     IsRetryIfFailed := IsRetryIfFailed b;
     MaxFailedTriesCount := MaxFailedTriesCount b;
     Encryption := Encryption b;
     MaxBackupSizeMB := MaxBackupSizeMB b;
     MaxBackupsTotalSizeMB := MaxBackupsTotalSizeMB b |}.


Definition multi_violation_plan : DatabasePlan := {|
  PlanMaxBackupSizeMB := 100;
  PlanMaxBackupsTotalSizeMB := 1000;
  PlanMaxStoragePeriod := period.PeriodMonth
|}.

(** Checks 1 to 7 of the validator all pass. *)
Definition earlier_checks_pass (isCloud : bool) (b : BackupConfig)
    (plan : DatabasePlan) : Prop :=
  (BackupIntervalID b <> uuid_Nil \/ BackupInterval b <> None)
  /\ validateRetentionPolicy b plan = Ret nil_error
  /\ (IsRetryIfFailed b = true -> 1 <= MaxFailedTriesCount b)
  /\ In (Encryption b) [""; BackupEncryptionNone; BackupEncryptionEncrypted]
  /\ (isCloud = true -> Encryption b = BackupEncryptionEncrypted)
  /\ 0 <= MaxBackupSizeMB b
  /\ 0 <= MaxBackupsTotalSizeMB b.

(** An unlimited config with no interval, against a plan capping both sizes. *)
Definition capped_plan : DatabasePlan := {|
  PlanMaxBackupSizeMB := 500;
  PlanMaxBackupsTotalSizeMB := 1000;
  PlanMaxStoragePeriod := period.PeriodForever
|}.

Definition unlimited_no_interval : BackupConfig :=
  without_interval (with_sizes 0 0 createValidBackupConfig).

Definition unlimited_config : BackupConfig :=
  with_sizes 0 0 createValidBackupConfig.

(** *** Persistence hooks and [Copy] *)

Definition BackupNotificationType := string.
Definition NotificationBackupFailed  : BackupNotificationType := "BACKUP_FAILED".
Definition NotificationBackupSuccess : BackupNotificationType := "BACKUP_SUCCESS".

(** The two fields of [BackupConfig] that [BeforeSave] and [AfterFind] read
    and write: the tag list kept in memory and the text column it is stored
    in. *)
Record notification_fields := {
  SendNotificationsOn       : list BackupNotificationType;
  SendNotificationsOnString : string
}.

Definition comma : Ascii.ascii := Ascii.ascii_of_nat 44.

(** [BeforeSave]: the tag list, joined with commas, goes to the column; the
    returned error is always [nil]. *)
Definition BeforeSave (b : notification_fields) : notification_fields * error :=
  ({| SendNotificationsOn := SendNotificationsOn b;
      SendNotificationsOnString :=
        if (0 <? length (SendNotificationsOn b))%nat
        then gostrings.Join (SendNotificationsOn b) ","
        else "" |},
   nil_error).

(** [AfterFind]: the column, split at the commas, goes to the tag list; an
    empty column gives the empty list. *)
Definition AfterFind (b : notification_fields) : notification_fields * error :=
  ({| SendNotificationsOn :=
        if negb (String.eqb (SendNotificationsOnString b) "")
        then gostrings.Split (SendNotificationsOnString b) comma
        else [];
      SendNotificationsOnString := SendNotificationsOnString b |},
   nil_error).

(** [Copy]; [copyInterval] is the [Copy] method of [intervals.Interval],
    which is not among the sources.  The copy gets the new database id and
    the nil interval id. *)
Definition Copy (copyInterval : option Interval -> option Interval)
    (newDatabaseID : UUID) (b : BackupConfig) : BackupConfig :=
  {| DatabaseID := newDatabaseID;
     IsBackupsEnabled := IsBackupsEnabled b;
     RetentionPolicyType_ := RetentionPolicyType_ b;
     RetentionTimePeriod := RetentionTimePeriod b;
     RetentionCount := RetentionCount b;
     RetentionGfsHours := RetentionGfsHours b;
     RetentionGfsDays := RetentionGfsDays b;
     RetentionGfsWeeks := RetentionGfsWeeks b;
     RetentionGfsMonths := RetentionGfsMonths b;
     RetentionGfsYears := RetentionGfsYears b;
     BackupIntervalID := uuid_Nil;
     BackupInterval := copyInterval (BackupInterval b);
     StorageID := StorageID b;
     IsRetryIfFailed := IsRetryIfFailed b;
     MaxFailedTriesCount := MaxFailedTriesCount b;
     Encryption := Encryption b;
     MaxBackupSizeMB := MaxBackupSizeMB b;
     MaxBackupsTotalSizeMB := MaxBackupsTotalSizeMB b |}.

(** *** What an accepted config looks like *)

(** The retention fields are consistent with the policy type and, for a
    period, with the plan. *)
Definition retention_ok (b : BackupConfig) (plan : DatabasePlan) : Prop :=
  ((RetentionPolicyType_ b = RetentionPolicyTypeTimePeriod
    \/ RetentionPolicyType_ b = "")
   /\ RetentionTimePeriod b <> ""
   /\ (PlanMaxStoragePeriod plan = period.PeriodForever
       \/ exists c, period.CompareTo (RetentionTimePeriod b)
                      (PlanMaxStoragePeriod plan) = Ret c /\ c <= 0))
  \/ (RetentionPolicyType_ b = RetentionPolicyTypeCount /\ 1 <= RetentionCount b)
  \/ (RetentionPolicyType_ b = RetentionPolicyTypeGFS
      /\ (1 <= RetentionGfsHours b \/ 1 <= RetentionGfsDays b
          \/ 1 <= RetentionGfsWeeks b \/ 1 <= RetentionGfsMonths b
          \/ 1 <= RetentionGfsYears b)).

Definition acceptable (isCloud : bool) (b : BackupConfig) (plan : DatabasePlan)
  : Prop :=
  (BackupIntervalID b <> uuid_Nil \/ BackupInterval b <> None)
  /\ retention_ok b plan
  /\ (IsRetryIfFailed b = true -> 1 <= MaxFailedTriesCount b)
  /\ In (Encryption b) [""; BackupEncryptionNone; BackupEncryptionEncrypted]
  /\ (isCloud = true -> Encryption b = BackupEncryptionEncrypted)
  /\ 0 <= MaxBackupSizeMB b
  /\ 0 <= MaxBackupsTotalSizeMB b
  /\ (0 < PlanMaxBackupSizeMB plan ->
      0 < MaxBackupSizeMB b <= PlanMaxBackupSizeMB plan)
  /\ (0 < PlanMaxBackupsTotalSizeMB plan ->
      0 < MaxBackupsTotalSizeMB b <= PlanMaxBackupsTotalSizeMB plan).

(** [plan'] allows everything [plan] allows: each size cap is absent or at
    least as large, and the storage period is FOREVER or a named period at
    least as long. *)
Definition plan_at_least (plan plan' : DatabasePlan) : Prop :=
  (PlanMaxBackupSizeMB plan' <= 0
   \/ 0 < PlanMaxBackupSizeMB plan <= PlanMaxBackupSizeMB plan')
  /\ (PlanMaxBackupsTotalSizeMB plan' <= 0
      \/ 0 < PlanMaxBackupsTotalSizeMB plan <= PlanMaxBackupsTotalSizeMB plan')
  /\ (PlanMaxStoragePeriod plan' = period.PeriodForever
      \/ (In (PlanMaxStoragePeriod plan) period.named_periods
          /\ In (PlanMaxStoragePeriod plan') period.named_periods
          /\ period.rank (PlanMaxStoragePeriod plan)
             <= period.rank (PlanMaxStoragePeriod plan'))).

End backups_config.

(** ** Go's [time] and [fmt], as far as the cleaner uses them *)

Module gotime.

(** An instant: nanoseconds since 1970-01-01T00:00:00Z, read in UTC. *)
Definition Time := Z.
(** [time.Duration]: int64 nanoseconds. *)
Definition Duration := Z.

Definition Nanosecond : Duration := 1.
Definition Second : Duration := 1000000000.
Definition Minute : Duration := 60 * Second.
Definition Hour   : Duration := 60 * Minute.

Definition minDuration : Duration := - 2 ^ 63.
Definition maxDuration : Duration := 2 ^ 63 - 1.

(** [t.Sub(u)]: the difference, saturated to the int64 range. *)
Definition Sub (t u : Time) : Duration :=
  let d := t - u in
  if d <? minDuration then minDuration
  else if maxDuration <? d then maxDuration
  else d.

(** [t.Add(d)]. *)
Definition Add (t : Time) (d : Duration) : Time := t + d.

Definition unix_seconds (t : Time) : Z := t / Second.
Definition unix_days (t : Time) : Z := unix_seconds t / 86400.
Definition hour_of (t : Time) : Z := (unix_seconds t mod 86400) / 3600.

(** Proleptic Gregorian date of a day number (days since 1970-01-01). *)
Definition civil_from_days (days : Z) : Z * Z * Z :=
  let z := days + 719468 in
  let era := z / 146097 in
  let doe := z - era * 146097 in
  let yoe := (doe - doe / 1460 + doe / 36524 - doe / 146096) / 365 in
  let y := yoe + era * 400 in
  let doy := doe - (365 * yoe + yoe / 4 - yoe / 100) in
  let mp := (5 * doy + 2) / 153 in
  let d := doy - (153 * mp + 2) / 5 + 1 in
  let m := if mp <? 10 then mp + 3 else mp - 9 in
  (if m <=? 2 then y + 1 else y, m, d).

Definition days_from_civil (y m d : Z) : Z :=
  let y' := if m <=? 2 then y - 1 else y in
  let era := y' / 400 in
  let yoe := y' - era * 400 in
  let doy := (153 * (if 2 <? m then m - 3 else m + 9) + 2) / 5 + d - 1 in
  let doe := yoe * 365 + yoe / 4 - yoe / 100 + doy in
  era * 146097 + doe - 719468.

Definition year_of_days (days : Z) : Z := fst (fst (civil_from_days days)).

(** Zero-based day of the year. *)
Definition yday_of_days (days : Z) : Z :=
  days - days_from_civil (year_of_days days) 1 1.

(** [time.Weekday]: Sunday = 0, ... Saturday = 6. *)
Definition Thursday : Z := 4.
Definition weekday_of_days (days : Z) : Z := (days + 4) mod 7.

(** [t.ISOWeek()]: move to the Thursday of the week that starts on Monday,
    then take that day's year and its week of the year. *)
Definition ISOWeek (t : Time) : Z * Z :=
  let days := unix_days t in
  let d := Thursday - weekday_of_days days in
  let d := if d =? 4 then -3 else d in
  let days' := days + d in
  (year_of_days days', yday_of_days days' / 7 + 1).

Definition digits (n : Z) : string :=
  DecimalString.NilZero.string_of_uint (N.to_uint (Z.to_N n)).

Fixpoint zeros (n : nat) : string :=
  match n with O => "" | S n' => "0" +:+ zeros n' end.

(** Decimal text of [n], zero-padded on the left to [width] digits, with a
    leading minus sign for a negative number ([appendInt], [%0Nd]). *)
Definition pad_int (width : nat) (n : Z) : string :=
  let ds := digits (Z.abs n) in
  let body := zeros (width - String.length ds) +:+ ds in
  if n <? 0 then "-" +:+ body else body.

(** [fmt.Sprintf("%d", n)]. *)
Definition sprint_d (n : Z) : string := pad_int 0 n.

(** [t.Format] for the four layouts the cleaner uses. *)
Definition Format_year (t : Time) : string :=
  let '(y, _, _) := civil_from_days (unix_days t) in pad_int 4 y.
Definition Format_year_month (t : Time) : string :=
  let '(y, m, _) := civil_from_days (unix_days t) in
  pad_int 4 y +:+ "-" +:+ pad_int 2 m.
Definition Format_date (t : Time) : string :=
  let '(y, m, d) := civil_from_days (unix_days t) in
  pad_int 4 y +:+ "-" +:+ pad_int 2 m +:+ "-" +:+ pad_int 2 d.
Definition Format_date_hour (t : Time) : string :=
  Format_date t +:+ "-" +:+ pad_int 2 (hour_of t).

(** [time.Date(y, m, d, h, mi, 0, 0, time.UTC)], for writing test instants. *)
Definition Date (y m d h mi : Z) : Time :=
  ((days_from_civil y m d * 24 + h) * 60 + mi) * 60 * Second.

End gotime.

(** ** Package [cloudflare_turnstile] *)

Module cloudflare_turnstile.

Record CloudflareTurnstileService := { secretKey : string; siteKey : string }.

Record cloudflareTurnstileResponse := {
  Success : bool;
  ChallengeTS : gotime.Time;
  Hostname : string;
  ErrorCodes : list string
}.

Definition cloudflareTurnstileVerifyURL : string :=
  "https://challenges.cloudflare.com/turnstile/v0/siteverify".

(** A call of [http.PostForm]: the URL and the form, as the pairs the code
    sets (the three keys are distinct). *)
Record Request := { req_url : string; req_form : list (string * string) }.

(** What [http.PostForm], [io.ReadAll] and [json.Unmarshal] make of a
    request, in the order the code goes through them. *)
Inductive Exchange :=
  | PostFailed (err : string)
  | ReadFailed (err : string)
  | ParseFailed (err : string)
  | Parsed (resp : cloudflareTurnstileResponse).

Definition IsEnabled (s : CloudflareTurnstileService) : bool :=
  negb (String.eqb (secretKey s) "").

(** [fmt.Sprintf] with the verb v on a slice of strings. *)
Definition sprint_v (l : list string) : string :=
  "[" +:+ gostrings.Join l " " +:+ "]".

(** [VerifyToken]: the result and the requests sent over [network]. *)
Definition VerifyToken (s : CloudflareTurnstileService) (token remoteIP : string)
    (network : Request -> Exchange) : (bool * error) * list Request :=
  if negb (IsEnabled s) then ((true, nil_error), [])
  else if String.eqb token "" then
    ((false, errors_New "cloudflare Turnstile token is required"), [])
  else
    let formData :=
      [ ("secret", secretKey s); ("response", token); ("remoteip", remoteIP) ] in
    let request := {| req_url := cloudflareTurnstileVerifyURL; req_form := formData |} in
    match network request with
    | PostFailed err =>
      ((false, Some ("failed to verify Cloudflare Turnstile: " +:+ err)), [request])
    | ReadFailed err =>
      ((false, Some ("failed to read Cloudflare Turnstile response: " +:+ err)),
       [request])
    | ParseFailed err =>
      ((false, Some ("failed to parse Cloudflare Turnstile response: " +:+ err)),
       [request])
    | Parsed turnstileResp =>
      if negb (Success turnstileResp) then
        ((false, Some ("cloudflare Turnstile verification failed: "
                       +:+ sprint_v (ErrorCodes turnstileResp))), [request])
      else ((true, nil_error), [request])
    end.

End cloudflare_turnstile.

(** ** Package [backups_core] *)

Module backups_core.

Inductive BackupStatus := BackupStatusInProgress | BackupStatusCompleted | BackupStatusFailed.

Definition BackupStatus_eqb (a b : BackupStatus) : bool :=
  match a, b with
  | BackupStatusInProgress, BackupStatusInProgress
  | BackupStatusCompleted, BackupStatusCompleted
  | BackupStatusFailed, BackupStatusFailed => true
  | _, _ => false
  end.

(** Modelled from the spec: the struct [backups_core.Backup] (package
    [core] is not among the sources), with the fields the engine reads:
    id, databaseId, storageId, status, backupSizeMb, createdAt, fileName.
    The size is a float64 number of MiB in the code and an exact rational
    here. *)
Record Backup := {
  ID           : UUID;
  DatabaseID   : UUID;
  StorageID    : UUID;
  Status       : BackupStatus;
  BackupSizeMb : Q;
  CreatedAt    : gotime.Time;
  FileName     : string
}.

End backups_core.

(** ** Package [backuping]: the GFS keep-set *)

Module gfs.
Import backups_core.

(** Reading a Go [map[K]bool]: a missing key reads as [false]. *)
Definition map_get `{Countable K} (m : gmap K bool) (k : K) : bool :=
  default false (m !! k).

Definition hourKey (t : gotime.Time) : string := gotime.Format_date_hour t.
Definition dayKey (t : gotime.Time) : string := gotime.Format_date t.
Definition weekKey (t : gotime.Time) : string :=
  let '(weekYear, week) := gotime.ISOWeek t in
  gotime.sprint_d weekYear +:+ "-" +:+ gotime.pad_int 2 week.
Definition monthKey (t : gotime.Time) : string := gotime.Format_year_month t.
Definition yearKey (t : gotime.Time) : string := gotime.Format_year t.

(** The local variables of [buildGFSKeepSet]. *)
Record locals := {
  keep       : gmap UUID bool;
  hoursSeen  : gmap string bool;
  daysSeen   : gmap string bool;
  weeksSeen  : gmap string bool;
  monthsSeen : gmap string bool;
  yearsSeen  : gmap string bool;
  hoursKept  : Z;
  daysKept   : Z;
  weeksKept  : Z;
  monthsKept : Z;
  yearsKept  : Z
}.

Definition init : locals := {|
  keep := ∅;
  hoursSeen := ∅; daysSeen := ∅; weeksSeen := ∅; monthsSeen := ∅; yearsSeen := ∅;
  hoursKept := 0; daysKept := 0; weeksKept := 0; monthsKept := 0; yearsKept := 0
|}.

(** One iteration of the loop over [backups]. *)
Definition body (hours days weeks months years : Z) (st : locals) (backup : Backup)
  : locals :=
  let t := CreatedAt backup in
  let keep0 := keep st in
  let '(keep1, hoursSeen1, hoursKept1) :=
    if (0 <? hours) && (hoursKept st <? hours) && negb (map_get (hoursSeen st) (hourKey t))
    then (<[ID backup := true]> keep0, <[hourKey t := true]> (hoursSeen st), hoursKept st + 1)
    else (keep0, hoursSeen st, hoursKept st) in
  let '(keep2, daysSeen1, daysKept1) :=
    if (0 <? days) && (daysKept st <? days) && negb (map_get (daysSeen st) (dayKey t))
    then (<[ID backup := true]> keep1, <[dayKey t := true]> (daysSeen st), daysKept st + 1)
    else (keep1, daysSeen st, daysKept st) in
  let '(keep3, weeksSeen1, weeksKept1) :=
    if (0 <? weeks) && (weeksKept st <? weeks) && negb (map_get (weeksSeen st) (weekKey t))
    then (<[ID backup := true]> keep2, <[weekKey t := true]> (weeksSeen st), weeksKept st + 1)
    else (keep2, weeksSeen st, weeksKept st) in
  let '(keep4, monthsSeen1, monthsKept1) :=
    if (0 <? months) && (monthsKept st <? months) && negb (map_get (monthsSeen st) (monthKey t))
    then (<[ID backup := true]> keep3, <[monthKey t := true]> (monthsSeen st), monthsKept st + 1)
    else (keep3, monthsSeen st, monthsKept st) in
  let '(keep5, yearsSeen1, yearsKept1) :=
    if (0 <? years) && (yearsKept st <? years) && negb (map_get (yearsSeen st) (yearKey t))
    then (<[ID backup := true]> keep4, <[yearKey t := true]> (yearsSeen st), yearsKept st + 1)
    else (keep4, yearsSeen st, yearsKept st) in
  {| keep := keep5;
     hoursSeen := hoursSeen1; daysSeen := daysSeen1; weeksSeen := weeksSeen1;
     monthsSeen := monthsSeen1; yearsSeen := yearsSeen1;
     hoursKept := hoursKept1; daysKept := daysKept1; weeksKept := weeksKept1;
     monthsKept := monthsKept1; yearsKept := yearsKept1 |}.

(** The loop, from given locals; [run] starts it from the initial ones. *)
Definition loop (hours days weeks months years : Z) (st : locals)
    (backups : list Backup) : locals :=
  fold_left (body hours days weeks months years) backups st.

Definition run (backups : list Backup) (hours days weeks months years : Z) : locals :=
  loop hours days weeks months years init backups.

Definition buildGFSKeepSet (backups : list Backup)
    (hours days weeks months years : Z) : gmap UUID bool :=
  keep (run backups hours days weeks months years).

(** *** Views used to state the properties *)

Inductive slot_class := Hourly | Daily | Weekly | Monthly | Yearly.

Definition all_classes : list slot_class := [Hourly; Daily; Weekly; Monthly; Yearly].

Definition key_of (c : slot_class) (t : gotime.Time) : string :=
  match c with
  | Hourly => hourKey t | Daily => dayKey t | Weekly => weekKey t
  | Monthly => monthKey t | Yearly => yearKey t
  end.

Definition seen_of (c : slot_class) (st : locals) : gmap string bool :=
  match c with
  | Hourly => hoursSeen st | Daily => daysSeen st | Weekly => weeksSeen st
  | Monthly => monthsSeen st | Yearly => yearsSeen st
  end.

Definition kept_of (c : slot_class) (st : locals) : Z :=
  match c with
  | Hourly => hoursKept st | Daily => daysKept st | Weekly => weeksKept st
  | Monthly => monthsKept st | Yearly => yearsKept st
  end.

Definition budget_of (c : slot_class) (hours days weeks months years : Z) : Z :=
  match c with
  | Hourly => hours | Daily => days | Weekly => weeks
  | Monthly => months | Yearly => years
  end.

(** The guard of one of the five [if] blocks of the loop body. *)
Definition slot_fires (budget : Z) (seen : gmap string bool) (kept : Z)
    (key : string) : bool :=
  (0 <? budget) && (kept <? budget) && negb (map_get seen key).

Definition fires (c : slot_class) (hours days weeks months years : Z)
    (st : locals) (backup : Backup) : bool :=
  slot_fires (budget_of c hours days weeks months years)
    (seen_of c st) (kept_of c st) (key_of c (CreatedAt backup)).

(** The locals after the first [n] backups have been processed. *)
Definition at_prefix (hours days weeks months years : Z) (bs : list Backup)
    (n : nat) : locals :=
  loop hours days weeks months years init (take n bs).

Definition kept_total (st : locals) : Z :=
  hoursKept st + daysKept st + weeksKept st + monthsKept st + yearsKept st.

(** What the loop maintains about the counters and the keep map. *)
Record inv (hours days weeks months years : Z) (st : locals) : Prop := {
  inv_kept_lo : forall c, 0 <= kept_of c st;
  inv_kept_hi : forall c,
    kept_of c st <= Z.max 0 (budget_of c hours days weeks months years);
  inv_size : Z.of_nat (size (keep st)) <= kept_total st;
  inv_true : forall id v, keep st !! id = Some v -> v = true
}.

(** The backup at position [i] fills a slot of class [c]: the class's
    kept-counter goes up while the loop processes it. *)
Definition fills (c : slot_class) (backups : list Backup)
    (hours days weeks months years : Z) (i : nat) : Prop :=
  (i < length backups)%nat /\
  kept_of c (run (take (S i) backups) hours days weeks months years)
  = kept_of c (run (take i backups) hours days weeks months years) + 1.

(** Newest first by [CreatedAt]. *)
Definition newest_first (backups : list Backup) : Prop :=
  forall i j a b, (i <= j)%nat -> backups !! i = Some a -> backups !! j = Some b ->
                  CreatedAt b <= CreatedAt a.

Fixpoint is_newest_first (backups : list Backup) : bool :=
  match backups with
  | a :: (b :: _) as rest => (CreatedAt b <=? CreatedAt a) && is_newest_first rest
  | _ => true
  end.

(** Twelve backups a week apart, newest first, as [backupsEveryWeek(12)] of
    the unit test builds them from Wednesday 2025-06-18 12:00 UTC. *)
Definition weekly_backups : list Backup :=
  map (fun i => {| ID := N.of_nat (100 + i); DatabaseID := 1%N; StorageID := 1%N;
                   Status := BackupStatusCompleted; BackupSizeMb := inject_Z 10;
                   CreatedAt := gotime.Date 2025 6 18 12 0
                                - Z.of_nat i * (7 * 24 * gotime.Hour);
                   FileName := "" |})
      (seq 0 12).

(** A backup at a given instant, for examples. *)
Definition newBackup (id : UUID) (createdAt : gotime.Time) : Backup :=
  {| ID := id; DatabaseID := 1%N; StorageID := 1%N;
     Status := BackupStatusCompleted; BackupSizeMb := 10%Q;
     CreatedAt := createdAt; FileName := "" |}.

(** The backups of the test cases "AdditiveSlots" and "ISOWeekBoundary". *)
Definition additive_backups : list Backup :=
  [ newBackup 10%N (gotime.Date 2025 6 18 12 0);
    newBackup 11%N (gotime.Date 2025 6 11 12 0);
    newBackup 12%N (gotime.Date 2025 5 18 12 0);
    newBackup 13%N (gotime.Date 2025 4 18 12 0) ].

Definition iso_week_backups : list Backup :=
  [ newBackup 20%N (gotime.Date 2025 1 1 12 0);
    newBackup 21%N (gotime.Date 2024 12 28 12 0) ].

(** *** More views: bucket keys present in a list, and what a slot class has
    seen *)

(** The bucket keys of class [c] that occur in [backups]. *)
Definition keys_in (c : slot_class) (backups : list Backup) : gset string :=
  list_to_set (map (fun b => key_of c (CreatedAt b)) backups).

(** What the loop maintains for one class once the backups with the keys [K]
    have been processed: the seen-set holds only [true], counts as many keys
    as the counter says, lies within [K], and is all of [K] as long as slots
    are left. *)
Record slot_inv (budget : Z) (seen : gmap string bool) (kept : Z) (K : gset string)
  : Prop := {
  si_true  : forall k v, seen !! k = Some v -> v = true;
  si_count : Z.of_nat (size (dom seen)) = kept;
  si_bound : kept <= Z.max 0 budget;
  si_sub   : dom seen ⊆ K;
  si_all   : kept < budget -> dom seen = K
}.

(** The backups of [backups] whose id the keep-set holds: what is left after
    a GFS pass that could delete every candidate. *)
Definition survivors (keepSet : gmap UUID bool) (backups : list Backup) : list Backup :=
  List.filter (fun b => map_get keepSet (ID b)) backups.

End gfs.

(** ** Numeric conversions of Go *)

Module gonum.

(** [float64(n)] for an [int64] [n], as the number the result denotes.  A
    [float64] carries 53 significant bits: up to [2^53] in magnitude the
    conversion is exact; beyond, the bits below the 53 leading ones are
    rounded away, to nearest and to the even significand on a tie. *)
Definition float64 (n : Z) : Q :=
  let a := Z.abs n in
  if a <=? 2 ^ 53 then inject_Z n
  else
    let dropped := Z.log2 a - 52 in
    let significand := Z.shiftr a dropped in
    let rest := Z.land a (Z.ones dropped) in
    let half := Z.shiftl 1 (dropped - 1) in
    let rounded :=
      if (half <? rest) || ((rest =? half) && Z.odd significand)
      then significand + 1 else significand in
    inject_Z (Z.sgn n * Z.shiftl rounded dropped).

End gonum.

(** ** Package [backuping]: the cleaner and what it talks to *)

Module backuping.
Import backups_core.

(** A Go call returning [(value, error)]. *)
Inductive result (A : Type) : Type :=
  | Ok (a : A)
  | Err (e : string).
Arguments Ok {A} a.
Arguments Err {A} e.

Definition recentBackupGracePeriod : gotime.Duration := 60 * gotime.Minute.

(** What the cleaner calls on its collaborators, as it shows in a trace
    (most recent call first). *)
Inductive Event :=
  | EvDeleteBackup (backup : Backup) (at_ : gotime.Time)
  | EvListener (index : nat) (backup : Backup)
  | EvDeleteFile (storage : UUID) (fileName : string)
  | EvDeleteByID (id : UUID)
  | EvLog (level msg : string).

(** The state outside the cleaner: wall clock, catalog rows, stored
    objects (storage id and file name), and the calls made so far. *)
Record World := {
  now     : gotime.Time;
  rows    : list Backup;
  objects : gset (UUID * string);
  trace   : list Event
}.

Definition emit (e : Event) (w : World) : World :=
  {| now := now w; rows := rows w; objects := objects w; trace := e :: trace w |}.

Definition logger_Error (msg : string) : World -> World := emit (EvLog "ERROR" msg).
Definition logger_Warn  (msg : string) : World -> World := emit (EvLog "WARN" msg).
Definition logger_Info  (msg : string) : World -> World := emit (EvLog "INFO" msg).

(** [storages.Storage]: only its identity matters here. *)
Record Storage := { storage_ID : UUID }.

(** Modelled from the spec: the catalog interface [BackupRepository]
    (package [core] is not among the sources).  [query_error] and
    [delete_error] say which calls fail, per database and per backup id. *)
Record BackupRepository := {
  query_error  : UUID -> error;
  delete_error : UUID -> error
}.

(** Modelled from the spec: the object-store interface [StorageService]
    (package [storages] is not among the sources).  [lookup] is
    [GetStorageByID]; [unavailable] says which [DeleteFile] calls fail;
    a remote call takes [latency] nanoseconds. *)
Record StorageService := {
  lookup      : UUID -> result Storage;
  unavailable : UUID -> string -> error;
  latency     : N
}.

(** Modelled from the spec: [BackupConfigService] (its package holds the
    validator, but the service itself is not among the sources). *)
Record BackupConfigService := {
  configs       : list backups_config.BackupConfig;
  configs_error : error
}.

(** A registered [BackupRemoveListener], by what its
    [OnBeforeBackupRemove] returns. *)
Definition BackupRemoveListener := Backup -> error.

Record BackupCleaner := {
  backupRepository      : BackupRepository;
  storageService        : StorageService;
  backupConfigService   : BackupConfigService;
  backupRemoveListeners : list BackupRemoveListener
}.

(** *** The collaborators' operations *)

Fixpoint insert_by (le : Backup -> Backup -> bool) (x : Backup) (l : list Backup)
  : list Backup :=
  match l with
  | [] => [x]
  | y :: l' => if le x y then x :: l else y :: insert_by le x l'
  end.

Definition sort_by (le : Backup -> Backup -> bool) (l : list Backup) : list Backup :=
  fold_right (insert_by le) [] l.

Definition newest_first_le (a b : Backup) : bool := CreatedAt b <=? CreatedAt a.
Definition oldest_first_le (a b : Backup) : bool := CreatedAt a <=? CreatedAt b.

(** Modelled from the spec: [findBackupsBeforeDate(databaseId, t)], any
    status, ordered newest-first. *)
Definition FindBackupsBeforeDate (r : BackupRepository) (databaseID : UUID)
    (date : gotime.Time) (w : World) : result (list Backup) :=
  match query_error r databaseID with
  | Some e => Err e
  | None =>
    Ok (sort_by newest_first_le
          (List.filter (fun b => N.eqb (DatabaseID b) databaseID
                                 && (CreatedAt b <? date)) (rows w)))
  end.

(** Modelled from the spec: [findByDatabaseIdAndStatus(databaseId, status)],
    ordered newest-first. *)
Definition FindByDatabaseIdAndStatus (r : BackupRepository) (databaseID : UUID)
    (status : BackupStatus) (w : World) : result (list Backup) :=
  match query_error r databaseID with
  | Some e => Err e
  | None =>
    Ok (sort_by newest_first_le
          (List.filter (fun b => N.eqb (DatabaseID b) databaseID
                                 && BackupStatus_eqb (Status b) status) (rows w)))
  end.

(** Modelled from the spec:
    [findOldestByDatabaseExcludingInProgress(databaseId, limit)], ordered
    oldest-first, without the IN_PROGRESS rows. *)
Definition FindOldestByDatabaseExcludingInProgress (r : BackupRepository)
    (databaseID : UUID) (limit : nat) (w : World) : result (list Backup) :=
  match query_error r databaseID with
  | Some e => Err e
  | None =>
    Ok (take limit
          (sort_by oldest_first_le
             (List.filter (fun b => N.eqb (DatabaseID b) databaseID
                                    && negb (BackupStatus_eqb (Status b)
                                               BackupStatusInProgress)) (rows w))))
  end.

Definition total_size (databaseID : UUID) (l : list Backup) : Q :=
  fold_right (fun b acc => Qplus (BackupSizeMb b) acc) (inject_Z 0)
    (List.filter (fun b => N.eqb (DatabaseID b) databaseID
                           && BackupStatus_eqb (Status b) BackupStatusCompleted) l).

(** Modelled from the spec: [getTotalSizeByDatabase(databaseId)], the sum
    over the COMPLETED rows only. *)
Definition GetTotalSizeByDatabase (r : BackupRepository) (databaseID : UUID)
    (w : World) : result Q :=
  match query_error r databaseID with
  | Some e => Err e
  | None => Ok (total_size databaseID (rows w))
  end.

(** Modelled from the spec: [deleteById(id)]; deleting an absent id is
    benign. *)
Definition DeleteByID (r : BackupRepository) (id : UUID) (w : World)
  : error * World :=
  let w1 := emit (EvDeleteByID id) w in
  match delete_error r id with
  | Some e => (Some e, w1)
  | None =>
    (None, {| now := now w1;
              rows := List.filter (fun b => negb (N.eqb (ID b) id)) (rows w1);
              objects := objects w1; trace := trace w1 |})
  end.

(** Modelled from the spec: [getStorageById(id)]. *)
Definition GetStorageByID (s : StorageService) (id : UUID) : result Storage :=
  lookup s id.

(** Modelled from the spec: [Storage.deleteFile(encryptor, fileName)],
    idempotent on a missing object. *)
Definition DeleteFile (s : StorageService) (st : Storage) (fileName : string)
    (w : World) : error * World :=
  let w1 := {| now := now w + Z.of_N (latency s); rows := rows w;
               objects := objects w;
               trace := EvDeleteFile (storage_ID st) fileName :: trace w |} in
  match unavailable s (storage_ID st) fileName with
  | Some e => (Some e, w1)
  | None =>
    (None, {| now := now w1; rows := rows w1;
              objects := objects w1 ∖ {[ (storage_ID st, fileName) ]};
              trace := trace w1 |})
  end.

(** Modelled from the spec: [getBackupConfigsWithEnabledBackups()]. *)
Definition GetBackupConfigsWithEnabledBackups (s : BackupConfigService)
  : result (list backups_config.BackupConfig) :=
  match configs_error s with
  | Some e => Err e
  | None => Ok (List.filter backups_config.IsBackupsEnabled (configs s))
  end.

(** [uuid.UUID.String()], abridged to the decimal value. *)
Definition uuid_String (id : UUID) : string := gotime.sprint_d (Z.of_N id).

(** *** The cleaner *)

Fixpoint notify (ls : list BackupRemoveListener) (index : nat) (backup : Backup)
    (w : World) : error * World :=
  match ls with
  | [] => (None, w)
  | listener :: ls' =>
    let w1 := emit (EvListener index backup) w in
    match listener backup with
    | Some err => (Some err, w1)
    | None => notify ls' (S index) backup w1
    end
  end.

Definition DeleteBackup (c : BackupCleaner) (backup : Backup) (w : World)
  : error * World :=
  let w0 := emit (EvDeleteBackup backup (now w)) w in
  match notify (backupRemoveListeners c) 0 backup w0 with
  | (Some err, w1) => (Some err, w1)
  | (None, w1) =>
    match GetStorageByID (storageService c) (StorageID backup) with
    | Err err => (Some err, w1)
    | Ok storage =>
      let '(err, w2) := DeleteFile (storageService c) storage (FileName backup) w1 in
      let w2 := match err with
                | Some _ => logger_Error "Failed to delete backup file" w2
                | None => w2
                end in
      let metadataFileName := FileName backup +:+ ".metadata" in
      let '(err, w3) := DeleteFile (storageService c) storage metadataFileName w2 in
      let w3 := match err with
                | Some _ => logger_Error "Failed to delete backup metadata file" w3
                | None => w3
                end in
      DeleteByID (backupRepository c) (ID backup) w3
    end
  end.

(** [time.Since(backup.CreatedAt) < recentBackupGracePeriod]. *)
Definition isRecentBackup (w : World) (backup : Backup) : bool :=
  gotime.Sub (now w) (CreatedAt backup) <? recentBackupGracePeriod.

Definition cleanByTimePeriod (c : BackupCleaner)
    (backupConfig : backups_config.BackupConfig) (w : World)
  : outcome (error * World) :=
  let p := backups_config.RetentionTimePeriod backupConfig in
  if String.eqb p "" then Ret (nil_error, w)
  else if String.eqb p period.PeriodForever then Ret (nil_error, w)
  else
    do storeDuration <- period.ToDuration p;
    let dateBeforeBackupsShouldBeDeleted := gotime.Add (now w) (- storeDuration) in
    match FindBackupsBeforeDate (backupRepository c)
            (backups_config.DatabaseID backupConfig)
            dateBeforeBackupsShouldBeDeleted w with
    | Err err =>
      Ret (Some ("failed to find old backups for database "
                 +:+ uuid_String (backups_config.DatabaseID backupConfig)
                 +:+ ": " +:+ err), w)
    | Ok oldBackups =>
      Ret (nil_error,
           fold_left (fun w backup =>
             if isRecentBackup w backup then w
             else match DeleteBackup c backup w with
                  | (Some _, w') => logger_Error "Failed to delete old backup" w'
                  | (None, w') => logger_Info "Deleted old backup" w'
                  end) oldBackups w)
    end.

Definition cleanByCount (c : BackupCleaner)
    (backupConfig : backups_config.BackupConfig) (w : World) : error * World :=
  if backups_config.RetentionCount backupConfig <=? 0 then (nil_error, w)
  else
    match FindByDatabaseIdAndStatus (backupRepository c)
            (backups_config.DatabaseID backupConfig) BackupStatusCompleted w with
    | Err err =>
      (Some ("failed to find completed backups for database "
             +:+ uuid_String (backups_config.DatabaseID backupConfig)
             +:+ ": " +:+ err), w)
    | Ok completedBackups =>
      if Z.of_nat (length completedBackups)
         <=? backups_config.RetentionCount backupConfig
      then (nil_error, w)
      else
        let toDelete :=
          drop (Z.to_nat (backups_config.RetentionCount backupConfig))
            completedBackups in
        (nil_error,
         fold_left (fun w backup =>
           if isRecentBackup w backup then w
           else match DeleteBackup c backup w with
                | (Some _, w') =>
                  logger_Error "Failed to delete backup by count policy" w'
                | (None, w') => logger_Info "Deleted backup by count policy" w'
                end) toDelete w)
    end.

Definition cleanByGFS (c : BackupCleaner)
    (backupConfig : backups_config.BackupConfig) (w : World) : error * World :=
  if (backups_config.RetentionGfsHours backupConfig <=? 0)
     && (backups_config.RetentionGfsDays backupConfig <=? 0)
     && (backups_config.RetentionGfsWeeks backupConfig <=? 0)
     && (backups_config.RetentionGfsMonths backupConfig <=? 0)
     && (backups_config.RetentionGfsYears backupConfig <=? 0)
  then (nil_error, w)
  else
    match FindByDatabaseIdAndStatus (backupRepository c)
            (backups_config.DatabaseID backupConfig) BackupStatusCompleted w with
    | Err err =>
      (Some ("failed to find completed backups for database "
             +:+ uuid_String (backups_config.DatabaseID backupConfig)
             +:+ ": " +:+ err), w)
    | Ok completedBackups =>
      let keepSet :=
        gfs.buildGFSKeepSet completedBackups
          (backups_config.RetentionGfsHours backupConfig)
          (backups_config.RetentionGfsDays backupConfig)
          (backups_config.RetentionGfsWeeks backupConfig)
          (backups_config.RetentionGfsMonths backupConfig)
          (backups_config.RetentionGfsYears backupConfig) in
      (nil_error,
       fold_left (fun w backup =>
         if gfs.map_get keepSet (ID backup) then w
         else if isRecentBackup w backup then w
         else match DeleteBackup c backup w with
              | (Some _, w') =>
                logger_Error "Failed to delete backup by GFS policy" w'
              | (None, w') => logger_Info "Deleted backup by GFS policy" w'
              end) completedBackups w)
    end.

(** The [for] loop of [cleanExceededBackupsForDatabase]; [None] when
    [fuel] iterations were not enough to leave it. *)
Fixpoint sizeLoop (c : BackupCleaner) (databaseID : UUID) (limitperDbMB : Z)
    (fuel : nat) (w : World) : option (error * World) :=
  match fuel with
  | O => None
  | S fuel' =>
    match GetTotalSizeByDatabase (backupRepository c) databaseID w with
    | Err err => Some (Some err, w)
    | Ok backupsTotalSizeMB =>
      if Qle_bool backupsTotalSizeMB (gonum.float64 limitperDbMB)
      then Some (nil_error, w)
      else
        match FindOldestByDatabaseExcludingInProgress (backupRepository c)
                databaseID 1 w with
        | Err err => Some (Some err, w)
        | Ok [] =>
          Some (nil_error, logger_Warn "No backups to delete but still over limit" w)
        | Ok (backup :: _) =>
          if isRecentBackup w backup then
            Some (nil_error,
                  logger_Warn
                    "Oldest backup is too recent to delete, stopping size cleanup" w)
          else
            match DeleteBackup c backup w with
            | (Some err, w1) =>
              Some (Some err, logger_Error "Failed to delete exceeded backup" w1)
            | (None, w1) =>
              sizeLoop c databaseID limitperDbMB fuel'
                (logger_Info "Deleted exceeded backup" w1)
            end
        end
    end
  end.

(** Every iteration that goes round again removes a catalog row, so one
    more iteration than there are rows is enough. *)
Definition cleanExceededBackupsForDatabase (c : BackupCleaner) (databaseID : UUID)
    (limitperDbMB : Z) (w : World) : option (error * World) :=
  sizeLoop c databaseID limitperDbMB (S (length (rows w))) w.

(** The body of the loop over the enabled configs in
    [cleanByRetentionPolicy]: dispatch on the policy, then log an error. *)
Definition retention_step (c : BackupCleaner) (acc : outcome World)
    (backupConfig : backups_config.BackupConfig) : outcome World :=
  do w <- acc;
  do r <-
    (let ty := backups_config.RetentionPolicyType_ backupConfig in
     if String.eqb ty backups_config.RetentionPolicyTypeCount
     then Ret (cleanByCount c backupConfig w)
     else if String.eqb ty backups_config.RetentionPolicyTypeGFS
     then Ret (cleanByGFS c backupConfig w)
     else cleanByTimePeriod c backupConfig w);
  match r with
  | (Some _, w') =>
    Ret (logger_Error "Failed to clean backups by retention policy" w')
  | (None, w') => Ret w'
  end.

Definition cleanByRetentionPolicy (c : BackupCleaner) (w : World)
  : outcome (error * World) :=
  match GetBackupConfigsWithEnabledBackups (backupConfigService c) with
  | Err err => Ret (Some err, w)
  | Ok enabledBackupConfigs =>
    do w' <- fold_left (retention_step c) enabledBackupConfigs (Ret w);
    Ret (nil_error, w')
  end.

(** The body of the loop over the enabled configs in
    [cleanExceededBackups]. *)
Definition size_step (c : BackupCleaner) (acc : option World)
    (backupConfig : backups_config.BackupConfig) : option World :=
  match acc with
  | None => None
  | Some w =>
    if backups_config.MaxBackupsTotalSizeMB backupConfig <=? 0 then Some w
    else
      match cleanExceededBackupsForDatabase c
              (backups_config.DatabaseID backupConfig)
              (backups_config.MaxBackupsTotalSizeMB backupConfig) w with
      | None => None
      | Some (Some _, w') =>
        Some (logger_Error "Failed to clean exceeded backups for database" w')
      | Some (None, w') => Some w'
      end
  end.

Definition cleanExceededBackups (c : BackupCleaner) (w : World)
  : option (error * World) :=
  match GetBackupConfigsWithEnabledBackups (backupConfigService c) with
  | Err err => Some (Some err, w)
  | Ok enabledBackupConfigs =>
    match fold_left (size_step c) enabledBackupConfigs (Some w) with
    | None => None
    | Some w' => Some (nil_error, w')
    end
  end.

(** One firing of the ticker in [Run]. *)
Definition tick (c : BackupCleaner) (w : World) : option (outcome World) :=
  match cleanByRetentionPolicy c w with
  | Panic msg => Some (Panic msg)
  | Ret (err, w1) =>
    let w1 := match err with
              | Some _ => logger_Error "Failed to clean backups by retention policy" w1
              | None => w1
              end in
    match cleanExceededBackups c w1 with
    | None => None
    | Some (err, w2) =>
      Some (Ret match err with
                | Some _ => logger_Error "Failed to clean exceeded backups" w2
                | None => w2
                end)
    end
  end.

(** *** Views used to state the properties *)

(** The trace left by calling the listeners [from], ..., [from + count - 1]. *)
Definition listener_events (from count : nat) (backup : Backup) : list Event :=
  rev (map (fun k => EvListener k backup) (seq from count)).

(** The backups [DeleteBackup] was called on, with the clock at the call. *)
Fixpoint pipeline_calls (t : list Event) : list (Backup * gotime.Time) :=
  match t with
  | [] => []
  | EvDeleteBackup b at_ :: t' => (b, at_) :: pipeline_calls t'
  | _ :: t' => pipeline_calls t'
  end.

(** [w'] is reached from [w] by cleaner activity that only ever called
    the pipeline on backups that were rows of [w], satisfied [P] and were
    out of the grace period on the clock of the call; [new] lists those
    calls, most recent first. *)
Record safe_step (P : Backup -> Prop) (w w' : World) (new : list (Backup * gotime.Time))
  : Prop := {
  ss_now   : now w <= now w';
  ss_rows  : forall x, In x (rows w') -> In x (rows w);
  ss_calls : pipeline_calls (trace w') = new ++ pipeline_calls (trace w);
  ss_guard : forall b at_, In (b, at_) new ->
               In b (rows w) /\ P b /\ now w <= at_
               /\ recentBackupGracePeriod <= at_ - CreatedAt b;
  ss_gone  : forall x, In x (rows w) -> ~ In x (rows w') ->
               exists b at_, In (b, at_) new /\ ID b = ID x
}.

(** The size loop has nothing more to do in [w]: the total is within the
    cap, or there is no candidate, or the oldest candidate is recent. *)
Definition settled (c : BackupCleaner) (databaseID : UUID) (limitperDbMB : Z)
    (w : World) : Prop :=
  exists total,
    GetTotalSizeByDatabase (backupRepository c) databaseID w = Ok total
    /\ (Qle total (gonum.float64 limitperDbMB)
        \/ FindOldestByDatabaseExcludingInProgress (backupRepository c)
             databaseID 1 w = Ok []
        \/ exists b l,
             FindOldestByDatabaseExcludingInProgress (backupRepository c)
               databaseID 1 w = Ok (b :: l)
             /\ isRecentBackup w b = true).

(** *** Example cleaners and worlds *)

(** A cleaner whose collaborators never fail, with no listeners. *)
Definition healthy_cleaner (cfgs : list backups_config.BackupConfig) : BackupCleaner := {|
  backupRepository := {| query_error := fun _ => None; delete_error := fun _ => None |};
  storageService := {| lookup := fun id => Ok {| storage_ID := id |};
                       unavailable := fun _ _ => None;
                       latency := 1000000%N |};
  backupConfigService := {| configs := cfgs; configs_error := None |};
  backupRemoveListeners := []
|}.

(** The same cleaner with an unreachable object store and three listeners,
    the second of which refuses every backup whose id is odd. *)
Definition strict_cleaner : BackupCleaner := {|
  backupRepository := {| query_error := fun _ => None; delete_error := fun _ => None |};
  storageService := {| lookup := fun id => Ok {| storage_ID := id |};
                       unavailable := fun _ _ => Some "storage unreachable";
                       latency := 1000000%N |};
  backupConfigService := {| configs := []; configs_error := None |};
  backupRemoveListeners :=
    [ (fun _ => None);
      (fun b => if N.odd (ID b) then Some "backup is pinned" else None);
      (fun _ => None) ]
|}.

Definition mk_backup (id : UUID) (status : BackupStatus) (sizeMb : Z)
    (createdAt : gotime.Time) : Backup :=
  {| ID := id; DatabaseID := 1%N; StorageID := 7%N; Status := status;
     BackupSizeMb := inject_Z sizeMb; CreatedAt := createdAt;
     FileName := "backup-" +:+ uuid_String id |}.

Definition noon : gotime.Time := gotime.Date 2025 6 18 12 0.

Definition world_of (l : list Backup) : World :=
  {| now := noon; rows := l;
     objects := list_to_set (map (fun b => (StorageID b, FileName b)) l);
     trace := [] |}.

Definition policy_config (ty : string) (p : period.TimePeriod) (count : Z)
    (gfsDays : Z) (maxTotal : Z) : backups_config.BackupConfig := {|
  backups_config.DatabaseID := 1%N;
  backups_config.IsBackupsEnabled := true;
  backups_config.RetentionPolicyType_ := ty;
  backups_config.RetentionTimePeriod := p;
  backups_config.RetentionCount := count;
  backups_config.RetentionGfsHours := 0;
  backups_config.RetentionGfsDays := gfsDays;
  backups_config.RetentionGfsWeeks := 0;
  backups_config.RetentionGfsMonths := 0;
  backups_config.RetentionGfsYears := 0;
  backups_config.BackupIntervalID := 2%N;
  backups_config.BackupInterval := None;
  backups_config.StorageID := Some 7%N;
  backups_config.IsRetryIfFailed := false;
  backups_config.MaxFailedTriesCount := 0;
  backups_config.Encryption := backups_config.BackupEncryptionNone;
  backups_config.MaxBackupSizeMB := 0;
  backups_config.MaxBackupsTotalSizeMB := maxTotal
|}.

(** Retention of one day; one backup still IN_PROGRESS after two days and
    one completed half an hour ago. *)
Definition day_config : backups_config.BackupConfig :=
  policy_config backups_config.RetentionPolicyTypeTimePeriod period.PeriodDay 0 0 0.

Definition stuck_backup : Backup :=
  mk_backup 31%N BackupStatusInProgress 0 (noon - 48 * gotime.Hour).
Definition fresh_backup : Backup :=
  mk_backup 32%N BackupStatusCompleted 8 (noon - 30 * gotime.Minute).

Definition stuck_world : World := world_of [stuck_backup; fresh_backup].

(** A cap of 10 MiB over three completed backups of 8 MiB: two old, one
    recent. *)
Definition capped_config : backups_config.BackupConfig :=
  policy_config backups_config.RetentionPolicyTypeTimePeriod period.PeriodForever 0 0 10.

Definition old_backup_1 : Backup :=
  mk_backup 41%N BackupStatusCompleted 8 (noon - 5 * gotime.Hour).
Definition old_backup_2 : Backup :=
  mk_backup 42%N BackupStatusCompleted 8 (noon - 3 * gotime.Hour).

Definition crowded_world : World :=
  world_of [fresh_backup; old_backup_2; old_backup_1].

(** A GFS config with every counter at zero, and a COUNT config with count
    zero. *)
Definition zero_gfs_config : backups_config.BackupConfig :=
  policy_config backups_config.RetentionPolicyTypeGFS "" 0 0 0.
Definition zero_count_config : backups_config.BackupConfig :=
  policy_config backups_config.RetentionPolicyTypeCount "" 0 0 0.

(** COUNT policy keeping two, over two recent and two old completed backups. *)
Definition count_config : backups_config.BackupConfig :=
  policy_config backups_config.RetentionPolicyTypeCount "" 2 0 0.

Definition newest_backup : Backup :=
  mk_backup 33%N BackupStatusCompleted 8 (noon - 10 * gotime.Minute).

Definition count_world : World :=
  world_of [old_backup_1; fresh_backup; newest_backup; old_backup_2].

Definition two_days_old : Backup :=
  mk_backup 34%N BackupStatusCompleted 8 (noon - 48 * gotime.Hour).

(** A cap of 10 MiB over two recent backups of 8 MiB. *)
Definition recent_world : World := world_of [fresh_backup; newest_backup].

(** A cap that [float64] cannot hold, [2^53 + 3], and one old completed
    backup of [2^53 + 4] MiB, the [float64] nearest to the cap. *)
Definition odd_cap : Z := 9007199254740995.



(** Every event of a trace that is not a log line. *)
Definition calls_of (t : list Event) : list Event :=
  List.filter (fun e => match e with EvLog _ _ => false | _ => true end) t.

Definition any_backup (b : Backup) : Prop := True.
Definition not_in_progress (b : Backup) : Prop := Status b <> BackupStatusInProgress.
Definition completed (b : Backup) : Prop := Status b = BackupStatusCompleted.

(** *** Registration of listeners, and [Run] *)

Definition AddBackupRemoveListener (c : BackupCleaner) (listener : BackupRemoveListener)
  : BackupCleaner :=
  {| backupRepository := backupRepository c;
     storageService := storageService c;
     backupConfigService := backupConfigService c;
     backupRemoveListeners := backupRemoveListeners c ++ [listener] |}.

(** The two flags of the cleaner: the atomic [hasRun] and whether [runOnce]
    has been used. *)
Record RunFlags := { hasRun : bool; runOnce_used : bool }.

Definition fresh_flags : RunFlags := {| hasRun := false; runOnce_used := false |}.

(** What a [select] of the loop receives: the context's cancellation, or
    the ticker, some nanoseconds after the previous reception. *)
Inductive Reception :=
  | CtxDone
  | TickerFired (elapsed : N).

(** How a call of [Run] ends, over a finite list of receptions: it returns;
    it is still in the [select] when the list is used up; a tick panics; or
    the call panics itself because [Run] had been called before. *)
Inductive RunEnd :=
  | Returned (w : World)
  | Waiting (w : World)
  | TickPanicked (msg : string)
  | CalledTwice (msg : string) (w : World).

Definition cleanerTickerInterval : gotime.Duration := 1 * gotime.Minute.

Definition elapse (elapsed : N) (w : World) : World :=
  {| now := now w + Z.of_N elapsed; rows := rows w; objects := objects w;
     trace := trace w |}.

(** The [for { select { ... } }] of [Run]; [None] only if a tick ran out of
    fuel. *)
Fixpoint serve (c : BackupCleaner) (receptions : list Reception) (w : World)
  : option RunEnd :=
  match receptions with
  | [] => Some (Waiting w)
  | CtxDone :: _ => Some (Returned w)
  | TickerFired elapsed :: rest =>
    match tick c (elapse elapsed w) with
    | None => None
    | Some (Panic msg) => Some (TickPanicked msg)
    | Some (Ret w') => serve c rest w'
    end
  end.

(** [Run(ctx)]: [ctxErr] says whether [ctx.Err() != nil] on entry. *)
Definition Run (c : BackupCleaner) (flags : RunFlags) (ctxErr : bool)
    (receptions : list Reception) (w : World) : option (RunFlags * RunEnd) :=
  let wasAlreadyRun := hasRun flags in
  let after_once :=
    if runOnce_used flags then Some (flags, Returned w)
    else
      let flags' := {| hasRun := true; runOnce_used := true |} in
      if ctxErr then Some (flags', Returned w)
      else match serve c receptions w with
           | None => None
           | Some r => Some (flags', r)
           end in
  match after_once with
  | Some (flags', Returned w') =>
    if wasAlreadyRun
    then Some (flags', CalledTwice "*backuping.BackupCleaner.Run() called multiple times" w')
    else Some (flags', Returned w')
  | other => other
  end.

(** *** More views used to state the properties *)

(** The objects a successful pass through the two [DeleteFile] calls takes
    away: the blob and its metadata, each unless the storage fails on it. *)
Definition removable (c : BackupCleaner) (st : Storage) (b : Backup)
  : gset (UUID * string) :=
  (match unavailable (storageService c) (storage_ID st) (FileName b) with
   | Some _ => ∅
   | None => {[ (storage_ID st, FileName b) ]}
   end)
  ∪ (match unavailable (storageService c) (storage_ID st)
             (FileName b +:+ ".metadata") with
     | Some _ => ∅
     | None => {[ (storage_ID st, FileName b +:+ ".metadata") ]}
     end).

(** No collaborator fails on [b]: every listener passes, its storage is
    found and its catalog row can be deleted. *)
Definition healthy_for (c : BackupCleaner) (b : Backup) : Prop :=
  (forall l, In l (backupRemoveListeners c) -> l b = None)
  /\ (exists st, lookup (storageService c) (StorageID b) = Ok st)
  /\ delete_error (backupRepository c) (ID b) = None.

(** The database of [b] has an enabled config. *)
Definition database_enabled (c : BackupCleaner) (b : Backup) : Prop :=
  exists cfg, In cfg (configs (backupConfigService c))
              /\ backups_config.IsBackupsEnabled cfg = true
              /\ backups_config.DatabaseID cfg = DatabaseID b.

(** Candidates of the three retention passes and of the size pass. *)
Definition expired (databaseID : UUID) (cutoff : gotime.Time) (b : Backup) : Prop :=
  DatabaseID b = databaseID /\ CreatedAt b < cutoff.

Definition beyond_count (databaseID : UUID) (tail : list Backup) (b : Backup) : Prop :=
  DatabaseID b = databaseID /\ Status b = BackupStatusCompleted /\ In b tail.

Definition outside_keep_set (databaseID : UUID) (keepSet : gmap UUID bool) (b : Backup)
  : Prop :=
  DatabaseID b = databaseID /\ Status b = BackupStatusCompleted
  /\ gfs.map_get keepSet (ID b) = false.

Definition size_candidate (databaseID : UUID) (b : Backup) : Prop :=
  DatabaseID b = databaseID /\ Status b <> BackupStatusInProgress.

(** The completed backups of a database, newest first, as the count and GFS
    passes read them. *)
Definition completed_newest_first (databaseID : UUID) (w : World) : list Backup :=
  sort_by newest_first_le
    (List.filter (fun b => N.eqb (DatabaseID b) databaseID
                           && BackupStatus_eqb (Status b) BackupStatusCompleted)
       (rows w)).

End backuping.

(* ===================================================================== *)
(** * Part II: properties                                                 *)
(* ===================================================================== *)

Module PeriodFacts.
Import period.

Ltac each_named H :=
  unfold named_periods in H; cbn [In] in H;
  repeat (destruct H as [<- | H]); [ .. | destruct H ].

Lemma CompareTo_rank a b :
  In a named_periods -> In b named_periods ->
  CompareTo a b = Ret (Z.sgn (rank a - rank b)).
Proof.
  intros Ha Hb. each_named Ha; each_named Hb; vm_compute; reflexivity.
Qed.

Lemma rank_inj a b :
  In a named_periods -> In b named_periods -> rank a = rank b -> a = b.
Proof.
  intros Ha Hb. each_named Ha; each_named Hb; vm_compute;
    intros E; first [ reflexivity | discriminate E ].
Qed.

Lemma rank_Forever a :
  In a named_periods -> a <> PeriodForever -> rank a < rank PeriodForever.
Proof.
  intros Ha Hne. each_named Ha; first [ reflexivity | contradiction Hne; reflexivity ].
Qed.

Lemma ToDuration_rank a b :
  In a named_periods -> In b named_periods ->
  a <> PeriodForever -> b <> PeriodForever ->
  exists d1 d2, ToDuration a = Ret d1 /\ ToDuration b = Ret d2 /\
                0 < d1 /\ 0 < d2 /\ Z.sgn (d1 - d2) = Z.sgn (rank a - rank b).
Proof.
  intros Ha Hb Hna Hnb.
  each_named Ha; try (contradiction Hna; reflexivity);
  each_named Hb; try (contradiction Hnb; reflexivity);
  eexists; eexists; (split; [reflexivity|]); (split; [reflexivity|]);
  vm_compute; repeat split; reflexivity.
Qed.

(** C9.  [CompareTo] is a total order on the eleven named periods:
    it always returns one of -1, 0, 1; it returns 0 exactly on equal names;
    FOREVER compares equal to itself and every other period is strictly
    below FOREVER; two finite periods compare as their canonical durations,
    which increase strictly along DAY, WEEK, MONTH, 3_MONTH, 6_MONTH, YEAR,
    2_YEARS, 3_YEARS, 4_YEARS, 5_YEARS; swapping the arguments negates the
    result (antisymmetry) and "less than" is transitive. *)
Theorem CompareTo_total_order (a b c : TimePeriod) :
  In a named_periods -> In b named_periods -> In c named_periods ->
  (exists r, CompareTo a b = Ret r /\ (r = -1 \/ r = 0 \/ r = 1)
             /\ CompareTo b a = Ret (- r))
  /\ (CompareTo a b = Ret 0 <-> a = b)
  /\ CompareTo PeriodForever PeriodForever = Ret 0
  /\ (a <> PeriodForever -> CompareTo a PeriodForever = Ret (-1)
                            /\ CompareTo PeriodForever a = Ret 1)
  /\ (a <> PeriodForever -> b <> PeriodForever ->
      exists d1 d2, ToDuration a = Ret d1 /\ ToDuration b = Ret d2
                    /\ CompareTo a b = Ret (Z.sgn (d1 - d2))
                    /\ (d1 < d2 <-> rank a < rank b))
  /\ (CompareTo a b = Ret (-1) -> CompareTo b c = Ret (-1) ->
      CompareTo a c = Ret (-1))
  /\ (CompareTo a b = Ret (-1) \/ a = b \/ CompareTo b a = Ret (-1)).
Proof.
  intros Ha Hb Hc.
  pose proof (CompareTo_rank a b Ha Hb) as Eab.
  pose proof (CompareTo_rank b a Hb Ha) as Eba.
  pose proof (CompareTo_rank b c Hb Hc) as Ebc.
  pose proof (CompareTo_rank a c Ha Hc) as Eac.
  pose proof (rank_inj a b Ha Hb) as Hinj.
  repeat split.
  - exists (Z.sgn (rank a - rank b)). split; [exact Eab|]. split.
    + destruct (Z.sgn_spec (rank a - rank b)) as [[_ ->]|[[_ ->]|[_ ->]]]; lia.
    + rewrite Eba. f_equal. rewrite <- Z.sgn_opp. f_equal. lia.
  - rewrite Eab. intros E. injection E as E.
    apply Hinj. apply Z.sgn_null_iff in E. lia.
  - intros ->. rewrite Eab. f_equal. rewrite Z.sub_diag. reflexivity.
  - rewrite (CompareTo_rank a PeriodForever Ha) by (vm_compute; tauto).
    pose proof (rank_Forever a Ha H). f_equal. apply Z.sgn_neg. lia.
  - rewrite (CompareTo_rank PeriodForever a) by (try assumption; vm_compute; tauto).
    pose proof (rank_Forever a Ha H). f_equal. apply Z.sgn_pos. lia.
  - intros Hna Hnb.
    destruct (ToDuration_rank a b Ha Hb Hna Hnb)
      as (d1 & d2 & E1 & E2 & _ & _ & Es).
    exists d1, d2. repeat split; try assumption.
    + rewrite Eab. f_equal. symmetry. exact Es.
    + intros Hlt. assert (Z.sgn (d1 - d2) = -1) as E by (apply Z.sgn_neg; lia).
      rewrite Es in E. apply Z.sgn_neg_iff in E. lia.
    + intros Hlt. assert (Z.sgn (rank a - rank b) = -1) as E by (apply Z.sgn_neg; lia).
      rewrite <- Es in E. apply Z.sgn_neg_iff in E. lia.
  - rewrite Eab, Ebc, Eac. intros E1 E2.
    injection E1 as E1. injection E2 as E2.
    apply Z.sgn_neg_iff in E1. apply Z.sgn_neg_iff in E2.
    f_equal. apply Z.sgn_neg. lia.
  - rewrite Eab, Eba.
    destruct (Z.lt_trichotomy (rank a) (rank b)) as [Hlt | [Heq | Hgt]].
    + left. f_equal. apply Z.sgn_neg. lia.
    + right; left. apply Hinj. exact Heq.
    + right; right. f_equal. apply Z.sgn_neg. lia.
Qed.

Lemma CompareTo_total_order_witness :
  (exists r, CompareTo PeriodWeek PeriodYear = Ret r /\ (r = -1 \/ r = 0 \/ r = 1)
             /\ CompareTo PeriodYear PeriodWeek = Ret (- r))
  /\ (CompareTo PeriodWeek PeriodYear = Ret 0 <-> PeriodWeek = PeriodYear)
  /\ CompareTo PeriodForever PeriodForever = Ret 0
  /\ (PeriodWeek <> PeriodForever -> CompareTo PeriodWeek PeriodForever = Ret (-1)
                            /\ CompareTo PeriodForever PeriodWeek = Ret 1)
  /\ (PeriodWeek <> PeriodForever -> PeriodYear <> PeriodForever ->
      exists d1 d2, ToDuration PeriodWeek = Ret d1 /\ ToDuration PeriodYear = Ret d2
                    /\ CompareTo PeriodWeek PeriodYear = Ret (Z.sgn (d1 - d2))
                    /\ (d1 < d2 <-> rank PeriodWeek < rank PeriodYear))
  /\ (CompareTo PeriodWeek PeriodYear = Ret (-1) ->
      CompareTo PeriodYear PeriodForever = Ret (-1) ->
      CompareTo PeriodWeek PeriodForever = Ret (-1))
  /\ (CompareTo PeriodWeek PeriodYear = Ret (-1) \/ PeriodWeek = PeriodYear
      \/ CompareTo PeriodYear PeriodWeek = Ret (-1)).
Proof.
  apply (CompareTo_total_order PeriodWeek PeriodYear PeriodForever);
    vm_compute; tauto.
Defined.

End PeriodFacts.

Module ValidatorFacts.
Import backups_config.

Lemma Validate_first_failure isCloud b plan :
  Validate isCloud b plan = first_failure (ordered_checks isCloud) b plan.
Proof.
  unfold Validate, ordered_checks. cbn [first_failure].
  unfold check_interval, check_retention.
  destruct (BackupInterval b) as [iv|], (N.eqb (BackupIntervalID b) uuid_Nil);
    cbn [andb]; try reflexivity;
  (destruct (validateRetentionPolicy b plan) as [[e|]|m]; cbn [obind];
     [reflexivity | | reflexivity]);
  unfold check_retry, check_encryption, check_cloud, check_size_sign,
    check_total_sign, gate_backup_size, gate_total_size; cbn [existsb];
  replace (negb (1 <=? MaxFailedTriesCount b)) with (MaxFailedTriesCount b <=? 0)
    by (destruct (Z.leb_spec (MaxFailedTriesCount b) 0),
          (Z.leb_spec 1 (MaxFailedTriesCount b)); cbn; try reflexivity; lia);
  replace (0 <=? MaxBackupSizeMB b) with (negb (MaxBackupSizeMB b <? 0))
    by (destruct (Z.leb_spec 0 (MaxBackupSizeMB b)),
          (Z.ltb_spec (MaxBackupSizeMB b) 0); cbn; try reflexivity; lia);
  replace (0 <=? MaxBackupsTotalSizeMB b) with (negb (MaxBackupsTotalSizeMB b <? 0))
    by (destruct (Z.leb_spec 0 (MaxBackupsTotalSizeMB b)),
          (Z.ltb_spec (MaxBackupsTotalSizeMB b) 0); cbn; try reflexivity; lia);
  destruct (IsRetryIfFailed b && (MaxFailedTriesCount b <=? 0)); try reflexivity;
  destruct (String.eqb (Encryption b) ""),
           (String.eqb (Encryption b) BackupEncryptionNone),
           (String.eqb (Encryption b) BackupEncryptionEncrypted);
    cbn [negb andb orb]; try reflexivity;
  destruct isCloud; cbn [negb andb orb]; try reflexivity;
  destruct (MaxBackupSizeMB b <? 0); cbn [negb]; try reflexivity;
  destruct (MaxBackupsTotalSizeMB b <? 0); cbn [negb]; try reflexivity;
  destruct ((0 <? PlanMaxBackupSizeMB plan) &&
            ((MaxBackupSizeMB b =? 0) || (PlanMaxBackupSizeMB plan <? MaxBackupSizeMB b)));
    try reflexivity;
  destruct ((0 <? PlanMaxBackupsTotalSizeMB plan) &&
            ((MaxBackupsTotalSizeMB b =? 0)
             || (PlanMaxBackupsTotalSizeMB plan <? MaxBackupsTotalSizeMB b)));
    reflexivity.
Qed.


Lemma Validate_after_earlier_checks isCloud b plan :
  earlier_checks_pass isCloud b plan ->
  Validate isCloud b plan
  = first_failure [gate_backup_size; gate_total_size] b plan.
Proof.
  intros (Hiv & Hret & Hretry & Henc & Hcloud & Hsz & Htot).
  rewrite Validate_first_failure. unfold ordered_checks.
  cbn [first_failure].
  assert (check_interval b plan = Ret nil_error) as ->.
  { unfold check_interval. destruct (BackupInterval b); [reflexivity|].
    destruct Hiv as [Hiv|Hiv]; [|congruence].
    apply N.eqb_neq in Hiv. rewrite Hiv. reflexivity. }
  unfold check_retention. rewrite Hret.
  assert (check_retry b plan = Ret nil_error) as ->.
  { unfold check_retry. destruct (IsRetryIfFailed b); [|reflexivity].
    specialize (Hretry eq_refl). apply Z.leb_le in Hretry. rewrite Hretry.
    reflexivity. }
  assert (check_encryption b plan = Ret nil_error) as ->.
  { unfold check_encryption.
    replace (existsb (String.eqb (Encryption b))
               [""; BackupEncryptionNone; BackupEncryptionEncrypted]) with true;
      [reflexivity|].
    symmetry. apply existsb_exists. exists (Encryption b).
    split; [exact Henc | apply String.eqb_refl]. }
  assert (check_cloud isCloud b plan = Ret nil_error) as ->.
  { unfold check_cloud. destruct isCloud; [|reflexivity].
    rewrite (Hcloud eq_refl). reflexivity. }
  assert (check_size_sign b plan = Ret nil_error) as ->.
  { unfold check_size_sign. apply Z.leb_le in Hsz. rewrite Hsz. reflexivity. }
  assert (check_total_sign b plan = Ret nil_error) as ->.
  { unfold check_total_sign. apply Z.leb_le in Htot. rewrite Htot. reflexivity. }
  reflexivity.
Qed.



(** C8, as stated, fails: a config that leaves both sizes at 0 under a plan
    capping both is rejected with "backup interval is required" when it has
    no interval, and with the per-backup message (not the total-size one)
    when it has one. *)
Lemma plan_size_gates_counterexample :
  (0 < PlanMaxBackupSizeMB capped_plan
   /\ MaxBackupSizeMB unlimited_no_interval = 0
   /\ Validate false unlimited_no_interval capped_plan
      = Ret (errors_New "backup interval is required")
   /\ Validate false unlimited_no_interval capped_plan
      <> Ret (errors_New "max backup size exceeds plan limit"))
  /\ (0 < PlanMaxBackupsTotalSizeMB capped_plan
      /\ MaxBackupsTotalSizeMB unlimited_config = 0
      /\ Validate false unlimited_config capped_plan
         = Ret (errors_New "max backup size exceeds plan limit")
      /\ Validate false unlimited_config capped_plan
         <> Ret (errors_New "max total backups size exceeds plan limit")).
Proof.
  repeat split; vm_compute; discriminate.
Qed.

(** C8, amended.  On a config that passes checks 1 to 7: if the plan caps
    the per-backup size and the config's value is 0 or above the cap,
    [Validate] returns "max backup size exceeds plan limit"; if that gate
    passes, the plan caps the total size and the config's value is 0 or
    above the cap, it returns "max total backups size exceeds plan limit";
    a plan value of 0 never fires its gate, and with both plan values 0 the
    config is accepted. *)
Theorem plan_size_gates isCloud b plan :
  earlier_checks_pass isCloud b plan ->
  (0 < PlanMaxBackupSizeMB plan ->
   MaxBackupSizeMB b = 0 \/ PlanMaxBackupSizeMB plan < MaxBackupSizeMB b ->
   Validate isCloud b plan = Ret (errors_New "max backup size exceeds plan limit"))
  /\ (gate_backup_size b plan = Ret nil_error ->
      0 < PlanMaxBackupsTotalSizeMB plan ->
      MaxBackupsTotalSizeMB b = 0
      \/ PlanMaxBackupsTotalSizeMB plan < MaxBackupsTotalSizeMB b ->
      Validate isCloud b plan
      = Ret (errors_New "max total backups size exceeds plan limit"))
  /\ (PlanMaxBackupSizeMB plan = 0 ->
      gate_backup_size b plan = Ret nil_error
      /\ Validate isCloud b plan
         <> Ret (errors_New "max backup size exceeds plan limit"))
  /\ (PlanMaxBackupsTotalSizeMB plan = 0 ->
      gate_total_size b plan = Ret nil_error
      /\ Validate isCloud b plan
         <> Ret (errors_New "max total backups size exceeds plan limit"))
  /\ (PlanMaxBackupSizeMB plan = 0 -> PlanMaxBackupsTotalSizeMB plan = 0 ->
      Validate isCloud b plan = Ret nil_error).
Proof.
  intros Hpass. rewrite (Validate_after_earlier_checks _ _ _ Hpass).
  cbn [first_failure]. unfold gate_backup_size, gate_total_size.
  repeat split.
  - intros Hcap Hviol. apply Z.ltb_lt in Hcap. rewrite Hcap.
    destruct Hviol as [->|Hgt]; [reflexivity|].
    apply Z.ltb_lt in Hgt. rewrite Hgt, orb_true_r. reflexivity.
  - intros Hgate Hcap Hviol. rewrite Hgate.
    apply Z.ltb_lt in Hcap. rewrite Hcap.
    destruct Hviol as [->|Hgt]; [reflexivity|].
    apply Z.ltb_lt in Hgt. rewrite Hgt, orb_true_r. reflexivity.
  - rewrite H. reflexivity.
  - rewrite H. cbn [Z.ltb Z.compare andb].
    destruct ((0 <? PlanMaxBackupsTotalSizeMB plan) && _); discriminate.
  - rewrite H. reflexivity.
  - rewrite H. cbn [Z.ltb Z.compare andb].
    destruct ((0 <? PlanMaxBackupSizeMB plan) && _); discriminate.
  - intros -> ->. reflexivity.
Qed.

Lemma plan_size_gates_witness :
  Validate false unlimited_config capped_plan
  = Ret (errors_New "max backup size exceeds plan limit").
Proof.
  refine (proj1 (plan_size_gates false unlimited_config capped_plan _) _ _).
  - unfold earlier_checks_pass.
    split; [left; vm_compute; discriminate|].
    split; [reflexivity|].
    split; [vm_compute; discriminate|].
    split; [right; left; reflexivity|].
    split; [discriminate|].
    split; vm_compute; discriminate.
  - reflexivity.
  - left. reflexivity.
Defined.

End ValidatorFacts.

Module GFSFacts.
Import backups_core gfs.

Section Budgets.
Variables hours days weeks months years : Z.

Abbreviation body' := (body hours days weeks months years).
Abbreviation loop' := (loop hours days weeks months years).
Abbreviation fires' c := (fires c hours days weeks months years).
Abbreviation budget c := (budget_of c hours days weeks months years).
Abbreviation inv := (gfs.inv hours days weeks months years).

Ltac split_body st b :=
  unfold body, fires, slot_fires; cbn [budget_of seen_of kept_of key_of];
  destruct ((0 <? hours) && (hoursKept st <? hours)
            && negb (map_get (hoursSeen st) (hourKey (CreatedAt b))));
  destruct ((0 <? days) && (daysKept st <? days)
            && negb (map_get (daysSeen st) (dayKey (CreatedAt b))));
  destruct ((0 <? weeks) && (weeksKept st <? weeks)
            && negb (map_get (weeksSeen st) (weekKey (CreatedAt b))));
  destruct ((0 <? months) && (monthsKept st <? months)
            && negb (map_get (monthsSeen st) (monthKey (CreatedAt b))));
  destruct ((0 <? years) && (yearsKept st <? years)
            && negb (map_get (yearsSeen st) (yearKey (CreatedAt b))));
  cbn [keep hoursSeen daysSeen weeksSeen monthsSeen yearsSeen
       hoursKept daysKept weeksKept monthsKept yearsKept orb].

Lemma body_kept c st b :
  kept_of c (body' st b) = kept_of c st + (if fires' c st b then 1 else 0).
Proof. destruct c; split_body st b; lia. Qed.

Lemma body_seen c st b :
  seen_of c (body' st b)
  = if fires' c st b then <[key_of c (CreatedAt b) := true]> (seen_of c st)
    else seen_of c st.
Proof. destruct c; split_body st b; reflexivity. Qed.

Lemma body_keep st b :
  keep (body' st b)
  = if existsb (fun c => fires' c st b) all_classes
    then <[ID b := true]> (keep st) else keep st.
Proof.
  cbn [existsb all_classes]. split_body st b;
    rewrite ?insert_insert_eq; reflexivity.
Qed.

Lemma fires_budget c st b :
  fires' c st b = true -> 0 < budget c /\ kept_of c st < budget c.
Proof.
  unfold fires, slot_fires. intros E.
  apply andb_true_iff in E as [E _]. apply andb_true_iff in E as [E1 E2].
  apply Z.ltb_lt in E1. apply Z.ltb_lt in E2. split; assumption.
Qed.

Lemma kept_total_classes st :
  kept_total st = kept_of Hourly st + kept_of Daily st + kept_of Weekly st
                  + kept_of Monthly st + kept_of Yearly st.
Proof. reflexivity. Qed.

Lemma inv_init : inv init.
Proof.
  split.
  - intros []; cbn; lia.
  - intros []; cbn [kept_of init hoursKept daysKept weeksKept monthsKept yearsKept]; lia.
  - unfold kept_total. cbn. rewrite map_size_empty. lia.
  - intros id v. cbn. rewrite lookup_empty. discriminate.
Qed.

Lemma inv_body st b : inv st -> inv (body' st b).
Proof.
  intros [Hlo Hhi Hsz Htrue]. split.
  - intros c. rewrite body_kept. specialize (Hlo c).
    destruct (fires' c st b); lia.
  - intros c. rewrite body_kept. specialize (Hhi c).
    destruct (fires' c st b) eqn:E; [|lia].
    apply fires_budget in E. lia.
  - rewrite kept_total_classes, !body_kept, body_keep.
    rewrite kept_total_classes in Hsz. cbn [existsb all_classes].
      assert (size (<[ID b := true]> (keep st)) <= S (size (keep st)))%nat as Hins.
    { destruct (keep st !! ID b) as [v|] eqn:E.
      - rewrite map_size_insert_Some by eauto. lia.
      - rewrite map_size_insert_None by assumption. lia. }
    destruct (fires' Hourly st b), (fires' Daily st b), (fires' Weekly st b),
             (fires' Monthly st b), (fires' Yearly st b); cbn [orb]; lia.
  - intros id v. rewrite body_keep.
    destruct (existsb _ _); [|apply Htrue].
    destruct (decide (ID b = id)) as [->|Hne].
    + rewrite lookup_insert_eq. congruence.
    + rewrite lookup_insert_ne by assumption. apply Htrue.
Qed.

Lemma inv_loop bs st : inv st -> inv (loop' st bs).
Proof.
  revert st. induction bs as [|b bs IH]; intros st Hst; [exact Hst|].
  apply IH. apply inv_body. exact Hst.
Qed.

(** With no positive budget, no block of the body is entered. *)
Lemma body_no_budget st b :
  hours <= 0 -> days <= 0 -> weeks <= 0 -> months <= 0 -> years <= 0 ->
  body' st b = st.
Proof.
  intros Hh Hd Hw Hm Hy. unfold body.
  apply Z.ltb_ge in Hh, Hd, Hw, Hm, Hy.
  rewrite Hh, Hd, Hw, Hm, Hy. cbn [andb]. destruct st; reflexivity.
Qed.

Lemma loop_no_budget bs st :
  hours <= 0 -> days <= 0 -> weeks <= 0 -> months <= 0 -> years <= 0 ->
  loop' st bs = st.
Proof.
  intros Hh Hd Hw Hm Hy. revert st.
  induction bs as [|b bs IH]; intros st; [reflexivity|].
  unfold loop. cbn [fold_left]. rewrite body_no_budget by assumption.
  apply IH.
Qed.

(** *** The state after each prefix of the input *)

Variable bs : list Backup.

Abbreviation at_prefix := (gfs.at_prefix hours days weeks months years bs).

Lemma at_prefix_S i a :
  bs !! i = Some a -> at_prefix (S i) = body' (at_prefix i) a.
Proof.
  intros Hi. unfold gfs.at_prefix, loop.
  rewrite (take_S_r _ _ _ Hi), fold_left_app. reflexivity.
Qed.

Lemma at_prefix_split n m :
  (n <= m)%nat -> at_prefix m = loop' (at_prefix n) (drop n (take m bs)).
Proof.
  intros Hnm. unfold gfs.at_prefix, loop.
  rewrite <- fold_left_app.
  replace (take n bs) with (take n (take m bs))
    by (rewrite take_take; f_equal; lia).
  rewrite take_drop. reflexivity.
Qed.

Lemma at_prefix_all : at_prefix (length bs) = loop' init bs.
Proof. unfold gfs.at_prefix. rewrite firstn_all. reflexivity. Qed.

Lemma fills_fires c i a :
  bs !! i = Some a ->
  (fills c bs hours days weeks months years i
   <-> fires' c (at_prefix i) a = true).
Proof.
  intros Hi. unfold fills, run.
  change (loop' init (take (S i) bs)) with (at_prefix (S i)).
  change (loop' init (take i bs)) with (at_prefix i).
  rewrite (at_prefix_S i a Hi), body_kept.
  apply lookup_lt_Some in Hi.
  destruct (fires' c (at_prefix i) a); split; intros H.
  - reflexivity.
  - split; [exact Hi | lia].
  - destruct H; lia.
  - discriminate.
Qed.

(** Counters never go down and seen keys stay seen. *)
Lemma kept_mono_loop c l st : kept_of c st <= kept_of c (loop' st l).
Proof.
  revert st. induction l as [|b l IH]; intros st; [cbn; lia|].
  unfold loop in *. cbn [fold_left]. etransitivity; [|apply IH].
  rewrite body_kept. destruct (fires' c st b); lia.
Qed.

Lemma seen_mono_body c st b k :
  map_get (seen_of c st) k = true -> map_get (seen_of c (body' st b)) k = true.
Proof.
  intros Hk. rewrite body_seen. destruct (fires' c st b); [|exact Hk].
  unfold map_get in *.
  destruct (decide (key_of c (CreatedAt b) = k)) as [->|Hne].
  - rewrite lookup_insert_eq. reflexivity.
  - rewrite lookup_insert_ne by assumption. exact Hk.
Qed.

Lemma seen_mono_loop c l st k :
  map_get (seen_of c st) k = true -> map_get (seen_of c (loop' st l)) k = true.
Proof.
  revert st. induction l as [|b l IH]; intros st Hk; [exact Hk|].
  unfold loop in *. cbn [fold_left]. apply IH. apply seen_mono_body. exact Hk.
Qed.

Lemma keep_mono_body st b id :
  map_get (keep st) id = true -> map_get (keep (body' st b)) id = true.
Proof.
  intros Hk. rewrite body_keep. destruct (existsb _ _); [|exact Hk].
  unfold map_get in *.
  destruct (decide (ID b = id)) as [->|Hne].
  - rewrite lookup_insert_eq. reflexivity.
  - rewrite lookup_insert_ne by assumption. exact Hk.
Qed.

Lemma keep_mono_loop l st id :
  map_get (keep st) id = true -> map_get (keep (loop' st l)) id = true.
Proof.
  revert st. induction l as [|b l IH]; intros st Hk; [exact Hk|].
  unfold loop in *. cbn [fold_left]. apply IH. apply keep_mono_body. exact Hk.
Qed.

(** A backup that does not fill a slot of its class leaves behind a reason
    that also stops every later backup with the same key. *)
Lemma blocked_after c st b :
  let st' := body' st b in
  budget c <= 0 \/ budget c <= kept_of c st'
  \/ map_get (seen_of c st') (key_of c (CreatedAt b)) = true.
Proof.
  cbn zeta. rewrite body_seen, body_kept.
  destruct (fires' c st b) eqn:E.
  - right; right. unfold map_get. rewrite lookup_insert_eq. reflexivity.
  - unfold fires, slot_fires in E.
    destruct (Z.ltb_spec 0 (budget c)); [|left; lia].
    destruct (Z.ltb_spec (kept_of c st) (budget c)); [|right; left; lia].
    cbn [andb] in E. apply negb_false_iff in E. right; right. exact E.
Qed.

Lemma fires_first_of_key c i j a b :
  bs !! i = Some a -> bs !! j = Some b ->
  fires' c (at_prefix i) a = true ->
  key_of c (CreatedAt b) = key_of c (CreatedAt a) ->
  (i <= j)%nat.
Proof.
  intros Hi Hj Hfire Hkey.
  destruct (Nat.le_gt_cases i j) as [|Hlt]; [assumption|exfalso].
  pose proof (blocked_after c (at_prefix j) b) as Hblock. cbn zeta in Hblock.
  rewrite <- (at_prefix_S j b Hj) in Hblock.
  rewrite (at_prefix_split (S j) i) in Hfire by lia.
  set (rest := drop (S j) (take i bs)) in *.
  pose proof (kept_mono_loop c rest (at_prefix (S j))) as Hk.
  unfold fires, slot_fires in Hfire.
  apply andb_true_iff in Hfire as [Hfire Hseen].
  apply andb_true_iff in Hfire as [Hpos Hroom].
  apply Z.ltb_lt in Hpos. apply Z.ltb_lt in Hroom.
  apply negb_true_iff in Hseen.
  destruct Hblock as [Hb | [Hb | Hb]]; [lia | lia |].
  rewrite Hkey in Hb.
  rewrite (seen_mono_loop c rest _ _ Hb) in Hseen. discriminate.
Qed.

Lemma keep_fires_body st b :
  existsb (fun c => fires' c st b) all_classes = true ->
  map_get (keep (body' st b)) (ID b) = true.
Proof.
  intros E. rewrite body_keep, E. unfold map_get.
  rewrite lookup_insert_eq. reflexivity.
Qed.

Lemma fires_kept c i a :
  bs !! i = Some a -> fires' c (at_prefix i) a = true ->
  map_get (keep (loop' init bs)) (ID a) = true.
Proof.
  intros Hi Hfire. rewrite <- at_prefix_all.
  pose proof (lookup_lt_Some _ _ _ Hi) as Hlt.
  rewrite (at_prefix_split (S i) (length bs)) by lia.
  apply keep_mono_loop. rewrite (at_prefix_S i a Hi).
  apply keep_fires_body. apply existsb_exists.
  exists c. split; [destruct c; cbn; tauto | exact Hfire].
Qed.

Lemma kept_origin n id :
  map_get (keep (at_prefix n)) id = true ->
  exists c i a, (i < n)%nat /\ bs !! i = Some a /\ ID a = id
                /\ fires' c (at_prefix i) a = true.
Proof.
  induction n as [|n IH]; intros Hk.
  - unfold gfs.at_prefix, map_get, loop in Hk.
    rewrite firstn_0 in Hk. cbn [fold_left init keep] in Hk.
    rewrite lookup_empty in Hk. discriminate.
  - destruct (bs !! n) as [a|] eqn:Hn.
    + rewrite (at_prefix_S n a Hn), body_keep in Hk.
      destruct (existsb (fun c => fires' c (at_prefix n) a) all_classes) eqn:E.
      * destruct (decide (ID a = id)) as [Heq|Hne].
        -- apply existsb_exists in E as (c & _ & Hc).
           exists c, n, a. repeat split; try assumption. lia.
        -- unfold map_get in Hk. rewrite lookup_insert_ne in Hk by assumption.
           destruct (IH Hk) as (c & i & a' & Hlt & Hi & Hid & Hf).
           exists c, i, a'. repeat split; try assumption. lia.
      * destruct (IH Hk) as (c & i & a' & Hlt & Hi & Hid & Hf).
        exists c, i, a'. repeat split; try assumption. lia.
    + assert (at_prefix (S n) = at_prefix n) as Heq.
      { unfold gfs.at_prefix. apply lookup_ge_None in Hn.
        rewrite !firstn_all2 by lia. reflexivity. }
      rewrite Heq in Hk.
      destruct (IH Hk) as (c & i & a' & Hlt & Hi & Hid & Hf).
      exists c, i, a'. repeat split; try assumption. lia.
Qed.

End Budgets.

Lemma keep_set_empty_no_budget bs hours days weeks months years :
  hours <= 0 -> days <= 0 -> weeks <= 0 -> months <= 0 -> years <= 0 ->
  buildGFSKeepSet bs hours days weeks months years = ∅.
Proof.
  intros. unfold buildGFSKeepSet, run. rewrite loop_no_budget by assumption.
  reflexivity.
Qed.

Lemma is_newest_first_head a bs :
  is_newest_first (a :: bs) = true ->
  is_newest_first bs = true /\ forall b, In b bs -> CreatedAt b <= CreatedAt a.
Proof.
  revert a. induction bs as [|b bs IH]; intros a H.
  - split; [reflexivity | intros ? []].
  - cbn [is_newest_first] in H. apply andb_true_iff in H as [Hab Hrest].
    apply Z.leb_le in Hab. split; [exact Hrest|].
    destruct (IH b Hrest) as [_ Hall].
    intros x [<-|Hx]; [exact Hab|]. specialize (Hall x Hx). lia.
Qed.

Lemma is_newest_first_correct bs :
  is_newest_first bs = true -> newest_first bs.
Proof.
  induction bs as [|x bs IH]; intros H i j a b Hij Hi Hj.
  - rewrite lookup_nil in Hi. discriminate.
  - destruct (is_newest_first_head x bs H) as [Hrest Hall].
    destruct i as [|i]; cbn in Hi.
    + injection Hi as <-. destruct j as [|j]; cbn in Hj.
      * injection Hj as <-. lia.
      * apply Hall. apply list_elem_of_In. eapply list_elem_of_lookup_2. exact Hj.
    + destruct j as [|j]; [lia|]. cbn in Hj.
      apply (IH Hrest i j a b); [lia | exact Hi | exact Hj].
Qed.

(** C4.  On a list sorted newest-first, in every slot class two backups
    that fill a slot never share a bucket key; a backup that fills a slot is
    in the keep-set and is the first, hence the newest, backup of its bucket;
    and every id in the keep-set is the id of a backup that fills the slot of
    some class and is the newest backup of that class's bucket. *)
Theorem buildGFSKeepSet_newest_per_bucket bs hours days weeks months years :
  newest_first bs ->
  (forall c i j a b,
      bs !! i = Some a -> bs !! j = Some b ->
      fills c bs hours days weeks months years i ->
      fills c bs hours days weeks months years j ->
      key_of c (CreatedAt a) = key_of c (CreatedAt b) -> i = j)
  /\ (forall c i a,
      bs !! i = Some a -> fills c bs hours days weeks months years i ->
      map_get (buildGFSKeepSet bs hours days weeks months years) (ID a) = true
      /\ forall j b, bs !! j = Some b ->
                     key_of c (CreatedAt b) = key_of c (CreatedAt a) ->
                     (i <= j)%nat /\ CreatedAt b <= CreatedAt a)
  /\ (forall id,
      map_get (buildGFSKeepSet bs hours days weeks months years) id = true ->
      exists c i a,
        bs !! i = Some a /\ ID a = id
        /\ fills c bs hours days weeks months years i
        /\ forall b, In b bs -> key_of c (CreatedAt b) = key_of c (CreatedAt a) ->
                     CreatedAt b <= CreatedAt a).
Proof.
  intros Hsorted.
  assert (forall c i a, bs !! i = Some a ->
            fills c bs hours days weeks months years i ->
            forall j b, bs !! j = Some b ->
                        key_of c (CreatedAt b) = key_of c (CreatedAt a) ->
                        (i <= j)%nat /\ CreatedAt b <= CreatedAt a) as Hnewest.
  { intros c i a Hi Hf j b Hj Hkey.
    apply (fills_fires _ _ _ _ _ bs c i a Hi) in Hf.
    pose proof (fires_first_of_key _ _ _ _ _ bs c i j a b Hi Hj Hf Hkey) as Hij.
    split; [exact Hij|]. exact (Hsorted i j a b Hij Hi Hj). }
  split; [|split].
  - intros c i j a b Hi Hj Hfi Hfj Hkey.
    destruct (Hnewest c i a Hi Hfi j b Hj (eq_sym Hkey)) as [Hij _].
    destruct (Hnewest c j b Hj Hfj i a Hi Hkey) as [Hji _]. lia.
  - intros c i a Hi Hf. split; [|exact (Hnewest c i a Hi Hf)].
    apply (fills_fires _ _ _ _ _ bs c i a Hi) in Hf.
    exact (fires_kept _ _ _ _ _ bs c i a Hi Hf).
  - intros id Hkept.
    unfold buildGFSKeepSet, run in Hkept.
    rewrite <- at_prefix_all in Hkept.
    destruct (kept_origin _ _ _ _ _ bs _ _ Hkept) as (c & i & a & _ & Hi & Hid & Hf).
    apply (fills_fires _ _ _ _ _ bs c i a Hi) in Hf.
    exists c, i, a. split; [exact Hi|]. split; [exact Hid|]. split; [exact Hf|].
    intros b Hb Hkey.
    apply list_elem_of_In, list_elem_of_lookup in Hb as [k Hk].
    exact (proj2 (Hnewest c i a Hi Hf k b Hk Hkey)).
Qed.

Lemma buildGFSKeepSet_newest_per_bucket_witness :
  exists c i a,
    additive_backups !! i = Some a /\ ID a = 12%N
    /\ fills c additive_backups 0 1 2 2 0 i
    /\ forall b, In b additive_backups ->
         key_of c (CreatedAt b) = key_of c (CreatedAt a) ->
         CreatedAt b <= CreatedAt a.
Proof.
  refine (proj2 (proj2 (buildGFSKeepSet_newest_per_bucket additive_backups
                          0 1 2 2 0 _)) 12%N _).
  - apply is_newest_first_correct. vm_compute. reflexivity.
  - vm_compute. reflexivity.
Defined.

(** C3.  For nonnegative budgets the keep-set builder fills at most
    [budget] slots of every class, so the keep map has at most
    H + D + W + M + Y entries (every entry is [true], hence the keep-set is
    exactly the map's domain); all-zero budgets, or an empty input list,
    give the empty keep-set. *)
Theorem buildGFSKeepSet_within_budget bs hours days weeks months years :
  0 <= hours -> 0 <= days -> 0 <= weeks -> 0 <= months -> 0 <= years ->
  (forall c, 0 <= kept_of c (run bs hours days weeks months years)
               <= budget_of c hours days weeks months years)
  /\ Z.of_nat (size (buildGFSKeepSet bs hours days weeks months years))
     <= hours + days + weeks + months + years
  /\ (forall id, map_get (buildGFSKeepSet bs hours days weeks months years) id = true
                 <-> id ∈ dom (buildGFSKeepSet bs hours days weeks months years))
  /\ buildGFSKeepSet bs 0 0 0 0 0 = ∅
  /\ buildGFSKeepSet [] hours days weeks months years = ∅.
Proof.
  intros Hh Hd Hw Hm Hy.
  pose proof (inv_loop hours days weeks months years bs init
                (inv_init hours days weeks months years)) as [Hlo Hhi Hsz Htrue].
  fold (run bs hours days weeks months years) in *.
  assert (forall c, kept_of c (run bs hours days weeks months years)
                    <= budget_of c hours days weeks months years) as Hle.
  { intros c. specialize (Hhi c). destruct c; cbn [budget_of] in *; lia. }
  split; [|split; [|split; [|split]]].
  - intros c. split; [apply Hlo | apply Hle].
  - unfold buildGFSKeepSet. rewrite kept_total_classes in Hsz.
    pose proof (Hle Hourly). pose proof (Hle Daily). pose proof (Hle Weekly).
    pose proof (Hle Monthly). pose proof (Hle Yearly).
    cbn [budget_of] in *. lia.
  - intros id. unfold buildGFSKeepSet, map_get. rewrite elem_of_dom.
    destruct (keep _ !! id) as [v|] eqn:E; cbn.
    + rewrite (Htrue id v E). split; [eauto | reflexivity].
    + split; [discriminate | intros [? ?]; discriminate].
  - apply keep_set_empty_no_budget; lia.
  - reflexivity.
Qed.

Lemma buildGFSKeepSet_within_budget_witness :
  Z.of_nat (size (buildGFSKeepSet additive_backups 0 1 2 2 0)) <= 0 + 1 + 2 + 2 + 0.
Proof.
  refine (proj1 (proj2 (buildGFSKeepSet_within_budget additive_backups 0 1 2 2 0
                          _ _ _ _ _))); lia.
Defined.

End GFSFacts.

Module PipelineFacts.
Import backups_core backuping.

Lemma listener_events_S from count b :
  listener_events from (S count) b
  = listener_events (S from) count b ++ [EvListener from b].
Proof. unfold listener_events. cbn [seq map rev]. reflexivity. Qed.

Lemma notify_pass ls : forall i b w,
  (forall l, In l ls -> l b = None) ->
  notify ls i b w
  = (None, {| now := now w; rows := rows w; objects := objects w;
              trace := listener_events i (length ls) b ++ trace w |}).
Proof.
  induction ls as [|l ls IH]; intros i b w Hall.
  - cbn. destruct w; reflexivity.
  - cbn [notify]. rewrite (Hall l) by (left; reflexivity).
    rewrite IH by (intros l' Hl'; apply Hall; right; exact Hl').
    cbn [length]. rewrite listener_events_S, <- app_assoc. reflexivity.
Qed.

Lemma notify_fail pre : forall l post e i b w,
  (forall l', In l' pre -> l' b = None) -> l b = Some e ->
  notify (pre ++ l :: post) i b w
  = (Some e, {| now := now w; rows := rows w; objects := objects w;
                trace := listener_events i (S (length pre)) b ++ trace w |}).
Proof.
  induction pre as [|x pre IH]; intros l post e i b w Hpre Hl.
  - cbn [app notify]. rewrite Hl. reflexivity.
  - cbn [app notify]. rewrite (Hpre x) by (left; reflexivity).
    rewrite (IH l post e) by (try assumption; intros l' Hl'; apply Hpre; right; exact Hl').
    cbn [length]. rewrite (listener_events_S i (S (length pre))), <- app_assoc.
    reflexivity.
Qed.

(** Either every listener passes or there is a first one that does not. *)
Lemma listeners_split (ls : list BackupRemoveListener) (b : Backup) :
  (forall l, In l ls -> l b = None)
  \/ exists pre l post e, ls = pre ++ l :: post
                          /\ (forall l', In l' pre -> l' b = None) /\ l b = Some e.
Proof.
  induction ls as [|x ls IH].
  - left. intros l [].
  - destruct (x b) as [e|] eqn:Hx.
    + right. exists [], x, ls, e. repeat split; [intros l' [] | exact Hx].
    + destruct IH as [Hall | (pre & l & post & e & -> & Hpre & Hl)].
      * left. intros l [<-|Hl]; [exact Hx | apply Hall; exact Hl].
      * right. exists (x :: pre), l, post, e. repeat split; [|exact Hl].
        intros l' [<-|Hl']; [exact Hx | apply Hpre; exact Hl'].
Qed.

Lemma pipeline_calls_app t1 t2 :
  pipeline_calls (t1 ++ t2) = pipeline_calls t1 ++ pipeline_calls t2.
Proof.
  induction t1 as [|e t1 IH]; [reflexivity|].
  destruct e; cbn [app pipeline_calls]; rewrite IH; reflexivity.
Qed.

Lemma pipeline_calls_listeners from count b :
  pipeline_calls (listener_events from count b) = [].
Proof.
  revert from. induction count as [|n IH]; intros from; [reflexivity|].
  rewrite listener_events_S, pipeline_calls_app, IH. reflexivity.
Qed.

Section OneCall.
Variables (c : BackupCleaner) (b : Backup) (w : World).

Let ls := backupRemoveListeners c.

Lemma DeleteBackup_listener_error pre l post e :
  ls = pre ++ l :: post -> (forall l', In l' pre -> l' b = None) ->
  l b = Some e ->
  DeleteBackup c b w
  = (Some e, {| now := now w; rows := rows w; objects := objects w;
                trace := listener_events 0 (S (length pre)) b
                         ++ EvDeleteBackup b (now w) :: trace w |}).
Proof.
  intros Hls Hpre Hl. unfold DeleteBackup. fold ls. rewrite Hls.
  rewrite (notify_fail pre l post e) by assumption. reflexivity.
Qed.

Lemma DeleteBackup_lookup_error e :
  (forall l, In l ls -> l b = None) ->
  lookup (storageService c) (StorageID b) = Err e ->
  DeleteBackup c b w
  = (Some e, {| now := now w; rows := rows w; objects := objects w;
                trace := listener_events 0 (length ls) b
                         ++ EvDeleteBackup b (now w) :: trace w |}).
Proof.
  intros Hall Hlk. unfold DeleteBackup. fold ls.
  rewrite notify_pass by assumption.
  unfold GetStorageByID. rewrite Hlk. reflexivity.
Qed.

(** With the storage at hand the two blobs are tried, failures are only
    logged, and the call ends in [DeleteByID]. *)
Lemma DeleteBackup_storage_found st :
  (forall l, In l ls -> l b = None) ->
  lookup (storageService c) (StorageID b) = Ok st ->
  exists w3,
    DeleteBackup c b w = DeleteByID (backupRepository c) (ID b) w3
    /\ rows w3 = rows w /\ now w <= now w3
    /\ objects w3 ⊆ objects w
    /\ pipeline_calls (trace w3) = (b, now w) :: pipeline_calls (trace w)
    /\ In (EvDeleteFile (storage_ID st) (FileName b)) (trace w3)
    /\ In (EvDeleteFile (storage_ID st) (FileName b +:+ ".metadata")) (trace w3).
Proof.
  intros Hall Hlk. unfold DeleteBackup. fold ls.
  rewrite notify_pass by assumption.
  unfold GetStorageByID. rewrite Hlk.
  unfold DeleteFile, logger_Error, emit.
  destruct (unavailable (storageService c) (storage_ID st) (FileName b));
    cbn [now rows objects trace];
    destruct (unavailable (storageService c) (storage_ID st)
                (FileName b +:+ ".metadata"));
    cbn [now rows objects trace];
    eexists; (split; [reflexivity|]); cbn [now rows objects trace];
    (split; [reflexivity|]); (split; [lia|]); (split; [set_solver|]);
    cbn [pipeline_calls]; rewrite pipeline_calls_app, pipeline_calls_listeners;
    (split; [reflexivity|]); cbn [In]; split; tauto.
Qed.

End OneCall.

Lemma DeleteByID_rows r id w :
  rows (snd (DeleteByID r id w))
  = match delete_error r id with
    | Some _ => rows w
    | None => List.filter (fun b => negb (N.eqb (ID b) id)) (rows w)
    end.
Proof. unfold DeleteByID. destruct (delete_error r id); reflexivity. Qed.

Lemma DeleteByID_frame r id w :
  let w' := snd (DeleteByID r id w) in
  fst (DeleteByID r id w) = delete_error r id
  /\ now w' = now w /\ objects w' = objects w
  /\ trace w' = EvDeleteByID id :: trace w.
Proof. unfold DeleteByID. destruct (delete_error r id); cbn; tauto. Qed.

(** What [DeleteBackup] leaves behind, whatever happens: the clock never
    goes back, the one new pipeline call is on [b] at the clock of the call,
    no row appears, and only rows with [b]'s id can go. *)
Lemma DeleteBackup_frame c b w :
  let w' := snd (DeleteBackup c b w) in
  now w <= now w'
  /\ pipeline_calls (trace w') = (b, now w) :: pipeline_calls (trace w)
  /\ (forall x, In x (rows w') -> In x (rows w))
  /\ (forall x, In x (rows w) -> ID x <> ID b -> In x (rows w')).
Proof.
  cbn zeta.
  destruct (listeners_split (backupRemoveListeners c) b)
    as [Hall | (pre & l & post & e & Hls & Hpre & Hl)].
  - destruct (lookup (storageService c) (StorageID b)) as [st|e] eqn:Hlk.
    + destruct (DeleteBackup_storage_found c b w st Hall Hlk)
        as (w3 & -> & Hrows & Hnow & _ & Hcalls & _).
      pose proof (DeleteByID_frame (backupRepository c) (ID b) w3)
        as (_ & Hn & _ & Ht).
      cbn zeta in Hn, Ht. rewrite Hn, Ht, DeleteByID_rows. cbn [pipeline_calls].
      rewrite Hcalls, Hrows. split; [lia|]. split; [reflexivity|].
      destruct (delete_error (backupRepository c) (ID b)).
      * split; intros; assumption.
      * split.
        -- intros x Hx. apply filter_In in Hx. tauto.
        -- intros x Hx Hne. apply filter_In. split; [exact Hx|].
           apply negb_true_iff, N.eqb_neq. exact Hne.
    + rewrite (DeleteBackup_lookup_error c b w e Hall Hlk).
      cbn [snd now rows trace].
      rewrite pipeline_calls_app, pipeline_calls_listeners.
      cbn. repeat split; try lia; intros; assumption.
  - rewrite (DeleteBackup_listener_error c b w pre l post e Hls Hpre Hl).
    cbn [snd now rows trace].
    rewrite pipeline_calls_app, pipeline_calls_listeners.
    cbn. repeat split; try lia; intros; assumption.
Qed.

Lemma DeleteBackup_success_rows c b w :
  fst (DeleteBackup c b w) = None ->
  rows (snd (DeleteBackup c b w))
  = List.filter (fun x => negb (N.eqb (ID x) (ID b))) (rows w).
Proof.
  destruct (listeners_split (backupRemoveListeners c) b)
    as [Hall | (pre & l & post & e & Hls & Hpre & Hl)].
  - destruct (lookup (storageService c) (StorageID b)) as [st|e] eqn:Hlk.
    + destruct (DeleteBackup_storage_found c b w st Hall Hlk)
        as (w3 & -> & Hrows & _).
      pose proof (DeleteByID_frame (backupRepository c) (ID b) w3) as (He & _).
      rewrite He, DeleteByID_rows, Hrows. intros ->. reflexivity.
    + rewrite (DeleteBackup_lookup_error c b w e Hall Hlk). discriminate.
  - rewrite (DeleteBackup_listener_error c b w pre l post e Hls Hpre Hl).
    discriminate.
Qed.

(** C5.  [DeleteBackup] returns an error exactly when a listener returns
    one, the storage lookup fails, or the catalog delete fails.  At the
    first failing listener the call stops with that error: the later
    listeners are not called, and rows and objects are untouched.  When the
    listeners pass and the lookup fails, its error is returned and nothing
    is touched.  When the storage is found, both blob deletions are tried,
    their failures do not show in the result, [DeleteByID] is called, and
    the result is its result: the rows with the backup's id are gone when it
    succeeds. *)
Theorem DeleteBackup_error_handling c b w :
  let ls := backupRemoveListeners c in
  let err := fst (DeleteBackup c b w) in
  let w' := snd (DeleteBackup c b w) in
  (err <> None
   <-> (exists l, In l ls /\ l b <> None)
       \/ (exists e, lookup (storageService c) (StorageID b) = Err e)
       \/ delete_error (backupRepository c) (ID b) <> None)
  /\ (forall pre l post e,
        ls = pre ++ l :: post -> (forall l', In l' pre -> l' b = None) ->
        l b = Some e ->
        err = Some e /\ rows w' = rows w /\ objects w' = objects w
        /\ trace w' = listener_events 0 (S (length pre)) b
                      ++ EvDeleteBackup b (now w) :: trace w)
  /\ ((forall l, In l ls -> l b = None) ->
      forall e, lookup (storageService c) (StorageID b) = Err e ->
        err = Some e /\ rows w' = rows w /\ objects w' = objects w)
  /\ ((forall l, In l ls -> l b = None) ->
      forall st, lookup (storageService c) (StorageID b) = Ok st ->
        err = delete_error (backupRepository c) (ID b)
        /\ In (EvDeleteFile (storage_ID st) (FileName b)) (trace w')
        /\ In (EvDeleteFile (storage_ID st) (FileName b +:+ ".metadata")) (trace w')
        /\ In (EvDeleteByID (ID b)) (trace w')
        /\ rows w' = match delete_error (backupRepository c) (ID b) with
                     | Some _ => rows w
                     | None => List.filter (fun x => negb (N.eqb (ID x) (ID b)))
                                 (rows w)
                     end).
Proof.
  cbn zeta.
  assert (forall st, (forall l, In l (backupRemoveListeners c) -> l b = None) ->
            lookup (storageService c) (StorageID b) = Ok st ->
            fst (DeleteBackup c b w) = delete_error (backupRepository c) (ID b)
            /\ In (EvDeleteFile (storage_ID st) (FileName b))
                 (trace (snd (DeleteBackup c b w)))
            /\ In (EvDeleteFile (storage_ID st) (FileName b +:+ ".metadata"))
                 (trace (snd (DeleteBackup c b w)))
            /\ In (EvDeleteByID (ID b)) (trace (snd (DeleteBackup c b w)))
            /\ rows (snd (DeleteBackup c b w))
               = match delete_error (backupRepository c) (ID b) with
                 | Some _ => rows w
                 | None => List.filter (fun x => negb (N.eqb (ID x) (ID b))) (rows w)
                 end) as Hfound.
  { intros st Hall Hlk.
    destruct (DeleteBackup_storage_found c b w st Hall Hlk)
      as (w3 & -> & Hrows & _ & _ & _ & Hf1 & Hf2).
    pose proof (DeleteByID_frame (backupRepository c) (ID b) w3)
      as (He & _ & _ & Ht). cbn zeta in Ht.
    rewrite He, Ht, DeleteByID_rows, Hrows. cbn [In].
    repeat split; tauto. }
  split; [|split; [|split]].
  - destruct (listeners_split (backupRemoveListeners c) b)
      as [Hall | (pre & l & post & e & Hls & Hpre & Hl)].
    + destruct (lookup (storageService c) (StorageID b)) as [st|e] eqn:Hlk.
      * destruct (Hfound st Hall eq_refl) as (-> & _). split.
        -- intros H. right; right. exact H.
        -- intros [(l & Hin & Hl) | [(e & He) | H]];
             [rewrite (Hall l Hin) in Hl; congruence | discriminate | exact H].
      * rewrite (DeleteBackup_lookup_error c b w e Hall Hlk). cbn [fst].
        split; [intros _; right; left; eauto | discriminate].
    + rewrite (DeleteBackup_listener_error c b w pre l post e Hls Hpre Hl).
      cbn [fst]. split; [|discriminate].
      intros _. left. exists l. split; [|congruence].
      rewrite Hls. apply in_or_app. right. left. reflexivity.
  - intros pre l post e Hls Hpre Hl.
    rewrite (DeleteBackup_listener_error c b w pre l post e Hls Hpre Hl).
    cbn. tauto.
  - intros Hall e Hlk. rewrite (DeleteBackup_lookup_error c b w e Hall Hlk).
    cbn. tauto.
  - intros Hall st Hlk. exact (Hfound st Hall Hlk).
Qed.

Lemma DeleteBackup_error_handling_witness :
  fst (DeleteBackup strict_cleaner old_backup_1 crowded_world)
  = Some "backup is pinned"
  /\ rows (snd (DeleteBackup strict_cleaner old_backup_1 crowded_world))
     = rows crowded_world
  /\ objects (snd (DeleteBackup strict_cleaner old_backup_1 crowded_world))
     = objects crowded_world
  /\ trace (snd (DeleteBackup strict_cleaner old_backup_1 crowded_world))
     = listener_events 0 2 old_backup_1
       ++ EvDeleteBackup old_backup_1 (now crowded_world) :: trace crowded_world.
Proof.
  refine (proj1 (proj2 (DeleteBackup_error_handling strict_cleaner old_backup_1
                          crowded_world))
            [fun _ => None]
            (fun b => if N.odd (ID b) then Some "backup is pinned" else None)
            [fun _ => None] "backup is pinned" _ _ _).
  - reflexivity.
  - intros l' [<-|[]]. reflexivity.
  - reflexivity.
Defined.

End PipelineFacts.

Module CleanerFacts.
Import backups_core backuping PipelineFacts.

Lemma Backup_eq_dec (x y : Backup) : {x = y} + {x <> y}.
Proof.
  assert (forall a b : Q, {a = b} + {a <> b}) as Qdec
    by (decide equality; [apply Pos.eq_dec | apply Z.eq_dec]).
  assert (forall a b : BackupStatus, {a = b} + {a <> b}) as Sdec
    by decide equality.
  destruct x as [i1 d1 s1 st1 sz1 t1 f1], y as [i2 d2 s2 st2 sz2 t2 f2].
  destruct (N.eq_dec i1 i2); [|right; congruence].
  destruct (N.eq_dec d1 d2); [|right; congruence].
  destruct (N.eq_dec s1 s2); [|right; congruence].
  destruct (Sdec st1 st2); [|right; congruence].
  destruct (Qdec sz1 sz2); [|right; congruence].
  destruct (Z.eq_dec t1 t2); [|right; congruence].
  destruct (String.string_dec f1 f2); [|right; congruence].
  left. congruence.
Qed.

(** Outside the grace window on the saturating clock difference means
    outside it on the exact one. *)
Lemma not_recent_old w b :
  isRecentBackup w b = false ->
  recentBackupGracePeriod <= now w - CreatedAt b.
Proof.
  unfold isRecentBackup, gotime.Sub. intros H. apply Z.ltb_ge in H.
  assert (0 < recentBackupGracePeriod) by (vm_compute; reflexivity).
  assert (gotime.minDuration < 0) by (vm_compute; reflexivity).
  destruct (Z.ltb_spec (now w - CreatedAt b) gotime.minDuration); [lia|].
  destruct (Z.ltb_spec gotime.maxDuration (now w - CreatedAt b)); lia.
Qed.

Lemma recent_young w b :
  isRecentBackup w b = true ->
  now w - CreatedAt b < recentBackupGracePeriod.
Proof.
  unfold isRecentBackup, gotime.Sub. intros H. apply Z.ltb_lt in H.
  assert (recentBackupGracePeriod < gotime.maxDuration) by (vm_compute; reflexivity).
  destruct (Z.ltb_spec (now w - CreatedAt b) gotime.minDuration); [lia|].
  destruct (Z.ltb_spec gotime.maxDuration (now w - CreatedAt b)); lia.
Qed.

Section Steps.
Variable P : Backup -> Prop.

Lemma safe_refl w : safe_step P w w [].
Proof.
  split; try tauto; try lia; try reflexivity.
  intros b at_ [].
Qed.

Lemma safe_trans w1 w2 w3 new1 new2 :
  safe_step P w1 w2 new1 -> safe_step P w2 w3 new2 ->
  safe_step P w1 w3 (new2 ++ new1).
Proof.
  intros [Hn1 Hr1 Hc1 Hg1 Hx1] [Hn2 Hr2 Hc2 Hg2 Hx2]. split.
  - lia.
  - auto.
  - rewrite Hc2, Hc1, app_assoc. reflexivity.
  - intros b at_ Hin. apply in_app_or in Hin as [Hin|Hin].
    + destruct (Hg2 b at_ Hin) as (Hb & HP & Hat & Hgr).
      repeat split; auto. lia.
    + apply Hg1. exact Hin.
  - intros x Hx Hgone.
    destruct (in_dec Backup_eq_dec x (rows w2)) as [Hmid|Hmid].
    + destruct (Hx2 x Hmid Hgone) as (b & at_ & Hin & Hid).
      exists b, at_. split; [apply in_or_app; left; exact Hin | exact Hid].
    + destruct (Hx1 x Hx Hmid) as (b & at_ & Hin & Hid).
      exists b, at_. split; [apply in_or_app; right; exact Hin | exact Hid].
Qed.

Lemma safe_log w0 w new level msg :
  safe_step P w0 w new -> safe_step P w0 (emit (EvLog level msg) w) new.
Proof. intros [Hn Hr Hc Hg Hx]. split; cbn; auto. Qed.

Lemma safe_delete c w0 w new b :
  safe_step P w0 w new -> In b (rows w0) -> P b ->
  isRecentBackup w b = false ->
  safe_step P w0 (snd (DeleteBackup c b w)) ((b, now w) :: new).
Proof.
  intros [Hn Hr Hc Hg Hx] Hb HP Hold.
  pose proof (DeleteBackup_frame c b w) as (Hnow & Hcalls & Hsub & Hkeep).
  cbn zeta in *. split.
  - lia.
  - auto.
  - rewrite Hcalls, Hc. reflexivity.
  - intros b' at_ [E|Hin].
    + injection E as <- <-. repeat split; auto.
      apply not_recent_old. exact Hold.
    + apply Hg. exact Hin.
  - intros x Hx0 Hgone.
    destruct (in_dec Backup_eq_dec x (rows w)) as [Hmid|Hmid].
    + exists b, (now w). split; [left; reflexivity|].
      destruct (N.eq_dec (ID x) (ID b)) as [E|E]; [symmetry; exact E|].
      exfalso. apply Hgone. apply Hkeep; assumption.
    + destruct (Hx x Hx0 Hmid) as (b' & at_ & Hin & Hid).
      exists b', at_. split; [right; exact Hin | exact Hid].
Qed.

(** The three retention loops and the size loop share this step: skip
    when [skip] says so or the backup is recent, else call the pipeline
    and log the outcome. *)
Lemma safe_loop c (skip : Backup -> bool) errMsg infoMsg w0 :
  forall (l : list Backup) w new,
    safe_step P w0 w new ->
    (forall b, In b l -> skip b = false -> In b (rows w0) /\ P b) ->
    exists new',
      safe_step P w0
        (fold_left (fun w backup =>
           if skip backup then w
           else if isRecentBackup w backup then w
           else match DeleteBackup c backup w with
                | (Some _, w') => logger_Error errMsg w'
                | (None, w') => logger_Info infoMsg w'
                end) l w) new'.
Proof.
  induction l as [|b l IH]; intros w new Hw Hl.
  - exists new. exact Hw.
  - cbn [fold_left].
    assert (forall b', In b' l -> skip b' = false -> In b' (rows w0) /\ P b')
      as Hl' by (intros b' Hb'; apply Hl; right; exact Hb').
    destruct (skip b) eqn:Hskip; [apply (IH w new Hw Hl')|].
    destruct (isRecentBackup w b) eqn:Hrec; [apply (IH w new Hw Hl')|].
    destruct (Hl b (or_introl eq_refl) Hskip) as [Hb HP].
    pose proof (safe_delete c w0 w new b Hw Hb HP Hrec) as Hd.
    destruct (DeleteBackup c b w) as [[e|] w'] eqn:E; cbn [snd] in Hd.
    + apply (IH _ ((b, now w) :: new)); [|exact Hl'].
      apply safe_log. exact Hd.
    + apply (IH _ ((b, now w) :: new)); [|exact Hl'].
      apply safe_log. exact Hd.
Qed.

Lemma safe_weaken (Q : Backup -> Prop) w w' new :
  (forall b, P b -> Q b) -> safe_step P w w' new -> safe_step Q w w' new.
Proof.
  intros HPQ [Hn Hr Hc Hg Hx]. split; auto.
  intros b at_ Hin. destruct (Hg b at_ Hin) as (? & ? & ? & ?). auto.
Qed.

End Steps.

(** *** What the catalog queries return *)

Lemma In_insert_by le x y l : In y (insert_by le x l) <-> y = x \/ In y l.
Proof.
  induction l as [|z l IH]; cbn [insert_by].
  - cbn. intuition.
  - destruct (le x z); cbn [In]; [intuition|]. rewrite IH. intuition.
Qed.

Lemma In_sort_by le y l : In y (sort_by le l) <-> In y l.
Proof.
  induction l as [|x l IH]; [reflexivity|].
  unfold sort_by in *. cbn [fold_right]. rewrite In_insert_by, IH.
  cbn [In]. intuition.
Qed.

Lemma In_take {A} (x : A) n l : In x (take n l) -> In x l.
Proof.
  revert l. induction n as [|n IH]; intros [|y l]; cbn; try tauto.
  intros [->|H]; [left; reflexivity | right; apply IH; exact H].
Qed.

Lemma In_drop {A} (x : A) n l : In x (drop n l) -> In x l.
Proof.
  revert l. induction n as [|n IH]; intros [|y l]; cbn; try tauto.
  intros H. right. apply IH. exact H.
Qed.

Lemma FindBackupsBeforeDate_In r db date w l b :
  FindBackupsBeforeDate r db date w = Ok l -> In b l ->
  In b (rows w) /\ DatabaseID b = db /\ CreatedAt b < date.
Proof.
  unfold FindBackupsBeforeDate. destruct (query_error r db); [discriminate|].
  intros E Hb. injection E as <-.
  apply In_sort_by, filter_In in Hb as [Hb Hc].
  apply andb_true_iff in Hc as [Hdb Hlt].
  apply N.eqb_eq in Hdb. apply Z.ltb_lt in Hlt. auto.
Qed.

Lemma BackupStatus_eqb_eq a b : BackupStatus_eqb a b = true <-> a = b.
Proof. destruct a, b; cbn; split; intros; congruence. Qed.

Lemma FindByDatabaseIdAndStatus_In r db st w l b :
  FindByDatabaseIdAndStatus r db st w = Ok l -> In b l ->
  In b (rows w) /\ DatabaseID b = db /\ Status b = st.
Proof.
  unfold FindByDatabaseIdAndStatus. destruct (query_error r db); [discriminate|].
  intros E Hb. injection E as <-.
  apply In_sort_by, filter_In in Hb as [Hb Hc].
  apply andb_true_iff in Hc as [Hdb Hst].
  apply N.eqb_eq in Hdb. apply BackupStatus_eqb_eq in Hst. auto.
Qed.

Lemma FindOldest_In r db n w l b :
  FindOldestByDatabaseExcludingInProgress r db n w = Ok l -> In b l ->
  In b (rows w) /\ DatabaseID b = db /\ Status b <> BackupStatusInProgress.
Proof.
  unfold FindOldestByDatabaseExcludingInProgress.
  destruct (query_error r db); [discriminate|].
  intros E Hb. injection E as <-.
  apply In_take, In_sort_by, filter_In in Hb as [Hb Hc].
  apply andb_true_iff in Hc as [Hdb Hst].
  apply N.eqb_eq in Hdb. apply negb_true_iff in Hst.
  repeat split; auto. intros E. rewrite E in Hst. discriminate.
Qed.

(** *** The four cleaning passes *)

Section Passes.
Variable c : BackupCleaner.

Abbreviation retention_step := (backuping.retention_step c).
Abbreviation size_step := (backuping.size_step c).

Lemma cleanByTimePeriod_safe cfg w e w' :
  cleanByTimePeriod c cfg w = Ret (e, w') ->
  exists new, safe_step any_backup w w' new.
Proof.
  unfold cleanByTimePeriod.
  destruct (String.eqb _ ""); [intros E; injection E as <- <-; eexists; apply safe_refl|].
  destruct (String.eqb _ period.PeriodForever);
    [intros E; injection E as <- <-; eexists; apply safe_refl|].
  destruct (period.ToDuration _) as [d|m]; cbn [obind]; [|discriminate].
  destruct (FindBackupsBeforeDate _ _ _ w) as [l|err] eqn:Hq;
    intros E; injection E as <- <-; [|eexists; apply safe_refl].
  apply (safe_loop any_backup c (fun _ => false) _ _ w l w [] (safe_refl _ w)).
  intros b Hb _. split; [|exact I].
  exact (proj1 (FindBackupsBeforeDate_In _ _ _ _ _ _ Hq Hb)).
Qed.

Lemma cleanByCount_safe cfg w :
  exists new, safe_step completed w (snd (cleanByCount c cfg w)) new.
Proof.
  unfold cleanByCount.
  destruct (_ <=? 0); [eexists; apply safe_refl|].
  destruct (FindByDatabaseIdAndStatus _ _ _ w) as [l|err] eqn:Hq;
    [|eexists; apply safe_refl].
  destruct (_ <=? _); [eexists; apply safe_refl|]. cbn [snd].
  apply (safe_loop completed c (fun _ => false) _ _ w _ w [] (safe_refl _ w)).
  intros b Hb _. apply In_drop in Hb.
  destruct (FindByDatabaseIdAndStatus_In _ _ _ _ _ _ Hq Hb) as (? & _ & ?).
  split; assumption.
Qed.

Lemma cleanByGFS_safe cfg w :
  exists new, safe_step completed w (snd (cleanByGFS c cfg w)) new.
Proof.
  unfold cleanByGFS.
  destruct (_ && _); [eexists; apply safe_refl|].
  destruct (FindByDatabaseIdAndStatus _ _ _ w) as [l|err] eqn:Hq;
    [|eexists; apply safe_refl].
  cbn [snd].
  apply (safe_loop completed c
           (fun b => gfs.map_get (gfs.buildGFSKeepSet l _ _ _ _ _) (ID b))
           _ _ w l w [] (safe_refl _ w)).
  intros b Hb _.
  destruct (FindByDatabaseIdAndStatus_In _ _ _ _ _ _ Hq Hb) as (? & _ & ?).
  split; assumption.
Qed.

Lemma sizeLoop_safe db limit fuel : forall w e w',
  sizeLoop c db limit fuel w = Some (e, w') ->
  exists new, safe_step not_in_progress w w' new.
Proof.
  induction fuel as [|fuel IH]; intros w e w'; [discriminate|].
  cbn [sizeLoop].
  destruct (GetTotalSizeByDatabase _ db w) as [total|err];
    [|intros E; injection E as <- <-; eexists; apply safe_refl].
  destruct (Qle_bool total _);
    [intros E; injection E as <- <-; eexists; apply safe_refl|].
  destruct (FindOldestByDatabaseExcludingInProgress _ db 1 w) as [[|b l]|err] eqn:Hq.
  - intros E; injection E as <- <-. eexists. apply safe_log, safe_refl.
  - destruct (isRecentBackup w b) eqn:Hrec.
    + intros E; injection E as <- <-. eexists. apply safe_log, safe_refl.
    + destruct (FindOldest_In _ _ _ _ _ b Hq (or_introl eq_refl)) as (Hb & _ & Hst).
      pose proof (safe_delete not_in_progress c w w [] b (safe_refl _ w) Hb Hst Hrec)
        as Hd.
      destruct (DeleteBackup c b w) as [[err|] w1]; cbn [snd] in Hd.
      * intros E; injection E as <- <-. eexists. apply safe_log. exact Hd.
      * intros E. destruct (IH _ _ _ E) as [new Hnew].
        eexists. eapply safe_trans; [|exact Hnew].
        apply safe_log with (w0 := w). exact Hd.
  - intros E; injection E as <- <-. eexists. apply safe_refl.
Qed.

Lemma filter_length_lt {A} (f : A -> bool) (l : list A) (x : A) :
  In x l -> f x = false -> (length (List.filter f l) < length l)%nat.
Proof.
  induction l as [|y l IH]; intros Hin Hf; [destruct Hin|].
  cbn [List.filter length].
  pose proof (filter_length_le f l) as Hle.
  destruct Hin as [->|Hin].
  - rewrite Hf. lia.
  - specialize (IH Hin Hf). destruct (f y); cbn [length]; lia.
Qed.

Lemma DeleteBackup_success_shrinks b w :
  In b (rows w) -> fst (DeleteBackup c b w) = None ->
  ~ In b (rows (snd (DeleteBackup c b w)))
  /\ (length (rows (snd (DeleteBackup c b w))) < length (rows w))%nat.
Proof.
  intros Hb Hok. rewrite (DeleteBackup_success_rows c b w Hok). split.
  - intros Hin. apply filter_In in Hin as [_ Hne].
    rewrite N.eqb_refl in Hne. discriminate.
  - apply (filter_length_lt _ _ b Hb). rewrite N.eqb_refl. reflexivity.
Qed.

Lemma sizeLoop_total db limit fuel : forall w,
  (length (rows w) < fuel)%nat ->
  exists r, sizeLoop c db limit fuel w = Some r.
Proof.
  induction fuel as [|fuel IH]; intros w Hfuel; [lia|].
  cbn [sizeLoop].
  destruct (GetTotalSizeByDatabase _ db w) as [total|err]; [|eauto].
  destruct (Qle_bool total _); [eauto|].
  destruct (FindOldestByDatabaseExcludingInProgress _ db 1 w)
    as [[|b l]|err] eqn:Hq; [eauto| |eauto].
  destruct (isRecentBackup w b); [eauto|].
  destruct (FindOldest_In _ _ _ _ _ b Hq (or_introl eq_refl)) as (Hb & _).
  pose proof (DeleteBackup_success_shrinks b w Hb) as Hshrink.
  destruct (DeleteBackup c b w) as [[err|] w1]; [eauto|].
  destruct (Hshrink eq_refl) as [_ Hlen]. cbn [snd] in Hlen.
  apply IH. cbn. lia.
Qed.



Lemma settled_log db limit level msg w :
  settled c db limit w -> settled c db limit (emit (EvLog level msg) w).
Proof. intros H. exact H. Qed.




Lemma cleanExceededBackupsForDatabase_safe db limit w e w' :
  cleanExceededBackupsForDatabase c db limit w = Some (e, w') ->
  exists new, safe_step not_in_progress w w' new.
Proof. apply sizeLoop_safe. Qed.

Lemma retention_step_safe w0 w new cfg w' :
  safe_step any_backup w0 w new ->
  retention_step (Ret w) cfg = Ret w' ->
  exists new', safe_step any_backup w0 w' new'.
Proof.
  intros Hw. unfold backuping.retention_step. cbn [obind].
  assert (forall r : error * World,
            (exists n, safe_step any_backup w (snd r) n) ->
            match r with
            | (Some _, w1) =>
              Ret (logger_Error "Failed to clean backups by retention policy" w1)
            | (None, w1) => Ret w1
            end = Ret w' ->
            exists new', safe_step any_backup w0 w' new') as Hfin.
  { intros [[e|] w1] [n Hn] E; cbn [snd] in Hn; injection E as <-;
      eexists; [apply safe_log|]; eapply safe_trans; eassumption. }
  destruct (String.eqb _ backups_config.RetentionPolicyTypeCount).
  { cbn [obind]. apply Hfin.
    destruct (cleanByCount_safe cfg w) as [n Hn]. exists n.
    eapply safe_weaken; [|exact Hn]. intros; exact I. }
  destruct (String.eqb _ backups_config.RetentionPolicyTypeGFS).
  { cbn [obind]. apply Hfin.
    destruct (cleanByGFS_safe cfg w) as [n Hn]. exists n.
    eapply safe_weaken; [|exact Hn]. intros; exact I. }
  destruct (cleanByTimePeriod c cfg w) as [[e w1]|m] eqn:E; cbn [obind];
    [|discriminate].
  apply (Hfin (e, w1)). cbn [snd]. exact (cleanByTimePeriod_safe cfg w e w1 E).
Qed.

Lemma retention_fold_panic cfgs m :
  fold_left retention_step cfgs (Panic m) = Panic m.
Proof. induction cfgs as [|cfg cfgs IH]; [reflexivity | exact IH]. Qed.

Lemma retention_fold_safe w0 cfgs : forall w new w',
  safe_step any_backup w0 w new ->
  fold_left retention_step cfgs (Ret w) = Ret w' ->
  exists new', safe_step any_backup w0 w' new'.
Proof.
  induction cfgs as [|cfg cfgs IH]; intros w new w' Hw E.
  - injection E as <-. eauto.
  - cbn [fold_left] in E.
    destruct (retention_step (Ret w) cfg) as [w1|m] eqn:E1.
    + destruct (retention_step_safe w0 w new cfg w1 Hw E1) as [new1 H1].
      exact (IH w1 new1 w' H1 E).
    + rewrite retention_fold_panic in E. discriminate.
Qed.

Lemma cleanByRetentionPolicy_safe w e w' :
  cleanByRetentionPolicy c w = Ret (e, w') ->
  exists new, safe_step any_backup w w' new.
Proof.
  unfold cleanByRetentionPolicy.
  destruct (GetBackupConfigsWithEnabledBackups _) as [cfgs|err];
    [|intros E; injection E as <- <-; eexists; apply safe_refl].
  destruct (fold_left retention_step cfgs (Ret w)) as [w1|m] eqn:E1;
    cbn [obind]; [|discriminate].
  intros E; injection E as <- <-.
  exact (retention_fold_safe w cfgs w [] w1 (safe_refl _ w) E1).
Qed.

Lemma size_step_safe w0 w new cfg w' :
  safe_step not_in_progress w0 w new ->
  size_step (Some w) cfg = Some w' ->
  exists new', safe_step not_in_progress w0 w' new'.
Proof.
  intros Hw. unfold backuping.size_step.
  destruct (_ <=? 0); [intros E; injection E as <-; eauto|].
  destruct (cleanExceededBackupsForDatabase c _ _ w) as [[[e|] w1]|] eqn:E1;
    [| |discriminate];
    destruct (cleanExceededBackupsForDatabase_safe _ _ _ _ _ E1) as [n Hn];
    intros E; injection E as <-; eexists;
    [apply safe_log|]; eapply safe_trans; eassumption.
Qed.

Lemma size_fold_none cfgs : fold_left size_step cfgs None = None.
Proof. induction cfgs as [|cfg cfgs IH]; [reflexivity | exact IH]. Qed.

Lemma size_fold_safe w0 cfgs : forall w new w',
  safe_step not_in_progress w0 w new ->
  fold_left size_step cfgs (Some w) = Some w' ->
  exists new', safe_step not_in_progress w0 w' new'.
Proof.
  induction cfgs as [|cfg cfgs IH]; intros w new w' Hw E.
  - injection E as <-. eauto.
  - cbn [fold_left] in E.
    destruct (size_step (Some w) cfg) as [w1|] eqn:E1.
    + destruct (size_step_safe w0 w new cfg w1 Hw E1) as [new1 H1].
      exact (IH w1 new1 w' H1 E).
    + rewrite size_fold_none in E. discriminate.
Qed.

Lemma cleanExceededBackups_safe w e w' :
  cleanExceededBackups c w = Some (e, w') ->
  exists new, safe_step not_in_progress w w' new.
Proof.
  unfold cleanExceededBackups.
  destruct (GetBackupConfigsWithEnabledBackups _) as [cfgs|err];
    [|intros E; injection E as <- <-; eexists; apply safe_refl].
  destruct (fold_left size_step cfgs (Some w)) as [w1|] eqn:E1; [|discriminate].
  intros E; injection E as <- <-.
  exact (size_fold_safe w cfgs w [] w1 (safe_refl _ w) E1).
Qed.

Lemma tick_safe w w' :
  tick c w = Some (Ret w') -> exists new, safe_step any_backup w w' new.
Proof.
  unfold tick.
  destruct (cleanByRetentionPolicy c w) as [[e1 w1]|m] eqn:E1; [|discriminate].
  destruct (cleanByRetentionPolicy_safe w e1 w1 E1) as [n1 H1].
  set (w1' := match e1 with
              | Some _ => logger_Error "Failed to clean backups by retention policy" w1
              | None => w1 end).
  assert (safe_step any_backup w w1' n1) as H1'
    by (subst w1'; destruct e1; [apply safe_log|]; exact H1).
  destruct (cleanExceededBackups c w1') as [[e2 w2]|] eqn:E2; [|discriminate].
  destruct (cleanExceededBackups_safe w1' e2 w2 E2) as [n2 H2].
  apply (safe_weaken _ any_backup) in H2; [|intros; exact I].
  intros E; injection E as <-.
  exists (n2 ++ n1). destruct e2; [apply safe_log|]; eapply safe_trans; eassumption.
Qed.

Lemma size_fold_total cfgs : forall w,
  exists w', fold_left size_step cfgs (Some w) = Some w'.
Proof.
  induction cfgs as [|cfg cfgs IH]; intros w; [eauto|].
  cbn [fold_left]. unfold backuping.size_step at 2.
  destruct (_ <=? 0); [apply IH|].
  destruct (sizeLoop_total (backups_config.DatabaseID cfg)
              (backups_config.MaxBackupsTotalSizeMB cfg)
              (S (length (rows w))) w) as [[[e|] w1] Hr]; [lia| |];
    unfold cleanExceededBackupsForDatabase; rewrite Hr; apply IH.
Qed.

Lemma tick_total w : exists r, tick c w = Some r.
Proof.
  unfold tick.
  destruct (cleanByRetentionPolicy c w) as [[e1 w1]|m]; [|eauto].
  unfold cleanExceededBackups.
  destruct (GetBackupConfigsWithEnabledBackups _) as [cfgs|err]; [|eauto].
  match goal with
  | |- context [fold_left size_step cfgs (Some ?w0)] =>
    destruct (size_fold_total cfgs w0) as [w2 ->]
  end.
  eauto.
Qed.

End Passes.

Lemma unique_id_row (l : list Backup) x y :
  List.NoDup (map ID l) -> In x l -> In y l -> ID x = ID y -> x = y.
Proof.
  induction l as [|z l IH]; intros Hnd Hx Hy Hid; [destruct Hx|].
  cbn [map] in Hnd. apply NoDup_cons_iff in Hnd as [Hz Hnd].
  destruct Hx as [<-|Hx], Hy as [<-|Hy].
  - reflexivity.
  - exfalso. apply Hz. rewrite Hid. apply in_map. exact Hy.
  - exfalso. apply Hz. rewrite <- Hid. apply in_map. exact Hx.
  - apply IH; assumption.
Qed.

(** C1.  A tick always completes, and when it returns normally every call
    it made to the deletion pipeline was on a backup that, on the clock of
    the call, was at least 60 minutes old; with unique backup ids every row
    that is gone after the tick went through such a call.  The same guard
    holds for each of the three retention passes and for the size pass on
    their own. *)
Theorem grace_guard (c : BackupCleaner) (w : World) :
  (exists r, tick c w = Some r)
  /\ (forall w', tick c w = Some (Ret w') ->
      exists new,
        pipeline_calls (trace w') = new ++ pipeline_calls (trace w)
        /\ (forall b at_, In (b, at_) new ->
              now w <= at_ /\ 60 * gotime.Minute <= at_ - CreatedAt b)
        /\ (List.NoDup (map ID (rows w)) ->
            forall x, In x (rows w) -> ~ In x (rows w') ->
              exists at_, In (x, at_) new))
  /\ (forall cfg e w', cleanByTimePeriod c cfg w = Ret (e, w') ->
        exists new, safe_step any_backup w w' new)
  /\ (forall cfg, exists new,
        safe_step any_backup w (snd (cleanByCount c cfg w)) new)
  /\ (forall cfg, exists new,
        safe_step any_backup w (snd (cleanByGFS c cfg w)) new)
  /\ (forall db limit e w', cleanExceededBackupsForDatabase c db limit w = Some (e, w') ->
        exists new, safe_step any_backup w w' new).
Proof.
  split; [apply tick_total|]. split; [|split; [|split; [|split]]].
  - intros w' Ht. destruct (tick_safe c w w' Ht) as [new [Hn Hr Hc Hg Hx]].
    exists new. split; [exact Hc|]. split.
    + intros b at_ Hin. destruct (Hg b at_ Hin) as (_ & _ & Hat & Hgr). auto.
    + intros Hnd x Hin Hgone.
      destruct (Hx x Hin Hgone) as (b & at_ & Hb & Hid).
      destruct (Hg b at_ Hb) as (Hrow & _).
      rewrite (unique_id_row (rows w) b x Hnd Hrow Hin Hid) in Hb. eauto.
  - intros cfg e w'. apply cleanByTimePeriod_safe.
  - intros cfg. destruct (cleanByCount_safe c cfg w) as [new H].
    exists new. eapply safe_weaken; [|exact H]. intros; exact I.
  - intros cfg. destruct (cleanByGFS_safe c cfg w) as [new H].
    exists new. eapply safe_weaken; [|exact H]. intros; exact I.
  - intros db limit e w' E.
    destruct (cleanExceededBackupsForDatabase_safe c db limit w e w' E) as [new H].
    exists new. eapply safe_weaken; [|exact H]. intros; exact I.
Qed.

Lemma grace_guard_witness :
  match tick (healthy_cleaner [capped_config]) crowded_world with
  | Some (Ret w') =>
    exists new,
      pipeline_calls (trace w') = new ++ pipeline_calls (trace crowded_world)
      /\ (forall b at_, In (b, at_) new ->
            now crowded_world <= at_ /\ 60 * gotime.Minute <= at_ - CreatedAt b)
      /\ (List.NoDup (map ID (rows crowded_world)) ->
          forall x, In x (rows crowded_world) -> ~ In x (rows w') ->
            exists at_, In (x, at_) new)
  | _ => False
  end.
Proof.
  pose proof (proj1 (proj2 (grace_guard (healthy_cleaner [capped_config])
                              crowded_world))) as H.
  destruct (tick (healthy_cleaner [capped_config]) crowded_world)
    as [[w'|m]|] eqn:E.
  - apply H. reflexivity.
  - vm_compute in E. discriminate E.
  - vm_compute in E. discriminate E.
Defined.

(** C2 (what the code does).  With a retention period of one day, a tick
    hands a backup that has been IN_PROGRESS for two days to the deletion
    pipeline and its row is gone afterwards; the completed backup of half an
    hour ago stays. *)
Theorem time_period_deletes_in_progress :
  Status stuck_backup = BackupStatusInProgress
  /\ In stuck_backup (rows stuck_world)
  /\ match tick (healthy_cleaner [day_config]) stuck_world with
     | Some (Ret w') =>
       rows w' = [fresh_backup]
       /\ pipeline_calls (trace w') = [(stuck_backup, now stuck_world)]
     | _ => False
     end.
Proof.
  split; [reflexivity|]. split; [left; reflexivity|].
  vm_compute. split; reflexivity.
Qed.

(** The count pass, the GFS pass and the size pass never hand an
    IN_PROGRESS backup to the pipeline. *)
Lemma other_passes_spare_in_progress (c : BackupCleaner) (w : World) :
  (forall cfg, exists new,
      safe_step not_in_progress w (snd (cleanByCount c cfg w)) new)
  /\ (forall cfg, exists new,
      safe_step not_in_progress w (snd (cleanByGFS c cfg w)) new)
  /\ (forall e w', cleanExceededBackups c w = Some (e, w') ->
      exists new, safe_step not_in_progress w w' new).
Proof.
  assert (forall b, completed b -> not_in_progress b) as Hweak
    by (unfold completed, not_in_progress; intros b ->; discriminate).
  split; [|split].
  - intros cfg. destruct (cleanByCount_safe c cfg w) as [new H].
    exists new. eapply safe_weaken; [exact Hweak | exact H].
  - intros cfg. destruct (cleanByGFS_safe c cfg w) as [new H].
    exists new. eapply safe_weaken; [exact Hweak | exact H].
  - apply cleanExceededBackups_safe.
Qed.

(** *** Size enforcement *)


(** Beyond [2^53] the conversion gives a number with a significand of 53
    bits, at most half a unit of its last place from the integer, and with an
    even significand when exactly half a unit away. *)
Lemma float64_near n :
  2 ^ 53 < Z.abs n ->
  exists m,
    gonum.float64 n = inject_Z (Z.sgn n * (m * 2 ^ (Z.log2 (Z.abs n) - 52)))
    /\ 2 ^ 52 <= m <= 2 ^ 53
    /\ 2 * Z.abs (m * 2 ^ (Z.log2 (Z.abs n) - 52) - Z.abs n)
       <= 2 ^ (Z.log2 (Z.abs n) - 52)
    /\ (2 * Z.abs (m * 2 ^ (Z.log2 (Z.abs n) - 52) - Z.abs n)
        = 2 ^ (Z.log2 (Z.abs n) - 52) -> Z.even m = true).
Proof.
  intros Hbig. unfold gonum.float64. cbv zeta.
  destruct (Z.leb_spec (Z.abs n) (2 ^ 53)) as [Hle|_]; [lia|].
  set (a := Z.abs n) in *.
  assert (0 < a) as Hpos by lia.
  pose proof (Z.log2_spec a Hpos) as [Hlo Hhi].
  assert (53 <= Z.log2 a) as Hlog.
  { apply Z.log2_le_pow2; lia. }
  set (d := Z.log2 a - 52) in *.
  assert (1 <= d) as Hd by lia.
  assert (Z.log2 a = 52 + d) as Hl by lia.
  rewrite Hl in Hlo, Hhi.
  replace (Z.succ (52 + d)) with (53 + d) in Hhi by lia.
  rewrite Z.pow_add_r in Hlo, Hhi by lia.
  rewrite Z.shiftr_div_pow2, Z.land_ones by lia.
  rewrite (Z.shiftl_mul_pow2 1 (d - 1)), Z.mul_1_l by lia.
  assert (0 < 2 ^ d) as Hp by (apply Z.pow_pos_nonneg; lia).
  assert (2 ^ d = 2 * 2 ^ (d - 1)) as Hhalf.
  { replace d with (1 + (d - 1)) at 1 by lia. rewrite Z.pow_add_r by lia. reflexivity. }
  pose proof (Z.div_mod a (2 ^ d) ltac:(lia)) as Hdm.
  pose proof (Z.mod_pos_bound a (2 ^ d) Hp) as Hr.
  set (q := a / 2 ^ d) in *. set (r := a mod 2 ^ d) in *.
  set (h := 2 ^ (d - 1)) in *.
  assert (2 ^ 52 <= q < 2 ^ 53) as Hq by nia.
  destruct (Z.ltb_spec h r) as [Hgt|Hngt]; cbn [orb].
  - exists (q + 1). rewrite Z.shiftl_mul_pow2 by lia.
    split; [reflexivity|]. split; [lia|]. split; [nia|]. intros E. nia.
  - destruct (Z.eqb_spec r h) as [Heq|Hne]; cbn [andb].
    + destruct (Z.odd q) eqn:Hodd.
      * exists (q + 1). rewrite Z.shiftl_mul_pow2 by lia.
        split; [reflexivity|]. split; [lia|]. split; [nia|]. intros _.
        rewrite Z.even_add, <- Z.negb_odd, Hodd. reflexivity.
      * exists q. rewrite Z.shiftl_mul_pow2 by lia.
        split; [reflexivity|]. split; [lia|]. split; [nia|]. intros _.
        rewrite <- Z.negb_odd, Hodd. reflexivity.
    + exists q. rewrite Z.shiftl_mul_pow2 by lia.
      split; [reflexivity|]. split; [lia|]. split; [nia|]. intros E. nia.
Qed.







(** C10.  A COUNT config with [RetentionCount <= 0] and a GFS config whose
    five counters are all [<= 0] make their pass return [nil] at once,
    without touching the world; the keep-set such GFS counters would have
    produced is empty, so no backup would have been in it. *)
Theorem degenerate_retention_is_noop (c : BackupCleaner)
    (cfg : backups_config.BackupConfig) (w : World) :
  (backups_config.RetentionCount cfg <= 0 ->
   cleanByCount c cfg w = (nil_error, w))
  /\ (backups_config.RetentionGfsHours cfg <= 0 ->
      backups_config.RetentionGfsDays cfg <= 0 ->
      backups_config.RetentionGfsWeeks cfg <= 0 ->
      backups_config.RetentionGfsMonths cfg <= 0 ->
      backups_config.RetentionGfsYears cfg <= 0 ->
      cleanByGFS c cfg w = (nil_error, w)
      /\ forall bs b,
           gfs.map_get
             (gfs.buildGFSKeepSet bs
                (backups_config.RetentionGfsHours cfg)
                (backups_config.RetentionGfsDays cfg)
                (backups_config.RetentionGfsWeeks cfg)
                (backups_config.RetentionGfsMonths cfg)
                (backups_config.RetentionGfsYears cfg)) (ID b) = false).
Proof.
  split.
  - intros Hc. unfold cleanByCount. apply Z.leb_le in Hc. rewrite Hc. reflexivity.
  - intros Hh Hd Hw Hm Hy. split.
    + unfold cleanByGFS. apply Z.leb_le in Hh, Hd, Hw, Hm, Hy.
      rewrite Hh, Hd, Hw, Hm, Hy. reflexivity.
    + intros bs b. rewrite GFSFacts.keep_set_empty_no_budget by assumption.
      unfold gfs.map_get. rewrite lookup_empty. reflexivity.
Qed.

Lemma degenerate_retention_is_noop_witness :
  cleanByCount (healthy_cleaner []) zero_count_config crowded_world
  = (nil_error, crowded_world)
  /\ cleanByGFS (healthy_cleaner []) zero_gfs_config crowded_world
     = (nil_error, crowded_world).
Proof.
  split.
  - apply (proj1 (degenerate_retention_is_noop (healthy_cleaner [])
                    zero_count_config crowded_world)).
    vm_compute. discriminate.
  - apply (proj2 (degenerate_retention_is_noop (healthy_cleaner [])
                    zero_gfs_config crowded_world));
      vm_compute; discriminate.
Defined.

End CleanerFacts.

(** ** The scenarios of the unit tests and of the specification, evaluated *)

Module Scenarios.
Import backups_core backuping.

Example iso_week_keys :
  map (fun b => gfs.weekKey (CreatedAt b)) gfs.iso_week_backups
  = ["2025-01"; "2024-52"].
Proof. vm_compute. reflexivity. Qed.

Example calendar_keys :
  let t := gotime.Date 2024 2 29 23 59 in
  (gfs.hourKey t, gfs.dayKey t, gfs.weekKey t, gfs.monthKey t, gfs.yearKey t)
  = ("2024-02-29-23", "2024-02-29", "2024-09", "2024-02", "2024").
Proof. vm_compute. reflexivity. Qed.

Example gfs_iso_week_boundary :
  map (fun b => gfs.map_get (gfs.buildGFSKeepSet gfs.iso_week_backups 0 0 2 0 0) (ID b))
      gfs.iso_week_backups
  = [true; true].
Proof. vm_compute. reflexivity. Qed.

Example gfs_additive_slots :
  map (fun b => gfs.map_get (gfs.buildGFSKeepSet gfs.additive_backups 0 1 2 2 0) (ID b))
      gfs.additive_backups
  = [true; true; true; false].
Proof. vm_compute. reflexivity. Qed.

Example gfs_full_combination :
  map (fun b => gfs.map_get (gfs.buildGFSKeepSet gfs.weekly_backups 0 2 3 2 1) (ID b))
      gfs.weekly_backups
  = [true; true; true; true; false; false; false; false; false; false; false; false].
Proof. vm_compute. reflexivity. Qed.

Example time_period_keeps_recent :
  match tick (healthy_cleaner [day_config])
          (world_of [fresh_backup; old_backup_1; two_days_old]) with
  | Some (Ret w') => rows w' = [fresh_backup; old_backup_1]
  | _ => False
  end.
Proof. vm_compute. reflexivity. Qed.

Example count_keeps_newest_two :
  match tick (healthy_cleaner [count_config]) count_world with
  | Some (Ret w') => rows w' = [fresh_backup; newest_backup]
  | _ => False
  end.
Proof. vm_compute. reflexivity. Qed.

Example size_cap_blocked_by_grace :
  match tick (healthy_cleaner [capped_config]) recent_world with
  | Some (Ret w') =>
    rows w' = rows recent_world
    /\ trace w' = [EvLog "WARN"
                     "Oldest backup is too recent to delete, stopping size cleanup"]
  | _ => False
  end.
Proof. vm_compute. split; reflexivity. Qed.

Example size_cap_evicts_oldest_first :
  match tick (healthy_cleaner [capped_config]) crowded_world with
  | Some (Ret w') =>
    rows w' = [fresh_backup]
    /\ map fst (pipeline_calls (trace w')) = [old_backup_2; old_backup_1]
  | _ => False
  end.
Proof. vm_compute. split; reflexivity. Qed.

Example deletion_survives_storage_failure :
  let r := DeleteBackup strict_cleaner old_backup_2 crowded_world in
  fst r = None
  /\ rows (snd r) = [fresh_backup; old_backup_1]
  /\ calls_of (trace (snd r))
     = [ EvDeleteByID 42%N;
         EvDeleteFile 7%N "backup-42.metadata";
         EvDeleteFile 7%N "backup-42";
         EvListener 2 old_backup_2; EvListener 1 old_backup_2;
         EvListener 0 old_backup_2;
         EvDeleteBackup old_backup_2 noon ].
Proof. vm_compute. repeat split; reflexivity. Qed.

Example unknown_period_panics :
  backups_config.Validate false
    (backups_config.with_period "DECADE" backups_config.createValidBackupConfig)
    backups_config.multi_violation_plan
  = Panic "unknown period: DECADE".
Proof. vm_compute. reflexivity. Qed.

Example float64_of_large_caps :
  gonum.float64 10 = inject_Z 10
  /\ gonum.float64 (2 ^ 53 + 1) = inject_Z (2 ^ 53)
  /\ gonum.float64 (2 ^ 53 + 2) = inject_Z (2 ^ 53 + 2)
  /\ gonum.float64 odd_cap = inject_Z (2 ^ 53 + 4)
  /\ gonum.float64 (2 ^ 54 + 2) = inject_Z (2 ^ 54)
  /\ gonum.float64 (2 ^ 54 + 6) = inject_Z (2 ^ 54 + 8)
  /\ gonum.float64 (- (2 ^ 53 + 1)) = inject_Z (- 2 ^ 53)
  /\ gonum.float64 (2 ^ 63 - 1) = inject_Z (2 ^ 63).
Proof. vm_compute. repeat split; reflexivity. Qed.

End Scenarios.

(** ** Beyond the named periods *)

Module PeriodEdges.
Import period.

Lemma ToDuration_Ret_named p d : ToDuration p = Ret d -> In p named_periods.
Proof.
  unfold ToDuration, named_periods. cbn [In].
  repeat match goal with
         | |- context [String.eqb p ?q] =>
           destruct (String.eqb_spec p q); [subst; tauto|]
         end.
  discriminate.
Qed.

Lemma ToDuration_unknown p :
  ~ In p named_periods -> ToDuration p = Panic ("unknown period: " +:+ p).
Proof.
  unfold ToDuration, named_periods. cbn [In]. intros Hnot.
  repeat match goal with
         | |- context [String.eqb p ?q] =>
           destruct (String.eqb_spec p q); [exfalso; apply Hnot; subst; tauto|]
         end.
  reflexivity.
Qed.

Lemma ToDuration_named p : In p named_periods -> exists d, ToDuration p = Ret d.
Proof.
  unfold named_periods; cbn [In]; intros H.
  repeat (destruct H as [<- | H]; [eexists; reflexivity |]).
  destruct H.
Qed.

Lemma named_dec p : {In p named_periods} + {~ In p named_periods}.
Proof. apply in_dec, String.string_dec. Qed.

Lemma CompareTo_returns_iff a b :
  (exists r, CompareTo a b = Ret r)
  <-> a = b \/ (In a named_periods /\ In b named_periods).
Proof.
  split.
  - intros [r Hr].
    destruct (String.string_dec a b) as [E|Hne]; [left; exact E|]. right.
    unfold CompareTo in Hr. apply String.eqb_neq in Hne. rewrite Hne in Hr.
    destruct (ToDuration a) as [d1|m1] eqn:E1; cbn [obind] in Hr; [|discriminate].
    destruct (ToDuration b) as [d2|m2] eqn:E2; cbn [obind] in Hr; [|discriminate].
    split; eapply ToDuration_Ret_named; eassumption.
  - intros [->|[Hia Hib]].
    + exists 0. unfold CompareTo. rewrite String.eqb_refl. reflexivity.
    + exists (Z.sgn (rank a - rank b)). apply PeriodFacts.CompareTo_rank; assumption.
Qed.

(** X1.  [CompareTo] on arbitrary strings: a string compares equal to
    itself even when it names no period; two different strings compare
    (without panic) exactly when both are named periods; otherwise the call
    panics on the first unknown one, the receiver before the argument. *)
Theorem CompareTo_unknown_periods (a b : TimePeriod) :
  CompareTo a a = Ret 0
  /\ (a <> b -> ~ In a named_periods ->
      CompareTo a b = Panic ("unknown period: " +:+ a))
  /\ (a <> b -> In a named_periods -> ~ In b named_periods ->
      CompareTo a b = Panic ("unknown period: " +:+ b))
  /\ ((exists r, CompareTo a b = Ret r)
      <-> a = b \/ (In a named_periods /\ In b named_periods)).
Proof.
  assert (forall x, CompareTo x x = Ret 0) as Hrefl
    by (intros x; unfold CompareTo; rewrite String.eqb_refl; reflexivity).
  assert (a <> b -> ~ In a named_periods ->
          CompareTo a b = Panic ("unknown period: " +:+ a)) as Ha.
  { intros Hne Hna. unfold CompareTo. apply String.eqb_neq in Hne. rewrite Hne.
    rewrite (ToDuration_unknown a Hna). reflexivity. }
  assert (a <> b -> In a named_periods -> ~ In b named_periods ->
          CompareTo a b = Panic ("unknown period: " +:+ b)) as Hb.
  { intros Hne Hia Hnb. unfold CompareTo. apply String.eqb_neq in Hne. rewrite Hne.
    destruct (ToDuration_named a Hia) as [d ->]. cbn [obind].
    rewrite (ToDuration_unknown b Hnb). reflexivity. }
  split; [apply Hrefl|]. split; [exact Ha|]. split; [exact Hb|]. split.
  - intros [r Hr].
    destruct (String.string_dec a b) as [E|Hne]; [left; exact E|]. right.
    destruct (named_dec a) as [Hia|Hna];
      [|rewrite (Ha Hne Hna) in Hr; discriminate].
    destruct (named_dec b) as [Hib|Hnb];
      [|rewrite (Hb Hne Hia Hnb) in Hr; discriminate].
    split; assumption.
  - intros [->|[Hia Hib]]; [eauto|].
    exists (Z.sgn (rank a - rank b)). apply PeriodFacts.CompareTo_rank; assumption.
Qed.

End PeriodEdges.

(** ** More about the validator *)

Module ValidatorMore.
Import backups_config ValidatorFacts.

Lemma policy_types_distinct :
  String.eqb RetentionPolicyTypeCount RetentionPolicyTypeTimePeriod = false
  /\ String.eqb RetentionPolicyTypeCount "" = false
  /\ String.eqb RetentionPolicyTypeGFS RetentionPolicyTypeTimePeriod = false
  /\ String.eqb RetentionPolicyTypeGFS "" = false
  /\ String.eqb RetentionPolicyTypeGFS RetentionPolicyTypeCount = false.
Proof. repeat split. Qed.

Lemma retention_ok_sound b plan :
  validateRetentionPolicy b plan = Ret nil_error -> retention_ok b plan.
Proof.
  unfold validateRetentionPolicy, retention_ok. cbn zeta.
  destruct (String.eqb (RetentionPolicyType_ b) RetentionPolicyTypeTimePeriod
            || String.eqb (RetentionPolicyType_ b) "") eqn:Etp.
  - assert (RetentionPolicyType_ b = RetentionPolicyTypeTimePeriod
            \/ RetentionPolicyType_ b = "") as Hty
      by (apply orb_true_iff in Etp as [E|E]; apply String.eqb_eq in E; auto).
    destruct (String.eqb_spec (RetentionTimePeriod b) ""); [discriminate|].
    destruct (String.eqb_spec (PlanMaxStoragePeriod plan) period.PeriodForever);
      cbn [negb].
    + intros _. left. auto.
    + destruct (period.CompareTo _ _) as [c|m] eqn:Ec; cbn [obind]; [|discriminate].
      destruct (Z.ltb_spec 0 c); [discriminate|].
      intros _. left. repeat split; auto. right. exists c. split; [reflexivity|lia].
  - destruct (String.eqb_spec (RetentionPolicyType_ b) RetentionPolicyTypeCount).
    + destruct (Z.leb_spec (RetentionCount b) 0); [discriminate|].
      intros _. right; left. split; [assumption|lia].
    + destruct (String.eqb_spec (RetentionPolicyType_ b) RetentionPolicyTypeGFS);
        [|discriminate].
      destruct (_ && _) eqn:Eg; [discriminate|].
      intros _. right; right. split; [assumption|].
      repeat rewrite andb_false_iff in Eg. rewrite !Z.leb_gt in Eg. lia.
Qed.

Lemma retention_ok_complete b plan :
  retention_ok b plan -> validateRetentionPolicy b plan = Ret nil_error.
Proof.
  destruct policy_types_distinct as (D1 & D2 & D3 & D4 & D5).
  unfold validateRetentionPolicy, retention_ok. cbn zeta.
  intros [(Hty & Hp & Hplan) | [(Hc & Hn) | (Hg & Hn)]].
  - replace (String.eqb (RetentionPolicyType_ b) RetentionPolicyTypeTimePeriod
             || String.eqb (RetentionPolicyType_ b) "") with true
      by (destruct Hty as [-> | ->]; reflexivity).
    apply String.eqb_neq in Hp. rewrite Hp.
    destruct (String.eqb_spec (PlanMaxStoragePeriod plan) period.PeriodForever);
      cbn [negb]; [reflexivity|].
    destruct Hplan as [Hf | (c & Hc & Hle)]; [contradiction|].
    rewrite Hc. cbn [obind].
    destruct (Z.ltb_spec 0 c); [lia | reflexivity].
  - rewrite Hc, D1, D2, String.eqb_refl. cbn [orb].
    destruct (Z.leb_spec (RetentionCount b) 0); [lia | reflexivity].
  - rewrite Hg, D3, D4, D5, String.eqb_refl. cbn [orb].
    destruct (_ && _) eqn:Eg; [|reflexivity].
    repeat (apply andb_true_iff in Eg as [Eg ?]).
    rewrite Z.leb_le in *. lia.
Qed.

Lemma Encryption_in_iff b :
  In (Encryption b) [""; BackupEncryptionNone; BackupEncryptionEncrypted]
  <-> negb (String.eqb (Encryption b) "")
      && negb (String.eqb (Encryption b) BackupEncryptionNone)
      && negb (String.eqb (Encryption b) BackupEncryptionEncrypted) = false.
Proof.
  cbn [In].
  destruct (String.eqb_spec (Encryption b) ""),
           (String.eqb_spec (Encryption b) BackupEncryptionNone),
           (String.eqb_spec (Encryption b) BackupEncryptionEncrypted);
    cbn [negb andb]; split; intros H; try reflexivity; try discriminate;
    try (right; right; left; congruence); try (right; left; congruence);
    try (left; congruence).
  destruct H as [H|[H|[H|[]]]]; congruence.
Qed.

Lemma first_failure_cons c cs b plan :
  first_failure (c :: cs) b plan = Ret nil_error
  <-> c b plan = Ret nil_error /\ first_failure cs b plan = Ret nil_error.
Proof.
  cbn [first_failure]. destruct (c b plan) as [[e|]|m]; split;
    try discriminate; try tauto; intros [H _]; discriminate.
Qed.

Lemma Validate_accepts_sound isCloud b plan :
  Validate isCloud b plan = Ret nil_error -> acceptable isCloud b plan.
Proof.
  rewrite Validate_first_failure. unfold ordered_checks.
  rewrite !first_failure_cons.
  intros (Hiv & Hret & Hretry & Henc & Hcloud & Hsz & Htot & Hg1 & Hg2 & _).
  assert (0 <= MaxBackupSizeMB b) as Hsz'.
  { revert Hsz. unfold check_size_sign.
    destruct (Z.leb_spec 0 (MaxBackupSizeMB b)); [intros _; assumption | discriminate]. }
  assert (0 <= MaxBackupsTotalSizeMB b) as Htot'.
  { revert Htot. unfold check_total_sign.
    destruct (Z.leb_spec 0 (MaxBackupsTotalSizeMB b));
      [intros _; assumption | discriminate]. }
  unfold acceptable.
  split; [|split; [|split; [|split; [|split; [|split; [|split; [|split]]]]]]];
    try assumption.
  - revert Hiv. unfold check_interval.
    destruct (BackupInterval b); [intros _; right; discriminate|].
    destruct (N.eqb_spec (BackupIntervalID b) uuid_Nil);
      [discriminate | intros _; left; assumption].
  - apply retention_ok_sound. exact Hret.
  - intros Hr. revert Hretry. unfold check_retry. rewrite Hr. cbn [andb].
    destruct (Z.leb_spec 1 (MaxFailedTriesCount b));
      [intros _; assumption | discriminate].
  - revert Henc. unfold check_encryption.
    destruct (existsb _ _) eqn:E; [intros _|discriminate].
    apply existsb_exists in E as (x & Hx & Ex). apply String.eqb_eq in Ex.
    rewrite Ex. exact Hx.
  - intros Hc. revert Hcloud. unfold check_cloud. rewrite Hc. cbn [andb].
    destruct (String.eqb_spec (Encryption b) BackupEncryptionEncrypted);
      [intros _; assumption | discriminate].
  - intros Hcap. revert Hg1. unfold gate_backup_size.
    destruct (Z.ltb_spec 0 (PlanMaxBackupSizeMB plan)); [|lia].
    destruct (Z.eqb_spec (MaxBackupSizeMB b) 0); [discriminate|].
    destruct (Z.ltb_spec (PlanMaxBackupSizeMB plan) (MaxBackupSizeMB b));
      [discriminate | intros _; lia].
  - intros Hcap. revert Hg2. unfold gate_total_size.
    destruct (Z.ltb_spec 0 (PlanMaxBackupsTotalSizeMB plan)); [|lia].
    destruct (Z.eqb_spec (MaxBackupsTotalSizeMB b) 0); [discriminate|].
    destruct (Z.ltb_spec (PlanMaxBackupsTotalSizeMB plan) (MaxBackupsTotalSizeMB b));
      [discriminate | intros _; lia].
Qed.

Lemma Validate_accepts_complete isCloud b plan :
  acceptable isCloud b plan -> Validate isCloud b plan = Ret nil_error.
Proof.
  intros (Hiv & Hret & Hretry & Henc & Hcloud & Hsz & Htot & Hg1 & Hg2).
  rewrite Validate_after_earlier_checks.
  2:{ unfold earlier_checks_pass. repeat split; try assumption.
      apply retention_ok_complete. exact Hret. }
  cbn [first_failure]. unfold gate_backup_size, gate_total_size.
  assert ((0 <? PlanMaxBackupSizeMB plan)
          && ((MaxBackupSizeMB b =? 0)
              || (PlanMaxBackupSizeMB plan <? MaxBackupSizeMB b)) = false) as ->.
  { destruct (Z.ltb_spec 0 (PlanMaxBackupSizeMB plan)); [|reflexivity].
    specialize (Hg1 ltac:(assumption)).
    destruct (Z.eqb_spec (MaxBackupSizeMB b) 0); [lia|].
    destruct (Z.ltb_spec (PlanMaxBackupSizeMB plan) (MaxBackupSizeMB b));
      [lia | reflexivity]. }
  assert ((0 <? PlanMaxBackupsTotalSizeMB plan)
          && ((MaxBackupsTotalSizeMB b =? 0)
              || (PlanMaxBackupsTotalSizeMB plan <? MaxBackupsTotalSizeMB b)) = false)
    as ->.
  { destruct (Z.ltb_spec 0 (PlanMaxBackupsTotalSizeMB plan)); [|reflexivity].
    specialize (Hg2 ltac:(assumption)).
    destruct (Z.eqb_spec (MaxBackupsTotalSizeMB b) 0); [lia|].
    destruct (Z.ltb_spec (PlanMaxBackupsTotalSizeMB plan) (MaxBackupsTotalSizeMB b));
      [lia | reflexivity]. }
  reflexivity.
Qed.

(** X2.  [Validate] returns [nil] exactly for the configs that have an
    interval, retention fields that fit the policy type (and, for a period,
    the plan's storage period), a positive retry count when retry is on, a
    known encryption (ENCRYPTED in cloud mode), nonnegative size limits, and
    size limits that are positive and within every cap the plan sets. *)
Theorem Validate_accepts_iff isCloud b plan :
  Validate isCloud b plan = Ret nil_error <-> acceptable isCloud b plan.
Proof.
  split; [apply Validate_accepts_sound | apply Validate_accepts_complete].
Qed.

(** X3.  [Validate] panics exactly when the config has an interval, its
    policy is TIME_PERIOD (or empty) with a non-empty period, the plan's
    storage period is not FOREVER and differs from the config's, and one of
    the two is not a named period; so a plan whose storage period is the
    empty string makes every such config panic. *)
Theorem Validate_panics_iff isCloud b plan :
  (exists m, Validate isCloud b plan = Panic m)
  <-> (BackupIntervalID b <> uuid_Nil \/ BackupInterval b <> None)
      /\ (RetentionPolicyType_ b = RetentionPolicyTypeTimePeriod
          \/ RetentionPolicyType_ b = "")
      /\ RetentionTimePeriod b <> ""
      /\ PlanMaxStoragePeriod plan <> period.PeriodForever
      /\ RetentionTimePeriod b <> PlanMaxStoragePeriod plan
      /\ (~ In (RetentionTimePeriod b) period.named_periods
          \/ ~ In (PlanMaxStoragePeriod plan) period.named_periods).
Proof.
  assert (forall (e : outcome error) (k : error -> outcome error),
            (forall x, exists r, k x = Ret r) ->
            ((exists m, obind e k = Panic m) <-> exists m, e = Panic m)) as Hbind.
  { intros [x|m] k Hk; cbn [obind].
    - destruct (Hk x) as [r ->]. split; intros [m H]; discriminate.
    - split; intros _; eauto. }
  assert ((exists m, Validate isCloud b plan = Panic m)
          <-> (BackupIntervalID b <> uuid_Nil \/ BackupInterval b <> None)
              /\ exists m, validateRetentionPolicy b plan = Panic m) as ->.
  { unfold Validate.
    destruct (BackupInterval b) as [iv|], (N.eqb_spec (BackupIntervalID b) uuid_Nil);
      cbn [andb].
    3:{ split; [intros [m H]; discriminate | intros [[H|H] _]; congruence]. }
    all: rewrite Hbind;
      [ split; [intros H; split; [first [left; assumption | right; discriminate] | exact H]
               | intros [_ H]; exact H]
      | intros [err|]; [eauto|];
        repeat match goal with
               | |- context [if ?c then _ else _] => destruct c
               end; eauto ]. }
  assert ((exists m, validateRetentionPolicy b plan = Panic m)
          <-> (RetentionPolicyType_ b = RetentionPolicyTypeTimePeriod
               \/ RetentionPolicyType_ b = "")
              /\ RetentionTimePeriod b <> ""
              /\ PlanMaxStoragePeriod plan <> period.PeriodForever
              /\ ~ exists c, period.CompareTo (RetentionTimePeriod b)
                               (PlanMaxStoragePeriod plan) = Ret c) as ->.
  { unfold validateRetentionPolicy. cbn zeta.
    destruct (String.eqb_spec (RetentionPolicyType_ b) RetentionPolicyTypeTimePeriod)
      as [Etp|Ntp];
      [|destruct (String.eqb_spec (RetentionPolicyType_ b) "") as [Ee|Ne]]; cbn [orb].
    3:{ split; [|intros [[H|H] _]; contradiction].
        intros [m H].
        repeat match type of H with
               | context [if ?c then _ else _] => destruct c
               end; discriminate. }
    all: destruct (String.eqb_spec (RetentionTimePeriod b) "") as [Ep|Np];
      [split; [intros [m H]; discriminate | intros (_ & H & _); contradiction]|];
      destruct (String.eqb_spec (PlanMaxStoragePeriod plan) period.PeriodForever)
        as [Ef|Nf]; cbn [negb];
      [split; [intros [m H]; discriminate | intros (_ & _ & H & _); contradiction]|];
      destruct (period.CompareTo (RetentionTimePeriod b) (PlanMaxStoragePeriod plan))
        as [c|m] eqn:Ec; cbn [obind];
      [ split; [intros [m H]; destruct (0 <? c); discriminate
               | intros (_ & _ & _ & H); exfalso; apply H; eauto]
      | split; [intros _; repeat split; auto; intros [c H]; discriminate
               | intros _; eauto] ]. }
  rewrite PeriodEdges.CompareTo_returns_iff.
  split.
  - intros (Hiv & Hty & Hp & Hf & Hno). repeat split; try assumption.
    + intros E. apply Hno. left. exact E.
    + destruct (PeriodEdges.named_dec (RetentionTimePeriod b)) as [Ha|Ha];
        [|left; exact Ha].
      destruct (PeriodEdges.named_dec (PlanMaxStoragePeriod plan)) as [Hb|Hb];
        [|right; exact Hb].
      exfalso. apply Hno. right. split; assumption.
  - intros (Hiv & Hty & Hp & Hf & Hne & Hun). repeat split; try assumption.
    intros [E|[Ha Hb]]; [contradiction|]. destruct Hun; contradiction.
Qed.

Lemma acceptable_plan_at_least isCloud b plan plan' :
  plan_at_least plan plan' -> acceptable isCloud b plan -> acceptable isCloud b plan'.
Proof.
  intros (Hmax & Htotal & Hperiod)
         (Hiv & Hret & Hretry & Henc & Hcloud & Hsz & Htot & Hg1 & Hg2).
  unfold acceptable.
  split; [|split; [|split; [|split; [|split; [|split; [|split; [|split]]]]]]];
    try assumption.
  - destruct Hret as [(Hty & Hp & Hplan) | Hother]; [|right; exact Hother].
    left. split; [exact Hty|]. split; [exact Hp|].
    destruct Hperiod as [Hf' | (Hn & Hn' & Hrank)]; [left; exact Hf'|].
    destruct (String.string_dec (PlanMaxStoragePeriod plan') period.PeriodForever)
      as [E|E]; [left; exact E|]. right.
    pose proof (PeriodFacts.rank_Forever _ Hn' E) as Hlt.
    assert (In (RetentionTimePeriod b) period.named_periods
            /\ period.rank (RetentionTimePeriod b)
               <= period.rank (PlanMaxStoragePeriod plan)) as [Hc Hle].
    { destruct Hplan as [Hf | (c & Hc & Hle)]; [rewrite Hf in Hrank; lia|].
      assert (exists r, period.CompareTo (RetentionTimePeriod b)
                          (PlanMaxStoragePeriod plan) = Ret r) as Hr by eauto.
      apply PeriodEdges.CompareTo_returns_iff in Hr.
      assert (In (RetentionTimePeriod b) period.named_periods) as Ha
        by (destruct Hr as [->|[? ?]]; assumption).
      split; [exact Ha|].
      rewrite (PeriodFacts.CompareTo_rank _ _ Ha Hn) in Hc. injection Hc as <-.
      destruct (Z.sgn_spec (period.rank (RetentionTimePeriod b)
                            - period.rank (PlanMaxStoragePeriod plan)))
        as [[? Es]|[[? Es]|[? Es]]]; rewrite Es in Hle; lia. }
    exists (Z.sgn (period.rank (RetentionTimePeriod b)
                   - period.rank (PlanMaxStoragePeriod plan'))).
    split; [apply PeriodFacts.CompareTo_rank; assumption|].
    destruct (Z.sgn_spec (period.rank (RetentionTimePeriod b)
                          - period.rank (PlanMaxStoragePeriod plan')))
      as [[? Es]|[[? Es]|[? Es]]]; rewrite Es; lia.
  - intros Hcap. destruct Hmax as [|Hmax]; [lia|]. specialize (Hg1 ltac:(lia)). lia.
  - intros Hcap. destruct Htotal as [|Htotal]; [lia|]. specialize (Hg2 ltac:(lia)). lia.
Qed.

(** X4.  Validation is monotone in the plan: a config accepted under a plan
    is accepted under every plan that allows at least as much (each size cap
    absent or at least as large; storage period FOREVER, or both storage
    periods named and the new one at least as long). *)
Theorem Validate_monotone_in_plan isCloud b plan plan' :
  plan_at_least plan plan' ->
  Validate isCloud b plan = Ret nil_error ->
  Validate isCloud b plan' = Ret nil_error.
Proof.
  intros Hle Hok. apply Validate_accepts_complete.
  apply (acceptable_plan_at_least isCloud b plan plan' Hle).
  apply Validate_accepts_sound. exact Hok.
Qed.

Lemma Validate_monotone_in_plan_witness :
  Validate false createValidBackupConfig createUnlimitedPlan = Ret nil_error.
Proof.
  apply (Validate_monotone_in_plan false createValidBackupConfig
           multi_violation_plan createUnlimitedPlan).
  - unfold plan_at_least. split; [left; vm_compute; discriminate|].
    split; [left; vm_compute; discriminate | left; reflexivity].
  - reflexivity.
Defined.

(** X5.  A copy has the new database id and the nil interval id, and the
    retention check gives the same answer on it.  When the interval comes
    back absent from its own copy the copied config is rejected with
    "backup interval is required", whatever the original was; when it comes
    back present, and the original had an interval or an interval id, the
    copy validates exactly as the original does. *)
Theorem Copy_validates_like_original
    (copyInterval : option Interval -> option Interval) (newDatabaseID : UUID)
    isCloud b plan :
  DatabaseID (Copy copyInterval newDatabaseID b) = newDatabaseID
  /\ BackupIntervalID (Copy copyInterval newDatabaseID b) = uuid_Nil
  /\ validateRetentionPolicy (Copy copyInterval newDatabaseID b) plan
     = validateRetentionPolicy b plan
  /\ (copyInterval (BackupInterval b) = None ->
      Validate isCloud (Copy copyInterval newDatabaseID b) plan
      = Ret (errors_New "backup interval is required"))
  /\ (copyInterval (BackupInterval b) <> None ->
      BackupIntervalID b <> uuid_Nil \/ BackupInterval b <> None ->
      Validate isCloud (Copy copyInterval newDatabaseID b) plan
      = Validate isCloud b plan).
Proof.
  split; [reflexivity|]. split; [reflexivity|]. split; [reflexivity|]. split.
  - intros Hnone. unfold Validate, Copy. cbn [BackupIntervalID BackupInterval].
    rewrite Hnone. reflexivity.
  - intros Hsome Hiv.
    rewrite !Validate_first_failure. unfold ordered_checks. cbn [first_failure].
    assert (check_interval (Copy copyInterval newDatabaseID b) plan = Ret nil_error)
      as ->.
    { unfold check_interval, Copy. cbn [BackupInterval].
      destruct (copyInterval (BackupInterval b)); [reflexivity | contradiction]. }
    assert (check_interval b plan = Ret nil_error) as ->.
    { unfold check_interval. destruct (BackupInterval b); [reflexivity|].
      destruct Hiv as [Hiv|Hiv]; [|contradiction].
      apply N.eqb_neq in Hiv. rewrite Hiv. reflexivity. }
    reflexivity.
Qed.

End ValidatorMore.


(** ** The persistence hooks of the config *)

Module HookFacts.
Import backups_config gostrings.

Lemma Split_nonempty s sep : Split s sep <> [].
Proof.
  destruct s as [|ch s]; cbn [Split]; [discriminate|].
  destruct (Ascii.eqb ch sep); [discriminate|].
  destruct (Split s sep); discriminate.
Qed.

Lemma Join_cons_char ch piece pieces sep :
  Join (String ch piece :: pieces) sep = String ch (Join (piece :: pieces) sep).
Proof. destruct pieces; reflexivity. Qed.

Lemma Join_Split s : Join (Split s comma) "," = s.
Proof.
  induction s as [|ch s IH]; [reflexivity|].
  cbn [Split]. destruct (Ascii.eqb_spec ch comma) as [->|Hne].
  - pose proof (Split_nonempty s comma) as Hs.
    destruct (Split s comma) as [|p ps]; [contradiction|].
    change (Join ("" :: p :: ps) ",") with ("" +:+ "," +:+ Join (p :: ps) ",").
    rewrite IH. reflexivity.
  - pose proof (Split_nonempty s comma) as Hs.
    destruct (Split s comma) as [|p ps]; [contradiction|].
    rewrite Join_cons_char, IH. reflexivity.
Qed.

Lemma Split_no_comma t :
  contains_byte t comma = false -> Split t comma = [t].
Proof.
  induction t as [|ch t IH]; [reflexivity|].
  cbn [contains_byte Split]. intros H. apply orb_false_iff in H as [Hch Ht].
  rewrite Hch, (IH Ht). reflexivity.
Qed.

Lemma Split_prefix t rest :
  contains_byte t comma = false ->
  Split (t +:+ String comma rest) comma = t :: Split rest comma.
Proof.
  induction t as [|ch t IH]; intros H.
  - cbn. reflexivity.
  - cbn [contains_byte] in H. apply orb_false_iff in H as [Hch Ht].
    change (String ch t +:+ String comma rest)
      with (String ch (t +:+ String comma rest)).
    cbn [Split]. rewrite Hch, (IH Ht). reflexivity.
Qed.

Lemma Split_Join l :
  l <> [] -> (forall t, In t l -> contains_byte t comma = false) ->
  Split (Join l ",") comma = l.
Proof.
  induction l as [|e l IH]; intros Hne Hall; [contradiction|].
  destruct l as [|e' l'].
  - cbn [Join]. apply Split_no_comma. apply Hall. left. reflexivity.
  - change (Join (e :: e' :: l') ",") with (e +:+ String comma (Join (e' :: l') ",")).
    rewrite Split_prefix by (apply Hall; left; reflexivity).
    rewrite IH; [reflexivity | discriminate |].
    intros t Ht. apply Hall. right. exact Ht.
Qed.

Lemma Join_empty l :
  Join l "," = "" -> l = [] \/ l = [""].
Proof.
  destruct l as [|e [|e' l']]; cbn [Join]; intros H; [left; reflexivity | right; congruence|].
  exfalso. destruct e; discriminate.
Qed.

(** X6.  Saving and loading again gives back the tag list, provided no tag
    contains a comma and the list is not the single empty tag; the single
    empty tag is stored as the empty column and comes back as the empty
    list. *)
Theorem AfterFind_BeforeSave (b : notification_fields) :
  (forall t, In t (SendNotificationsOn b) -> contains_byte t comma = false) ->
  (SendNotificationsOn b <> [""] ->
   SendNotificationsOn (fst (AfterFind (fst (BeforeSave b)))) = SendNotificationsOn b)
  /\ (SendNotificationsOn b = [""] ->
      SendNotificationsOn (fst (AfterFind (fst (BeforeSave b)))) = []).
Proof.
  intros Hall. unfold AfterFind, BeforeSave.
  cbn [fst SendNotificationsOn SendNotificationsOnString]. split.
  - intros Hne. destruct (SendNotificationsOn b) as [|e l] eqn:El; [reflexivity|].
    cbn [length Nat.ltb Nat.leb].
    destruct (String.eqb_spec (Join (e :: l) ",") "") as [E|E]; cbn [negb].
    + apply Join_empty in E as [E|E]; [discriminate | contradiction].
    + apply Split_Join; [discriminate | exact Hall].
  - intros ->. reflexivity.
Qed.

Lemma AfterFind_BeforeSave_witness :
  SendNotificationsOn
    (fst (AfterFind (fst (BeforeSave
       {| SendNotificationsOn := [NotificationBackupFailed; NotificationBackupSuccess];
          SendNotificationsOnString := "" |}))))
  = [NotificationBackupFailed; NotificationBackupSuccess].
Proof.
  refine (proj1 (AfterFind_BeforeSave
                   {| SendNotificationsOn :=
                        [NotificationBackupFailed; NotificationBackupSuccess];
                      SendNotificationsOnString := "" |} _) _).
  - intros t [<-|[<-|[]]]; reflexivity.
  - discriminate.
Defined.

(** X7.  Loading and saving again gives back the stored column, for every
    column text. *)
Theorem BeforeSave_AfterFind (b : notification_fields) :
  SendNotificationsOnString (fst (BeforeSave (fst (AfterFind b))))
  = SendNotificationsOnString b.
Proof.
  unfold AfterFind, BeforeSave.
  cbn [fst SendNotificationsOn SendNotificationsOnString].
  destruct (String.eqb_spec (SendNotificationsOnString b) "") as [E|E]; cbn [negb].
  - rewrite E. reflexivity.
  - pose proof (Split_nonempty (SendNotificationsOnString b) comma) as Hs.
    pose proof (Join_Split (SendNotificationsOnString b)) as Hj.
    destruct (Split (SendNotificationsOnString b) comma) as [|p ps];
      [contradiction|]. exact Hj.
Qed.

End HookFacts.

(** ** More about the GFS keep-set *)

Module GFSMore.
Import backups_core gfs GFSFacts.

Section Budgets.
Variables hours days weeks months years : Z.

Abbreviation body' := (body hours days weeks months years).
Abbreviation loop' := (loop hours days weeks months years).
Abbreviation fires' c := (fires c hours days weeks months years).
Abbreviation budget c := (budget_of c hours days weeks months years).
Abbreviation keepSet bs := (buildGFSKeepSet bs hours days weeks months years).

Lemma body_idle st b :
  (forall c, fires' c st b = false) -> body' st b = st.
Proof.
  intros H.
  pose proof (H Hourly) as Hh. pose proof (H Daily) as Hd.
  pose proof (H Weekly) as Hw. pose proof (H Monthly) as Hm.
  pose proof (H Yearly) as Hy.
  unfold fires, slot_fires in Hh, Hd, Hw, Hm, Hy.
  cbn [budget_of seen_of kept_of key_of] in Hh, Hd, Hw, Hm, Hy.
  unfold body. rewrite Hh, Hd, Hw, Hm, Hy. destruct st; reflexivity.
Qed.

Lemma fires_some_dec st b :
  (forall c, fires' c st b = false)
  \/ existsb (fun c => fires' c st b) all_classes = true.
Proof.
  destruct (existsb (fun c => fires' c st b) all_classes) eqn:E; [right; reflexivity|].
  left. intros c.
  destruct (fires' c st b) eqn:Ec; [|reflexivity].
  assert (existsb (fun c => fires' c st b) all_classes = true) as Hx
    by (apply existsb_exists; exists c; split; [destruct c; cbn; tauto | exact Ec]).
  congruence.
Qed.

(** Dropping backups that fill no slot does not change the run. *)
Lemma loop_filter (sel : Backup -> bool) l : forall st,
  (forall prefix b suffix, l = prefix ++ b :: suffix ->
     existsb (fun c => fires' c (loop' st prefix) b) all_classes = true ->
     sel b = true) ->
  loop' st (List.filter sel l) = loop' st l.
Proof.
  induction l as [|b l IH]; intros st Hsel; [reflexivity|].
  cbn [List.filter].
  destruct (sel b) eqn:Eb.
  - unfold loop in *. cbn [fold_left]. apply IH.
    intros prefix x suffix El Hx.
    apply (Hsel (b :: prefix) x suffix); [rewrite El; reflexivity | exact Hx].
  - destruct (fires_some_dec st b) as [Hidle|Hfire].
    + unfold loop in *. cbn [fold_left]. rewrite (body_idle st b Hidle).
      apply IH. intros prefix x suffix El Hx.
      apply (Hsel (b :: prefix) x suffix); [rewrite El; reflexivity|].
      cbn [fold_left]. rewrite (body_idle st b Hidle). exact Hx.
    + rewrite (Hsel [] b l eq_refl Hfire) in Eb. discriminate.
Qed.

Lemma loop_app st l1 l2 : loop' st (l1 ++ l2) = loop' (loop' st l1) l2.
Proof. unfold loop. apply fold_left_app. Qed.

Lemma slot_inv_body c st b K :
  slot_inv (budget c) (seen_of c st) (kept_of c st) K ->
  slot_inv (budget c) (seen_of c (body' st b)) (kept_of c (body' st b))
    ({[ key_of c (CreatedAt b) ]} ∪ K).
Proof.
  intros [Htrue Hcount Hbound Hsub Hall].
  rewrite body_seen, body_kept.
  destruct (fires' c st b) eqn:Ef.
  - pose proof (fires_budget _ _ _ _ _ c st b Ef) as [Hpos Hroom].
    unfold fires, slot_fires in Ef. apply andb_true_iff in Ef as [_ Hseen].
    apply negb_true_iff in Hseen. unfold map_get in Hseen.
    assert (seen_of c st !! key_of c (CreatedAt b) = None) as Hnone.
    { destruct (seen_of c st !! key_of c (CreatedAt b)) as [v|] eqn:E; [|reflexivity].
      rewrite (Htrue _ _ E) in Hseen. discriminate. }
    split.
    + intros k v. destruct (decide (key_of c (CreatedAt b) = k)) as [->|Hne].
      * rewrite lookup_insert_eq. congruence.
      * rewrite lookup_insert_ne by assumption. apply Htrue.
    + rewrite dom_insert_L, size_union, size_singleton.
      * lia.
      * apply disjoint_singleton_l. rewrite elem_of_dom, Hnone.
        intros [? ?]; discriminate.
    + lia.
    + rewrite dom_insert_L. set_solver.
    + intros _. rewrite dom_insert_L, (Hall Hroom). reflexivity.
  - split; try assumption.
    + lia.
    + lia.
    + set_solver.
    + intros Hroom. assert (kept_of c st < budget c) as Hroom' by lia.
      rewrite (Hall Hroom').
      unfold fires, slot_fires in Ef.
      destruct (Z.ltb_spec 0 (budget c)); [|lia].
      destruct (Z.ltb_spec (kept_of c st) (budget c)); [|lia].
      cbn [andb] in Ef. apply negb_false_iff in Ef. unfold map_get in Ef.
      assert (key_of c (CreatedAt b) ∈ dom (seen_of c st)) as Hin.
      { apply elem_of_dom. destruct (seen_of c st !! key_of c (CreatedAt b));
          [eauto | discriminate]. }
      rewrite (Hall Hroom') in Hin. set_solver.
Qed.

Lemma slot_inv_loop c l : forall st K,
  slot_inv (budget c) (seen_of c st) (kept_of c st) K ->
  slot_inv (budget c) (seen_of c (loop' st l)) (kept_of c (loop' st l))
    (keys_in c l ∪ K).
Proof.
  induction l as [|b l IH]; intros st K Hinv.
  - unfold keys_in. cbn. replace (∅ ∪ K) with K by set_solver. exact Hinv.
  - unfold loop in *. cbn [fold_left].
    replace (keys_in c (b :: l) ∪ K)
      with (keys_in c l ∪ ({[ key_of c (CreatedAt b) ]} ∪ K))
      by (unfold keys_in; cbn [map list_to_set]; set_solver).
    apply IH. apply slot_inv_body. exact Hinv.
Qed.

Lemma slot_inv_init c : slot_inv (budget c) (seen_of c init) (kept_of c init) ∅.
Proof.
  split.
  - intros k v. destruct c; cbn; rewrite lookup_empty; discriminate.
  - destruct c; reflexivity.
  - destruct c; cbn [kept_of init hoursKept daysKept weeksKept monthsKept yearsKept]; lia.
  - destruct c; cbn; rewrite dom_empty_L; set_solver.
  - intros _. destruct c; cbn; apply dom_empty_L.
Qed.

End Budgets.

(** X8.  A class fills as many slots as it has budget or as there are
    distinct bucket keys in the input, whichever is smaller (a budget below
    zero counts as zero). *)
Theorem slots_filled_per_class c bs hours days weeks months years :
  kept_of c (run bs hours days weeks months years)
  = Z.min (Z.max 0 (budget_of c hours days weeks months years))
          (Z.of_nat (size (keys_in c bs))).
Proof.
  pose proof (slot_inv_loop hours days weeks months years c bs init ∅
                (slot_inv_init hours days weeks months years c))
    as [_ Hcount Hbound Hsub Hall].
  fold (run bs hours days weeks months years) in *.
  replace (keys_in c bs ∪ ∅) with (keys_in c bs) in * by set_solver.
  pose proof (subseteq_size _ _ Hsub) as Hsize.
  destruct (Z.lt_ge_cases (kept_of c (run bs hours days weeks months years))
              (budget_of c hours days weeks months years)) as [Hroom|Hfull].
  - rewrite (Hall Hroom) in Hcount. lia.
  - lia.
Qed.

(** X9.  When some budget is positive, the first (newest) backup of the
    input is in the keep-set. *)
Theorem newest_is_kept b rest hours days weeks months years :
  0 < hours \/ 0 < days \/ 0 < weeks \/ 0 < months \/ 0 < years ->
  map_get (buildGFSKeepSet (b :: rest) hours days weeks months years) (ID b) = true.
Proof.
  intros Hpos.
  assert (exists c, 0 < budget_of c hours days weeks months years) as [c Hc].
  { destruct Hpos as [H|[H|[H|[H|H]]]];
      [exists Hourly | exists Daily | exists Weekly | exists Monthly | exists Yearly];
      exact H. }
  apply (fires_kept hours days weeks months years (b :: rest) c 0%nat b);
    [reflexivity|].
  unfold fires, slot_fires, gfs.at_prefix, loop. cbn [take fold_left].
  apply Z.ltb_lt in Hc. rewrite Hc.
  destruct c; cbn [kept_of seen_of init hoursKept daysKept weeksKept monthsKept
                   yearsKept hoursSeen daysSeen weeksSeen monthsSeen yearsSeen];
    rewrite Hc; unfold map_get; rewrite lookup_empty; reflexivity.
Qed.

Lemma newest_is_kept_witness :
  map_get (buildGFSKeepSet additive_backups 0 1 0 0 0) 10%N = true.
Proof.
  apply (newest_is_kept (newBackup 10%N (gotime.Date 2025 6 18 12 0))
           (tl additive_backups) 0 1 0 0 0).
  right; left. lia.
Defined.

(** X10.  Older backups appended to the input change nothing for the ones
    before them: a position of the shorter list fills a slot of a class in
    the longer list exactly when it does in the shorter one, and every id of
    the shorter list's keep-set is in the longer list's. *)
Theorem keep_set_ignores_older bs more hours days weeks months years :
  (forall c i, (i < length bs)%nat ->
     (fills c (bs ++ more) hours days weeks months years i
      <-> fills c bs hours days weeks months years i))
  /\ (forall id,
        map_get (buildGFSKeepSet bs hours days weeks months years) id = true ->
        map_get (buildGFSKeepSet (bs ++ more) hours days weeks months years) id = true).
Proof.
  split.
  - intros c i Hi. unfold fills. rewrite length_app.
    rewrite !take_app_le by lia.
    split; intros [_ H]; (split; [lia | exact H]).
  - intros id. unfold buildGFSKeepSet, run. rewrite loop_app.
    apply keep_mono_loop.
Qed.

(** X11.  The keep-set is a fixed point: when every backup outside it is
    removed from the input, the builder returns the same keep-set for what is
    left, with the same counters. *)
Theorem keep_set_is_stable bs hours days weeks months years :
  let keepSet := buildGFSKeepSet bs hours days weeks months years in
  run (survivors keepSet bs) hours days weeks months years
  = run bs hours days weeks months years
  /\ buildGFSKeepSet (survivors keepSet bs) hours days weeks months years = keepSet.
Proof.
  cbn zeta.
  assert (run (survivors (buildGFSKeepSet bs hours days weeks months years) bs)
              hours days weeks months years
          = run bs hours days weeks months years) as Hrun.
  { unfold run, survivors. apply loop_filter.
    intros prefix b suffix El Hfire.
    apply existsb_exists in Hfire as (c & _ & Hc).
    assert (bs !! length prefix = Some b) as Hi
      by (rewrite El; apply list_lookup_middle; reflexivity).
    apply (fires_kept hours days weeks months years bs c (length prefix) b Hi).
    unfold gfs.at_prefix. rewrite El, take_app_length. exact Hc. }
  split; [exact Hrun|]. exact (f_equal keep Hrun).
Qed.

End GFSMore.

(** ** More about the deletion pipeline *)

Module PipelineMore.
Import backups_core backuping PipelineFacts.

(** With the storage at hand: the call ends in [DeleteByID] on a world with
    the same rows and without the removable objects. *)
Lemma DeleteBackup_storage_found_exact c b w st :
  (forall l, In l (backupRemoveListeners c) -> l b = None) ->
  lookup (storageService c) (StorageID b) = Ok st ->
  exists w3,
    DeleteBackup c b w = DeleteByID (backupRepository c) (ID b) w3
    /\ rows w3 = rows w
    /\ objects w3 = objects w ∖ removable c st b.
Proof.
  intros Hall Hlk. unfold DeleteBackup.
  rewrite notify_pass by assumption.
  unfold GetStorageByID. rewrite Hlk.
  unfold DeleteFile, logger_Error, emit, removable.
  destruct (unavailable (storageService c) (storage_ID st) (FileName b));
    cbn [now rows objects trace];
    destruct (unavailable (storageService c) (storage_ID st)
                (FileName b +:+ ".metadata"));
    cbn [now rows objects trace];
    eexists; (split; [reflexivity|]); cbn [now rows objects trace];
    (split; [reflexivity|]); set_solver.
Qed.

(** The catalog rows and the objects [DeleteBackup] leaves, by case. *)
Lemma DeleteBackup_state c b w :
  let r := DeleteBackup c b w in
  ((exists l e, In l (backupRemoveListeners c) /\ l b = Some e)
   /\ fst r <> None /\ rows (snd r) = rows w /\ objects (snd r) = objects w)
  \/ ((forall l, In l (backupRemoveListeners c) -> l b = None)
      /\ (exists e, lookup (storageService c) (StorageID b) = Err e /\ fst r = Some e)
      /\ rows (snd r) = rows w /\ objects (snd r) = objects w)
  \/ ((forall l, In l (backupRemoveListeners c) -> l b = None)
      /\ exists st, lookup (storageService c) (StorageID b) = Ok st
         /\ fst r = delete_error (backupRepository c) (ID b)
         /\ rows (snd r)
            = match delete_error (backupRepository c) (ID b) with
              | Some _ => rows w
              | None => List.filter (fun x => negb (N.eqb (ID x) (ID b))) (rows w)
              end
         /\ objects (snd r) = objects w ∖ removable c st b).
Proof.
  cbn zeta.
  destruct (listeners_split (backupRemoveListeners c) b)
    as [Hall | (pre & l & post & e & Hls & Hpre & Hl)].
  - right. destruct (lookup (storageService c) (StorageID b)) as [st|e] eqn:Hlk.
    + right. split; [exact Hall|]. exists st. split; [reflexivity|].
      destruct (DeleteBackup_storage_found_exact c b w st Hall Hlk)
        as (w3 & -> & Hrows & Hobj).
      pose proof (DeleteByID_frame (backupRepository c) (ID b) w3)
        as (He & _ & Ho & _). cbn zeta in Ho.
      rewrite He, Ho, DeleteByID_rows, Hrows, Hobj. auto.
    + left. split; [exact Hall|].
      rewrite (DeleteBackup_lookup_error c b w e Hall Hlk). cbn. eauto.
  - left. rewrite (DeleteBackup_listener_error c b w pre l post e Hls Hpre Hl).
    cbn [fst snd rows objects]. split; [|split; [discriminate | auto]].
    exists l, e. split; [|exact Hl]. rewrite Hls. apply in_or_app. right. left.
    reflexivity.
Qed.

(** X12.  [DeleteBackup] never adds a row or an object; the only rows it
    can remove are those with the backup's id, and the only objects the
    backup's file and its ".metadata" companion in the backup's storage; an
    object whose deletion the storage refuses stays. *)
Theorem DeleteBackup_footprint c b w :
  let w' := snd (DeleteBackup c b w) in
  (forall x, In x (rows w') -> In x (rows w))
  /\ (forall x, In x (rows w) -> ID x <> ID b -> In x (rows w'))
  /\ objects w' ⊆ objects w
  /\ (forall o, o ∈ objects w -> o ∉ objects w' ->
        exists st, lookup (storageService c) (StorageID b) = Ok st
                   /\ (o = (storage_ID st, FileName b)
                       \/ o = (storage_ID st, FileName b +:+ ".metadata"))
                   /\ unavailable (storageService c) (fst o) (snd o) = None).
Proof.
  cbn zeta.
  pose proof (DeleteBackup_frame c b w) as (_ & _ & Hsub & Hkeep). cbn zeta in *.
  split; [exact Hsub|]. split; [exact Hkeep|]. clear Hsub Hkeep.
  destruct (DeleteBackup_state c b w)
    as [(_ & _ & _ & Ho) | [(_ & _ & _ & Ho) | (_ & st & Hlk & _ & _ & Ho)]];
    cbn zeta in Ho; rewrite Ho.
  - split; [set_solver|]. intros o Hin Hout. destruct (Hout Hin).
  - split; [set_solver|]. intros o Hin Hout. destruct (Hout Hin).
  - split; [set_solver|]. intros o Hin Hout.
    assert (o ∈ removable c st b) as Hrem.
    { destruct (decide (o ∈ removable c st b)) as [H|H]; [exact H|].
      exfalso. apply Hout. apply elem_of_difference. split; assumption. }
    exists st. split; [exact Hlk|]. unfold removable in Hrem.
    apply elem_of_union in Hrem as [Hrem|Hrem].
    + destruct (unavailable (storageService c) (storage_ID st) (FileName b)) eqn:E;
        [set_solver|].
      apply elem_of_singleton in Hrem. subst o. cbn [fst snd]. auto.
    + destruct (unavailable (storageService c) (storage_ID st)
                  (FileName b +:+ ".metadata")) eqn:E; [set_solver|].
      apply elem_of_singleton in Hrem. subst o. cbn [fst snd]. auto.
Qed.

Lemma filter_twice {A} (f : A -> bool) (l : list A) :
  List.filter f (List.filter f l) = List.filter f l.
Proof.
  induction l as [|x l IH]; [reflexivity|].
  cbn [List.filter]. destruct (f x) eqn:E; [|exact IH].
  cbn [List.filter]. rewrite E, IH. reflexivity.
Qed.

(** X13.  Deleting the same backup a second time returns what the first
    call returned and leaves the catalog rows and the stored objects as the
    first call left them. *)
Theorem DeleteBackup_twice c b w :
  let first := DeleteBackup c b w in
  let second := DeleteBackup c b (snd first) in
  fst second = fst first
  /\ rows (snd second) = rows (snd first)
  /\ objects (snd second) = objects (snd first).
Proof.
  cbn zeta.
  destruct (DeleteBackup_state c b w)
    as [((l & e & Hin & Hl) & Hne & Hr & Ho)
       | [(Hall & (e & Hlk & He) & Hr & Ho)
         | (Hall & st & Hlk & He & Hr & Ho)]]; cbn zeta in *.
  - destruct (listeners_split (backupRemoveListeners c) b)
      as [Hall | (pre & l' & post & e' & Hls & Hpre & Hl')];
      [rewrite (Hall l Hin) in Hl; discriminate|].
    rewrite (DeleteBackup_listener_error c b _ pre l' post e' Hls Hpre Hl').
    rewrite (DeleteBackup_listener_error c b w pre l' post e' Hls Hpre Hl').
    cbn. auto.
  - rewrite (DeleteBackup_lookup_error c b _ e Hall Hlk).
    rewrite (DeleteBackup_lookup_error c b w e Hall Hlk). cbn. auto.
  - destruct (DeleteBackup_state c b (snd (DeleteBackup c b w)))
      as [((l & e & Hin & Hl) & _)
         | [(_ & (e & Hlk' & _) & _)
           | (_ & st' & Hlk' & He' & Hr' & Ho')]]; cbn zeta in *.
    + rewrite (Hall l Hin) in Hl. discriminate.
    + rewrite Hlk in Hlk'. discriminate.
    + rewrite Hlk in Hlk'. injection Hlk' as <-.
      rewrite He', He, Hr', Ho', Hr, Ho.
      split; [reflexivity|]. split; [|set_solver].
      destruct (delete_error (backupRepository c) (ID b)); [reflexivity|].
      apply filter_twice.
Qed.

(** X14.  A listener added with [AddBackupRemoveListener] is consulted after
    the ones registered before it and only if they all pass: when an earlier
    one fails the call goes exactly as before; when the new one fails its
    error is returned, it is the last listener called, and rows and objects
    are untouched; when it passes, the result, the rows and the objects are
    those of the cleaner without it. *)
Theorem AddBackupRemoveListener_last c listener b w :
  let c' := AddBackupRemoveListener c listener in
  ((exists l, In l (backupRemoveListeners c) /\ l b <> None) ->
   DeleteBackup c' b w = DeleteBackup c b w)
  /\ ((forall l, In l (backupRemoveListeners c) -> l b = None) ->
      (forall e, listener b = Some e ->
         fst (DeleteBackup c' b w) = Some e
         /\ rows (snd (DeleteBackup c' b w)) = rows w
         /\ objects (snd (DeleteBackup c' b w)) = objects w
         /\ trace (snd (DeleteBackup c' b w))
            = listener_events 0 (S (length (backupRemoveListeners c))) b
              ++ EvDeleteBackup b (now w) :: trace w)
      /\ (listener b = None ->
          fst (DeleteBackup c' b w) = fst (DeleteBackup c b w)
          /\ rows (snd (DeleteBackup c' b w)) = rows (snd (DeleteBackup c b w))
          /\ objects (snd (DeleteBackup c' b w))
             = objects (snd (DeleteBackup c b w)))).
Proof.
  cbn zeta. split.
  - intros (l & Hin & Hl).
    destruct (listeners_split (backupRemoveListeners c) b)
      as [Hall | (pre & l' & post & e' & Hls & Hpre & Hl')];
      [rewrite (Hall l Hin) in Hl; congruence|].
    rewrite (DeleteBackup_listener_error c b w pre l' post e' Hls Hpre Hl').
    apply (DeleteBackup_listener_error (AddBackupRemoveListener c listener) b w
             pre l' (post ++ [listener]) e'); [|exact Hpre | exact Hl'].
    cbn [AddBackupRemoveListener backupRemoveListeners].
    rewrite Hls, <- app_assoc. reflexivity.
  - intros Hall. split.
    + intros e He.
      rewrite (DeleteBackup_listener_error (AddBackupRemoveListener c listener) b w
                 (backupRemoveListeners c) listener [] e eq_refl Hall He).
      cbn. auto.
    + intros Hpass.
      assert (forall l, In l (backupRemoveListeners (AddBackupRemoveListener c listener)) ->
                        l b = None) as Hall'.
      { cbn [AddBackupRemoveListener backupRemoveListeners].
        intros l Hl. apply in_app_or in Hl as [Hl|[<-|[]]]; [apply Hall; exact Hl|].
        exact Hpass. }
      destruct (DeleteBackup_state c b w)
        as [((l & e & Hin & Hl) & _)
           | [(_ & (e & Hlk & He) & Hr & Ho)
             | (_ & st & Hlk & He & Hr & Ho)]]; cbn zeta in *.
      * rewrite (Hall l Hin) in Hl. discriminate.
      * rewrite (DeleteBackup_lookup_error (AddBackupRemoveListener c listener)
                   b w e Hall' Hlk).
        rewrite He, Hr, Ho. cbn. auto.
      * destruct (DeleteBackup_state (AddBackupRemoveListener c listener) b w)
          as [((l & e & Hin & Hl) & _)
             | [(_ & (e & Hlk' & _) & _)
               | (_ & st' & Hlk' & He' & Hr' & Ho')]]; cbn zeta in *.
        -- rewrite (Hall' l Hin) in Hl. discriminate.
        -- cbn [AddBackupRemoveListener storageService] in Hlk'.
           rewrite Hlk in Hlk'. discriminate.
        -- cbn [AddBackupRemoveListener storageService] in Hlk'.
           rewrite Hlk in Hlk'. injection Hlk' as <-.
           rewrite He', He, Hr', Hr, Ho', Ho. auto.
Qed.

End PipelineMore.

(** ** More about the cleaning passes *)

Module CleanerMore.
Import backups_core backuping PipelineFacts CleanerFacts.

(** X15.  [isRecentBackup] decides exactly "created less than 60 minutes
    before the clock", on instants of any distance: the saturation of
    [time.Duration] never changes the answer.  So a backup dated in the
    future is recent, one that is exactly 60 minutes old is not, and a backup
    that is not recent never becomes recent again as the clock moves on. *)
Theorem isRecentBackup_exact (w : World) (b : Backup) :
  (isRecentBackup w b = true <-> now w - CreatedAt b < 60 * gotime.Minute)
  /\ (now w < CreatedAt b -> isRecentBackup w b = true)
  /\ (now w - CreatedAt b = 60 * gotime.Minute -> isRecentBackup w b = false)
  /\ (forall w', isRecentBackup w b = false -> now w <= now w' ->
                 isRecentBackup w' b = false).
Proof.
  assert (forall v, isRecentBackup v b = true
                    <-> now v - CreatedAt b < 60 * gotime.Minute) as Hiff.
  { intros v. split; [apply recent_young|]. intros Hlt.
    destruct (isRecentBackup v b) eqn:E; [reflexivity|].
    apply not_recent_old in E. unfold recentBackupGracePeriod in E. lia. }
  split; [apply Hiff|]. split; [|split].
  - intros Hfuture. apply Hiff.
    assert (0 < 60 * gotime.Minute) by (vm_compute; reflexivity). lia.
  - intros Hage. destruct (isRecentBackup w b) eqn:E; [|reflexivity].
    apply Hiff in E. lia.
  - intros w' Hold Hle. destruct (isRecentBackup w' b) eqn:E; [|reflexivity].
    apply Hiff in E. apply not_recent_old in Hold.
    unfold recentBackupGracePeriod in Hold. lia.
Qed.

Lemma not_recent_later w w' b :
  isRecentBackup w b = false -> now w <= now w' -> isRecentBackup w' b = false.
Proof.
  intros Hold Hle. destruct (isRecentBackup w' b) eqn:E; [|reflexivity].
  apply recent_young in E. apply not_recent_old in Hold. lia.
Qed.

Lemma FindByDatabaseIdAndStatus_completed r db w l :
  FindByDatabaseIdAndStatus r db BackupStatusCompleted w = Ok l ->
  l = completed_newest_first db w.
Proof.
  unfold FindByDatabaseIdAndStatus, completed_newest_first.
  destruct (query_error r db); [discriminate|]. intros E. injection E as <-.
  reflexivity.
Qed.

Section StrongPasses.
Variable c : BackupCleaner.

Lemma cleanByTimePeriod_expired cfg w d e w' :
  period.ToDuration (backups_config.RetentionTimePeriod cfg) = Ret d ->
  cleanByTimePeriod c cfg w = Ret (e, w') ->
  exists new,
    safe_step (expired (backups_config.DatabaseID cfg) (now w - d)) w w' new.
Proof.
  intros Hd. unfold cleanByTimePeriod.
  destruct (String.eqb _ "");
    [intros E; injection E as <- <-; eexists; apply safe_refl|].
  destruct (String.eqb _ period.PeriodForever);
    [intros E; injection E as <- <-; eexists; apply safe_refl|].
  rewrite Hd. cbn [obind].
  destruct (FindBackupsBeforeDate _ _ _ w) as [l|err] eqn:Hq;
    intros E; injection E as <- <-; [|eexists; apply safe_refl].
  apply (safe_loop _ c (fun _ => false) _ _ w l w [] (safe_refl _ w)).
  intros b Hb _.
  destruct (FindBackupsBeforeDate_In _ _ _ _ _ _ Hq Hb) as (Hrow & Hdb & Hlt).
  split; [exact Hrow|]. split; [exact Hdb|]. unfold gotime.Add in Hlt. lia.
Qed.

Lemma cleanByCount_beyond cfg w :
  exists new,
    safe_step
      (beyond_count (backups_config.DatabaseID cfg)
         (drop (Z.to_nat (backups_config.RetentionCount cfg))
            (completed_newest_first (backups_config.DatabaseID cfg) w)))
      w (snd (cleanByCount c cfg w)) new.
Proof.
  unfold cleanByCount.
  destruct (_ <=? 0); [eexists; apply safe_refl|].
  destruct (FindByDatabaseIdAndStatus _ _ _ w) as [l|err] eqn:Hq;
    [|eexists; apply safe_refl].
  destruct (_ <=? _); [eexists; apply safe_refl|]. cbn [snd].
  apply (safe_loop _ c (fun _ => false) _ _ w _ w [] (safe_refl _ w)).
  intros b Hb _.
  rewrite <- (FindByDatabaseIdAndStatus_completed _ _ _ _ Hq).
  pose proof (In_drop _ _ _ Hb) as Hl.
  destruct (FindByDatabaseIdAndStatus_In _ _ _ _ _ _ Hq Hl) as (? & ? & ?).
  repeat split; assumption.
Qed.

Lemma cleanByGFS_outside cfg w :
  exists new,
    safe_step
      (outside_keep_set (backups_config.DatabaseID cfg)
         (gfs.buildGFSKeepSet
            (completed_newest_first (backups_config.DatabaseID cfg) w)
            (backups_config.RetentionGfsHours cfg)
            (backups_config.RetentionGfsDays cfg)
            (backups_config.RetentionGfsWeeks cfg)
            (backups_config.RetentionGfsMonths cfg)
            (backups_config.RetentionGfsYears cfg)))
      w (snd (cleanByGFS c cfg w)) new.
Proof.
  unfold cleanByGFS.
  destruct (_ && _); [eexists; apply safe_refl|].
  destruct (FindByDatabaseIdAndStatus _ _ _ w) as [l|err] eqn:Hq;
    [|eexists; apply safe_refl].
  cbn [snd].
  rewrite <- (FindByDatabaseIdAndStatus_completed _ _ _ _ Hq).
  apply (safe_loop _ c
           (fun b => gfs.map_get (gfs.buildGFSKeepSet l _ _ _ _ _) (ID b))
           _ _ w l w [] (safe_refl _ w)).
  intros b Hb Hout.
  destruct (FindByDatabaseIdAndStatus_In _ _ _ _ _ _ Hq Hb) as (? & ? & ?).
  repeat split; assumption.
Qed.

Lemma sizeLoop_candidates db limit fuel : forall w e w',
  sizeLoop c db limit fuel w = Some (e, w') ->
  exists new, safe_step (size_candidate db) w w' new.
Proof.
  induction fuel as [|fuel IH]; intros w e w'; [discriminate|].
  cbn [sizeLoop].
  destruct (GetTotalSizeByDatabase _ db w) as [total|err];
    [|intros E; injection E as <- <-; eexists; apply safe_refl].
  destruct (Qle_bool total _);
    [intros E; injection E as <- <-; eexists; apply safe_refl|].
  destruct (FindOldestByDatabaseExcludingInProgress _ db 1 w) as [[|b l]|err] eqn:Hq.
  - intros E; injection E as <- <-. eexists. apply safe_log, safe_refl.
  - destruct (isRecentBackup w b) eqn:Hrec.
    + intros E; injection E as <- <-. eexists. apply safe_log, safe_refl.
    + destruct (FindOldest_In _ _ _ _ _ b Hq (or_introl eq_refl)) as (Hb & Hdb & Hst).
      pose proof (safe_delete (size_candidate db) c w w [] b (safe_refl _ w) Hb
                    (conj Hdb Hst) Hrec) as Hd.
      destruct (DeleteBackup c b w) as [[err|] w1]; cbn [snd] in Hd.
      * intros E; injection E as <- <-. eexists. apply safe_log. exact Hd.
      * intros E. destruct (IH _ _ _ E) as [new Hnew].
        eexists. eapply safe_trans; [|exact Hnew].
        apply safe_log with (w0 := w). exact Hd.
  - intros E; injection E as <- <-. eexists. apply safe_refl.
Qed.

(** Rows that are gone went through the pipeline themselves, when ids are
    unique. *)
Lemma gone_rows_satisfy (P : Backup -> Prop) w w' new x :
  safe_step P w w' new -> List.NoDup (map ID (rows w)) ->
  In x (rows w) -> ~ In x (rows w') -> P x.
Proof.
  intros [_ _ _ Hg Hx] Hnd Hin Hgone.
  destruct (Hx x Hin Hgone) as (b & at_ & Hb & Hid).
  destruct (Hg b at_ Hb) as (Hrow & HP & _).
  rewrite <- (unique_id_row (rows w) b x Hnd Hrow Hin Hid). exact HP.
Qed.

End StrongPasses.

(** X16.  The time-period pass: with an empty or FOREVER period it returns
    at once with the world unchanged; with any other unknown period it
    panics; with a named period it only hands to the pipeline backups of the
    config's database created before the clock minus the period (and outside
    the grace period). *)
Theorem cleanByTimePeriod_only_expired (c : BackupCleaner)
    (cfg : backups_config.BackupConfig) (w : World) :
  let p := backups_config.RetentionTimePeriod cfg in
  (p = "" \/ p = period.PeriodForever -> cleanByTimePeriod c cfg w = Ret (nil_error, w))
  /\ (p <> "" -> ~ In p period.named_periods ->
      cleanByTimePeriod c cfg w = Panic ("unknown period: " +:+ p))
  /\ (forall d e w',
        period.ToDuration p = Ret d ->
        cleanByTimePeriod c cfg w = Ret (e, w') ->
        exists new,
          pipeline_calls (trace w') = new ++ pipeline_calls (trace w)
          /\ forall b at_, In (b, at_) new ->
               In b (rows w)
               /\ DatabaseID b = backups_config.DatabaseID cfg
               /\ CreatedAt b < now w - d
               /\ 60 * gotime.Minute <= at_ - CreatedAt b).
Proof.
  cbn zeta. split; [|split].
  - intros [E|E]; unfold cleanByTimePeriod; rewrite E; reflexivity.
  - intros Hne Hun. unfold cleanByTimePeriod.
    apply String.eqb_neq in Hne. rewrite Hne.
    assert (String.eqb (backups_config.RetentionTimePeriod cfg) period.PeriodForever
            = false) as ->.
    { apply String.eqb_neq. intros E. apply Hun. rewrite E. vm_compute. tauto. }
    rewrite (PeriodEdges.ToDuration_unknown _ Hun). reflexivity.
  - intros d e w' Hd Hrun.
    destruct (cleanByTimePeriod_expired c cfg w d e w' Hd Hrun)
      as [new [_ _ Hc Hg _]].
    exists new. split; [exact Hc|].
    intros b at_ Hin. destruct (Hg b at_ Hin) as (Hrow & [Hdb Hlt] & _ & Hgr).
    auto.
Qed.

Lemma insert_by_Permutation le x l :
  Permutation.Permutation (x :: l) (insert_by le x l).
Proof.
  induction l as [|y l IH]; cbn [insert_by]; [reflexivity|].
  destruct (le x y); [reflexivity|].
  etransitivity; [apply Permutation.perm_swap|].
  apply Permutation.perm_skip, IH.
Qed.

Lemma sort_by_Permutation le l : Permutation.Permutation l (sort_by le l).
Proof.
  induction l as [|x l IH]; [reflexivity|].
  unfold sort_by in *. cbn [fold_right].
  etransitivity; [apply Permutation.perm_skip, IH|].
  apply insert_by_Permutation.
Qed.

Lemma NoDup_app_disjoint (A : Type) (l1 l2 : list A) (a : A) :
  List.NoDup (l1 ++ l2) -> In a l1 -> In a l2 -> False.
Proof.
  induction l1 as [|y l1 IH1]; intros Hn H1 H2; [destruct H1|].
  cbn [app] in Hn. apply NoDup_cons_iff in Hn as [Hy Hn].
  destruct H1 as [->|H1]; [apply Hy, in_or_app; right; exact H2|].
  exact (IH1 Hn H1 H2).
Qed.

(** X17.  The count pass never removes one of the [RetentionCount] newest
    completed backups of the database (ids being unique): each of them is
    still a row afterwards, and every row that is gone was a completed backup
    of that database beyond that position. *)
Theorem cleanByCount_keeps_newest (c : BackupCleaner)
    (cfg : backups_config.BackupConfig) (w : World) :
  List.NoDup (map ID (rows w)) ->
  let db := backups_config.DatabaseID cfg in
  let n := Z.to_nat (backups_config.RetentionCount cfg) in
  let w' := snd (cleanByCount c cfg w) in
  (forall b, In b (take n (completed_newest_first db w)) -> In b (rows w'))
  /\ (forall x, In x (rows w) -> ~ In x (rows w') ->
        DatabaseID x = db /\ Status x = BackupStatusCompleted
        /\ In x (drop n (completed_newest_first db w))).
Proof.
  intros Hnd. cbn zeta.
  destruct (cleanByCount_beyond c cfg w) as [new Hstep].
  assert (forall x, In x (rows w) -> ~ In x (rows (snd (cleanByCount c cfg w))) ->
            beyond_count (backups_config.DatabaseID cfg)
              (drop (Z.to_nat (backups_config.RetentionCount cfg))
                 (completed_newest_first (backups_config.DatabaseID cfg) w)) x)
    as Hgone by (intros x; apply (gone_rows_satisfy _ w _ new x Hstep Hnd)).
  split; [|exact Hgone].
  intros b Hb.
  set (l := completed_newest_first (backups_config.DatabaseID cfg) w) in *.
  set (n := Z.to_nat (backups_config.RetentionCount cfg)) in *.
  assert (In b (rows w)) as Hrow.
  { apply In_take in Hb. subst l. unfold completed_newest_first in Hb.
    apply In_sort_by, filter_In in Hb. tauto. }
  destruct (in_dec Backup_eq_dec b (rows (snd (cleanByCount c cfg w))))
    as [Hin|Hout]; [exact Hin|exfalso].
  destruct (Hgone b Hrow Hout) as (_ & _ & Hdrop).
  assert (List.NoDup l) as Hndl.
  { subst l. unfold completed_newest_first.
    apply (Permutation.Permutation_NoDup (sort_by_Permutation _ _)).
    apply List.NoDup_filter. eapply NoDup_map_inv. exact Hnd. }
  rewrite <- (take_drop n l) in Hndl.
  exact (NoDup_app_disjoint _ _ _ b Hndl Hb Hdrop).
Qed.

Lemma cleanByCount_keeps_newest_witness :
  In newest_backup
    (rows (snd (cleanByCount (healthy_cleaner [count_config]) count_config
                  count_world))).
Proof.
  refine (proj1 (cleanByCount_keeps_newest (healthy_cleaner [count_config])
                   count_config count_world _) newest_backup _).
  - vm_compute. repeat constructor; cbn; intuition discriminate.
  - vm_compute. tauto.
Defined.

(** X18.  The GFS pass never removes a row whose id is in the keep-set it
    built from the completed backups of the database (ids being unique), and
    every row that is gone was a completed backup of that database outside
    the keep-set. *)
Theorem cleanByGFS_respects_keep_set (c : BackupCleaner)
    (cfg : backups_config.BackupConfig) (w : World) :
  List.NoDup (map ID (rows w)) ->
  let db := backups_config.DatabaseID cfg in
  let keepSet :=
    gfs.buildGFSKeepSet (completed_newest_first db w)
      (backups_config.RetentionGfsHours cfg) (backups_config.RetentionGfsDays cfg)
      (backups_config.RetentionGfsWeeks cfg) (backups_config.RetentionGfsMonths cfg)
      (backups_config.RetentionGfsYears cfg) in
  let w' := snd (cleanByGFS c cfg w) in
  (forall b, In b (rows w) -> gfs.map_get keepSet (ID b) = true -> In b (rows w'))
  /\ (forall x, In x (rows w) -> ~ In x (rows w') ->
        DatabaseID x = db /\ Status x = BackupStatusCompleted
        /\ gfs.map_get keepSet (ID x) = false).
Proof.
  intros Hnd. cbn zeta.
  destruct (cleanByGFS_outside c cfg w) as [new Hstep].
  pose proof (fun x => gone_rows_satisfy _ w _ new x Hstep Hnd) as Hgone.
  split; [|exact Hgone].
  intros b Hrow Hkeep.
  destruct (in_dec Backup_eq_dec b (rows (snd (cleanByGFS c cfg w))))
    as [Hin|Hout]; [exact Hin|exfalso].
  destruct (Hgone b Hrow Hout) as (_ & _ & Hno). congruence.
Qed.

Lemma cleanByGFS_respects_keep_set_witness :
  In newest_backup
    (rows (snd (cleanByGFS (healthy_cleaner [])
                  (policy_config backups_config.RetentionPolicyTypeGFS "" 0 1 0)
                  count_world))).
Proof.
  refine (proj1 (cleanByGFS_respects_keep_set (healthy_cleaner [])
                   (policy_config backups_config.RetentionPolicyTypeGFS "" 0 1 0)
                   count_world _) newest_backup _ _).
  - vm_compute. repeat constructor; cbn; intuition discriminate.
  - vm_compute. tauto.
  - vm_compute. reflexivity.
Defined.

(** *** What a pass does remove *)

Section Liveness.
Variable c : BackupCleaner.
Variable skip : Backup -> bool.
Variables errMsg infoMsg : string.

Local Abbreviation loop :=
  (fold_left (fun w backup =>
     if skip backup then w
     else if isRecentBackup w backup then w
     else match DeleteBackup c backup w with
          | (Some _, w') => logger_Error errMsg w'
          | (None, w') => logger_Info infoMsg w'
          end)).

Lemma loop_frame : forall (l : list Backup) (w : World),
  now w <= now (loop l w)
  /\ forall x, In x (rows (loop l w)) -> In x (rows w).
Proof.
  induction l as [|a l IH]; intros w; [cbn [fold_left]; split; [lia | auto]|].
  cbn [fold_left].
  destruct (skip a); [apply IH|].
  destruct (isRecentBackup w a); [apply IH|].
  pose proof (DeleteBackup_frame c a w) as (Hnow & _ & Hsub & _).
  cbn zeta in Hnow, Hsub.
  destruct (DeleteBackup c a w) as [[e|] w1]; cbn [snd] in Hnow, Hsub.
  - destruct (IH (logger_Error errMsg w1)) as [Hn Hr]. cbn in Hn.
    split; [cbn in *; lia|]. intros x Hx. apply Hsub, (Hr x Hx).
  - destruct (IH (logger_Info infoMsg w1)) as [Hn Hr]. cbn in Hn.
    split; [cbn in *; lia|]. intros x Hx. apply Hsub, (Hr x Hx).
Qed.

(** A candidate that is not skipped, is out of the grace period when the
    loop starts and on which no collaborator fails has no row left when the
    loop ends, whatever happens to the other candidates. *)
Lemma loop_deletes b : forall (l : list Backup) (w : World),
  In b l -> skip b = false -> isRecentBackup w b = false -> healthy_for c b ->
  forall x, In x (rows (loop l w)) -> ID x <> ID b.
Proof.
  induction l as [|a l IH]; intros w Hin Hskip Hrec Hh x Hx; [destruct Hin|].
  destruct Hin as [->|Hin].
  - cbn [fold_left] in Hx. rewrite Hskip, Hrec in Hx.
    destruct Hh as (Hls & [st Hst] & Hdel).
    pose proof (PipelineMore.DeleteBackup_state c b w) as Hs. cbn zeta in Hs.
    destruct Hs as [((l0 & e & Hl0 & He) & _) | [(_ & (e & He & _) & _) | (_ & st' & _ & Hfst & Hrows & _)]].
    + rewrite (Hls l0 Hl0) in He. discriminate.
    + rewrite Hst in He. discriminate.
    + rewrite Hdel in Hfst, Hrows.
      destruct (DeleteBackup c b w) as [[e|] w1]; cbn [fst snd] in Hfst, Hrows;
        [discriminate|].
      apply (proj2 (loop_frame l _)) in Hx. cbn in Hx. rewrite Hrows in Hx.
      apply filter_In in Hx as [_ Hne]. apply negb_true_iff, N.eqb_neq in Hne.
      exact Hne.
  - cbn [fold_left] in Hx.
    revert Hx. apply IH; try assumption.
    apply (not_recent_later w); [exact Hrec|].
    exact (proj1 (loop_frame [a] w)).
Qed.

End Liveness.

Lemma ToDuration_at_least_day p d :
  p <> period.PeriodForever -> period.ToDuration p = Ret d -> 24 * gotime.Hour <= d.
Proof.
  intros Hne. unfold period.ToDuration.
  repeat match goal with
         | |- context [String.eqb p ?q] =>
           destruct (String.eqb_spec p q);
             [try contradiction; intros E; injection E as <-; vm_compute;
              discriminate|]
         end.
  discriminate.
Qed.

(** X19.  The time-period pass does remove what has expired: with a named
    period other than FOREVER and a catalog that answers, every row of the
    config's database created before the clock minus the period, and on
    which no listener, storage lookup or catalog deletion fails, has no row
    left after the pass.  The grace period never spares such a backup, every
    period being at least a day: the [isRecentBackup] test of this loop is
    never true. *)
Theorem cleanByTimePeriod_removes_expired (c : BackupCleaner)
    (cfg : backups_config.BackupConfig) (w : World) (d : Z) (b : Backup) :
  backups_config.RetentionTimePeriod cfg <> period.PeriodForever ->
  period.ToDuration (backups_config.RetentionTimePeriod cfg) = Ret d ->
  query_error (backupRepository c) (backups_config.DatabaseID cfg) = None ->
  In b (rows w) ->
  DatabaseID b = backups_config.DatabaseID cfg ->
  CreatedAt b < now w - d ->
  (forall w1, now w <= now w1 -> isRecentBackup w1 b = false)
  /\ (healthy_for c b ->
      exists w', cleanByTimePeriod c cfg w = Ret (nil_error, w')
                 /\ forall x, In x (rows w') -> ID x <> ID b).
Proof.
  intros Hnf Hd Hq Hrow Hdb Hlt.
  pose proof (ToDuration_at_least_day _ _ Hnf Hd) as Hday.
  assert (forall w1, now w <= now w1 -> isRecentBackup w1 b = false) as Hold.
  { intros w1 Hle. destruct (isRecentBackup w1 b) eqn:E; [|reflexivity].
    apply recent_young in E. unfold recentBackupGracePeriod in E.
    assert (60 * gotime.Minute < 24 * gotime.Hour) by (vm_compute; reflexivity).
    lia. }
  split; [exact Hold|]. intros Hh.
  unfold cleanByTimePeriod.
  destruct (String.eqb_spec (backups_config.RetentionTimePeriod cfg) "") as [E|_].
  { rewrite E in Hd. vm_compute in Hd. discriminate. }
  destruct (String.eqb_spec (backups_config.RetentionTimePeriod cfg)
              period.PeriodForever) as [E|_]; [contradiction|].
  rewrite Hd. cbn [obind]. unfold FindBackupsBeforeDate. rewrite Hq.
  eexists. split; [reflexivity|].
  apply (loop_deletes c (fun _ => false) _ _ b); try assumption.
  - apply In_sort_by, filter_In. split; [exact Hrow|].
    apply andb_true_iff. split; [apply N.eqb_eq; exact Hdb|].
    apply Z.ltb_lt. unfold gotime.Add. lia.
  - reflexivity.
  - apply Hold. lia.
Qed.

Lemma healthy_cleaner_healthy cfgs b : healthy_for (healthy_cleaner cfgs) b.
Proof.
  split; [intros l []|]. split; [eexists; reflexivity | reflexivity].
Qed.

Lemma cleanByTimePeriod_removes_expired_witness :
  exists w', cleanByTimePeriod (healthy_cleaner [day_config]) day_config stuck_world
             = Ret (nil_error, w')
             /\ forall x, In x (rows w') -> ID x <> ID stuck_backup.
Proof.
  apply (cleanByTimePeriod_removes_expired (healthy_cleaner [day_config]) day_config
           stuck_world (24 * gotime.Hour) stuck_backup).
  - vm_compute. discriminate.
  - reflexivity.
  - reflexivity.
  - left. reflexivity.
  - reflexivity.
  - vm_compute. reflexivity.
  - apply healthy_cleaner_healthy.
Defined.

(** X20.  The count pass does remove the excess: with a positive count and
    a catalog that answers, every completed backup of the database beyond
    the [RetentionCount] newest that is out of the grace period when the pass
    starts, and on which no collaborator fails, has no row left after it. *)
Theorem cleanByCount_removes_excess (c : BackupCleaner)
    (cfg : backups_config.BackupConfig) (w : World) (b : Backup) :
  0 < backups_config.RetentionCount cfg ->
  query_error (backupRepository c) (backups_config.DatabaseID cfg) = None ->
  In b (drop (Z.to_nat (backups_config.RetentionCount cfg))
          (completed_newest_first (backups_config.DatabaseID cfg) w)) ->
  isRecentBackup w b = false ->
  healthy_for c b ->
  forall x, In x (rows (snd (cleanByCount c cfg w))) -> ID x <> ID b.
Proof.
  intros Hpos Hq Hb Hrec Hh.
  unfold cleanByCount.
  destruct (Z.leb_spec (backups_config.RetentionCount cfg) 0) as [Hle|_]; [lia|].
  unfold FindByDatabaseIdAndStatus. rewrite Hq.
  fold (completed_newest_first (backups_config.DatabaseID cfg) w).
  set (l := completed_newest_first (backups_config.DatabaseID cfg) w) in *.
  destruct (Z.leb_spec (Z.of_nat (length l)) (backups_config.RetentionCount cfg))
    as [Hshort|_].
  { exfalso. rewrite drop_ge in Hb by lia. destruct Hb. }
  cbn [snd].
  apply (loop_deletes c (fun _ => false) _ _ b); auto.
Qed.

Lemma cleanByCount_removes_excess_witness :
  List.Forall (fun x => ID x <> ID old_backup_1)
    (rows (snd (cleanByCount (healthy_cleaner [count_config]) count_config
                  count_world))).
Proof.
  apply List.Forall_forall.
  apply (cleanByCount_removes_excess (healthy_cleaner [count_config]) count_config
           count_world old_backup_1).
  - vm_compute. reflexivity.
  - reflexivity.
  - vm_compute. tauto.
  - vm_compute. reflexivity.
  - apply healthy_cleaner_healthy.
Defined.

(** X21.  The GFS pass does remove what is outside the keep-set: with some
    positive counter and a catalog that answers, every completed backup of
    the database whose id is not in the keep-set, that is out of the grace
    period when the pass starts and on which no collaborator fails, has no
    row left after it. *)
Theorem cleanByGFS_removes_outside (c : BackupCleaner)
    (cfg : backups_config.BackupConfig) (w : World) (b : Backup) :
  (0 < backups_config.RetentionGfsHours cfg
   \/ 0 < backups_config.RetentionGfsDays cfg
   \/ 0 < backups_config.RetentionGfsWeeks cfg
   \/ 0 < backups_config.RetentionGfsMonths cfg
   \/ 0 < backups_config.RetentionGfsYears cfg) ->
  query_error (backupRepository c) (backups_config.DatabaseID cfg) = None ->
  In b (completed_newest_first (backups_config.DatabaseID cfg) w) ->
  gfs.map_get
    (gfs.buildGFSKeepSet (completed_newest_first (backups_config.DatabaseID cfg) w)
       (backups_config.RetentionGfsHours cfg) (backups_config.RetentionGfsDays cfg)
       (backups_config.RetentionGfsWeeks cfg) (backups_config.RetentionGfsMonths cfg)
       (backups_config.RetentionGfsYears cfg)) (ID b) = false ->
  isRecentBackup w b = false ->
  healthy_for c b ->
  forall x, In x (rows (snd (cleanByGFS c cfg w))) -> ID x <> ID b.
Proof.
  intros Hpos Hq Hb Hout Hrec Hh.
  unfold cleanByGFS.
  assert ((backups_config.RetentionGfsHours cfg <=? 0)
          && (backups_config.RetentionGfsDays cfg <=? 0)
          && (backups_config.RetentionGfsWeeks cfg <=? 0)
          && (backups_config.RetentionGfsMonths cfg <=? 0)
          && (backups_config.RetentionGfsYears cfg <=? 0) = false) as ->.
  { destruct (Z.leb_spec (backups_config.RetentionGfsHours cfg) 0);
      destruct (Z.leb_spec (backups_config.RetentionGfsDays cfg) 0);
      destruct (Z.leb_spec (backups_config.RetentionGfsWeeks cfg) 0);
      destruct (Z.leb_spec (backups_config.RetentionGfsMonths cfg) 0);
      destruct (Z.leb_spec (backups_config.RetentionGfsYears cfg) 0);
      try reflexivity; lia. }
  unfold FindByDatabaseIdAndStatus. rewrite Hq.
  fold (completed_newest_first (backups_config.DatabaseID cfg) w).
  cbn [snd].
  apply (loop_deletes c
           (fun b0 => gfs.map_get (gfs.buildGFSKeepSet _ _ _ _ _ _) (ID b0))
           _ _ b); auto.
Qed.

Lemma cleanByGFS_removes_outside_witness :
  List.Forall (fun x => ID x <> ID old_backup_1)
    (rows (snd (cleanByGFS (healthy_cleaner [])
                  (policy_config backups_config.RetentionPolicyTypeGFS "" 0 1 0)
                  count_world))).
Proof.
  apply List.Forall_forall.
  apply (cleanByGFS_removes_outside (healthy_cleaner [])
           (policy_config backups_config.RetentionPolicyTypeGFS "" 0 1 0)
           count_world old_backup_1).
  - right. left. vm_compute. reflexivity.
  - reflexivity.
  - vm_compute. tauto.
  - vm_compute. reflexivity.
  - vm_compute. reflexivity.
  - apply healthy_cleaner_healthy.
Defined.

(** *** Which databases a tick touches *)

Section Enabled.
Variable c : BackupCleaner.
Variable P : Backup -> Prop.

Local Abbreviation of_config cfg :=
  (forall b, DatabaseID b = backups_config.DatabaseID cfg -> P b).

Lemma cleanByTimePeriod_db cfg w e w' :
  cleanByTimePeriod c cfg w = Ret (e, w') ->
  exists new,
    safe_step (fun b => DatabaseID b = backups_config.DatabaseID cfg) w w' new.
Proof.
  destruct (period.ToDuration (backups_config.RetentionTimePeriod cfg))
    as [d|m] eqn:Hd.
  - intros E. destruct (cleanByTimePeriod_expired c cfg w d e w' Hd E) as [n Hn].
    exists n. eapply safe_weaken; [|exact Hn]. intros b [Hdb _]. exact Hdb.
  - unfold cleanByTimePeriod.
    destruct (String.eqb _ "");
      [intros E; injection E as <- <-; eexists; apply safe_refl|].
    destruct (String.eqb _ period.PeriodForever);
      [intros E; injection E as <- <-; eexists; apply safe_refl|].
    rewrite Hd. discriminate.
Qed.

Lemma retention_step_db w0 w new cfg w' :
  of_config cfg ->
  safe_step P w0 w new ->
  retention_step c (Ret w) cfg = Ret w' ->
  exists new', safe_step P w0 w' new'.
Proof.
  intros Hcfg Hw. unfold backuping.retention_step. cbn [obind].
  assert (forall r : error * World,
            (exists n, safe_step P w (snd r) n) ->
            match r with
            | (Some _, w1) =>
              Ret (logger_Error "Failed to clean backups by retention policy" w1)
            | (None, w1) => Ret w1
            end = Ret w' ->
            exists new', safe_step P w0 w' new') as Hfin.
  { intros [[e|] w1] [n Hn] E; cbn [snd] in Hn; injection E as <-;
      eexists; [apply safe_log|]; eapply safe_trans; eassumption. }
  destruct (String.eqb _ backups_config.RetentionPolicyTypeCount).
  { cbn [obind]. apply Hfin.
    destruct (cleanByCount_beyond c cfg w) as [n Hn]. exists n.
    eapply safe_weaken; [|exact Hn]. intros b [Hdb _]. exact (Hcfg b Hdb). }
  destruct (String.eqb _ backups_config.RetentionPolicyTypeGFS).
  { cbn [obind]. apply Hfin.
    destruct (cleanByGFS_outside c cfg w) as [n Hn]. exists n.
    eapply safe_weaken; [|exact Hn]. intros b [Hdb _]. exact (Hcfg b Hdb). }
  destruct (cleanByTimePeriod c cfg w) as [[e w1]|m] eqn:E; cbn [obind];
    [|discriminate].
  apply (Hfin (e, w1)). cbn [snd].
  destruct (cleanByTimePeriod_db cfg w e w1 E) as [n Hn]. exists n.
  eapply safe_weaken; [|exact Hn]. exact Hcfg.
Qed.

Lemma retention_fold_db w0 cfgs : forall w new w',
  (forall cfg, In cfg cfgs -> of_config cfg) ->
  safe_step P w0 w new ->
  fold_left (retention_step c) cfgs (Ret w) = Ret w' ->
  exists new', safe_step P w0 w' new'.
Proof.
  induction cfgs as [|cfg cfgs IH]; intros w new w' Hall Hw E.
  - injection E as <-. eauto.
  - cbn [fold_left] in E.
    destruct (retention_step c (Ret w) cfg) as [w1|m] eqn:E1.
    + destruct (retention_step_db w0 w new cfg w1 (Hall cfg (or_introl eq_refl))
                  Hw E1) as [new1 H1].
      refine (IH w1 new1 w' _ H1 E). intros cfg' Hin. apply Hall. right. exact Hin.
    + rewrite retention_fold_panic in E. discriminate.
Qed.

Lemma size_step_db w0 w new cfg w' :
  of_config cfg ->
  safe_step P w0 w new ->
  size_step c (Some w) cfg = Some w' ->
  exists new', safe_step P w0 w' new'.
Proof.
  intros Hcfg Hw. unfold backuping.size_step.
  destruct (_ <=? 0); [intros E; injection E as <-; eauto|].
  unfold cleanExceededBackupsForDatabase.
  destruct (sizeLoop c _ _ _ w) as [[[e|] w1]|] eqn:E1; [| |discriminate];
    destruct (sizeLoop_candidates c _ _ _ _ _ _ E1) as [n Hn];
    apply (safe_weaken _ P) in Hn; try (intros b [Hdb _]; exact (Hcfg b Hdb));
    intros E; injection E as <-; eexists;
    [apply safe_log|]; eapply safe_trans; eassumption.
Qed.

Lemma size_fold_db w0 cfgs : forall w new w',
  (forall cfg, In cfg cfgs -> of_config cfg) ->
  safe_step P w0 w new ->
  fold_left (size_step c) cfgs (Some w) = Some w' ->
  exists new', safe_step P w0 w' new'.
Proof.
  induction cfgs as [|cfg cfgs IH]; intros w new w' Hall Hw E.
  - injection E as <-. eauto.
  - cbn [fold_left] in E.
    destruct (size_step c (Some w) cfg) as [w1|] eqn:E1.
    + destruct (size_step_db w0 w new cfg w1 (Hall cfg (or_introl eq_refl))
                  Hw E1) as [new1 H1].
      refine (IH w1 new1 w' _ H1 E). intros cfg' Hin. apply Hall. right. exact Hin.
    + rewrite size_fold_none in E. discriminate.
Qed.

End Enabled.

Lemma enabled_config c cfgs :
  GetBackupConfigsWithEnabledBackups (backupConfigService c) = Ok cfgs ->
  forall cfg, In cfg cfgs ->
  forall b, DatabaseID b = backups_config.DatabaseID cfg -> database_enabled c b.
Proof.
  unfold GetBackupConfigsWithEnabledBackups.
  destruct (configs_error _); [discriminate|]. intros E; injection E as <-.
  intros cfg Hin b Hb. apply filter_In in Hin as [Hin Hen]. exists cfg. auto.
Qed.

Lemma tick_enabled c w w' :
  tick c w = Some (Ret w') ->
  exists new, safe_step (database_enabled c) w w' new.
Proof.
  unfold tick, cleanByRetentionPolicy, cleanExceededBackups.
  destruct (GetBackupConfigsWithEnabledBackups (backupConfigService c))
    as [cfgs|err] eqn:Hc.
  - destruct (fold_left (retention_step c) cfgs (Ret w)) as [w1|m] eqn:E1;
      cbn [obind]; [|discriminate].
    destruct (retention_fold_db c (database_enabled c) w cfgs w [] w1
                (enabled_config c cfgs Hc) (safe_refl _ w) E1) as [n1 H1].
    cbv beta iota zeta delta [nil_error].
    destruct (fold_left (size_step c) cfgs (Some w1)) as [w2|] eqn:E2;
      [|discriminate].
    intros E; injection E as <-.
    exact (size_fold_db c (database_enabled c) w cfgs w1 n1 w2
             (enabled_config c cfgs Hc) H1 E2).
  - intros E; injection E as <-. eexists. apply safe_log, safe_log, safe_refl.
Qed.

(** X22.  A tick only touches databases that have an enabled config: every
    backup it hands to the pipeline belongs to one, and (ids being unique)
    every row of a database without an enabled config is still there after
    the tick. *)
Theorem tick_only_enabled_databases (c : BackupCleaner) (w w' : World) :
  tick c w = Some (Ret w') ->
  (exists new,
     pipeline_calls (trace w') = new ++ pipeline_calls (trace w)
     /\ forall b at_, In (b, at_) new -> In b (rows w) /\ database_enabled c b)
  /\ (List.NoDup (map ID (rows w)) ->
      forall x, In x (rows w) ->
        (forall cfg, In cfg (configs (backupConfigService c)) ->
           backups_config.IsBackupsEnabled cfg = true ->
           backups_config.DatabaseID cfg <> DatabaseID x) ->
        In x (rows w')).
Proof.
  intros Ht. destruct (tick_enabled c w w' Ht) as [new Hstep]. split.
  - destruct Hstep as [_ _ Hc Hg _]. exists new. split; [exact Hc|].
    intros b at_ Hin. destruct (Hg b at_ Hin) as (Hrow & Hen & _). auto.
  - intros Hnd x Hx Hnone.
    destruct (in_dec Backup_eq_dec x (rows w')) as [Hin|Hout]; [exact Hin|exfalso].
    destruct (gone_rows_satisfy _ w w' new x Hstep Hnd Hx Hout)
      as (cfg & Hcfg & Hen & Hdb).
    exact (Hnone cfg Hcfg Hen Hdb).
Qed.

(** X23.  When the config service fails, a tick calls nothing but the
    logger: both passes report the failure, and the catalog, the object
    store and the clock are as before. *)
Theorem tick_without_configs (c : BackupCleaner) (w : World) (e : string) :
  configs_error (backupConfigService c) = Some e ->
  exists w',
    tick c w = Some (Ret w')
    /\ trace w' = [ EvLog "ERROR" "Failed to clean exceeded backups";
                    EvLog "ERROR" "Failed to clean backups by retention policy" ]
                  ++ trace w
    /\ rows w' = rows w /\ objects w' = objects w /\ now w' = now w.
Proof.
  intros He. unfold tick, cleanByRetentionPolicy, cleanExceededBackups,
    GetBackupConfigsWithEnabledBackups. rewrite He.
  eexists. split; [reflexivity|]. cbn. auto.
Qed.

Lemma tick_only_enabled_databases_witness :
  match tick (healthy_cleaner [capped_config]) crowded_world with
  | Some (Ret w') =>
    exists new,
      pipeline_calls (trace w') = new ++ pipeline_calls (trace crowded_world)
      /\ forall b at_, In (b, at_) new ->
           In b (rows crowded_world)
           /\ database_enabled (healthy_cleaner [capped_config]) b
  | _ => False
  end.
Proof.
  pose proof (fun w' H =>
                proj1 (tick_only_enabled_databases (healthy_cleaner [capped_config])
                         crowded_world w' H)) as H.
  destruct (tick (healthy_cleaner [capped_config]) crowded_world)
    as [[w'|m]|] eqn:E.
  - apply H. reflexivity.
  - vm_compute in E. discriminate E.
  - vm_compute in E. discriminate E.
Defined.

Lemma tick_without_configs_witness :
  exists w',
    tick (AddBackupRemoveListener
            {| backupRepository := backupRepository strict_cleaner;
               storageService := storageService strict_cleaner;
               backupConfigService :=
                 {| configs := [day_config];
                    configs_error := Some "database is down" |};
               backupRemoveListeners := [] |} (fun _ => None)) stuck_world
    = Some (Ret w')
    /\ rows w' = rows stuck_world.
Proof.
  destruct (tick_without_configs
              (AddBackupRemoveListener
                 {| backupRepository := backupRepository strict_cleaner;
                    storageService := storageService strict_cleaner;
                    backupConfigService :=
                      {| configs := [day_config];
                         configs_error := Some "database is down" |};
                    backupRemoveListeners := [] |} (fun _ => None))
              stuck_world "database is down" eq_refl)
    as (w' & Ht & _ & Hr & _).
  exists w'. split; [exact Ht | exact Hr].
Defined.

(** *** [Run] *)

Lemma safe_elapse (P : Backup -> Prop) n w : safe_step P w (elapse n w) [].
Proof.
  split; cbn; try tauto; try lia; try reflexivity.
Qed.

Lemma serve_enabled c : forall rs w r,
  serve c rs w = Some r ->
  match r with
  | Returned w' | Waiting w' =>
    exists new, safe_step (database_enabled c) w w' new
  | _ => True
  end.
Proof.
  induction rs as [|[|n] rs IH]; intros w r E; cbn [serve] in E.
  - injection E as <-. eexists. apply safe_refl.
  - injection E as <-. eexists. apply safe_refl.
  - destruct (tick c (elapse n w)) as [[w1|m]|] eqn:Ht; [| |discriminate].
    + destruct (tick_enabled c _ _ Ht) as [n1 H1].
      specialize (IH w1 r E).
      destruct r as [w'|w'| |]; try exact I;
        destruct IH as [n2 H2]; eexists;
        (eapply safe_trans; [|exact H2]);
        (eapply safe_trans; [apply safe_elapse | exact H1]).
    + injection E as <-. exact I.
Qed.

Lemma serve_total c : forall rs w, exists r, serve c rs w = Some r.
Proof.
  induction rs as [|[|n] rs IH]; intros w; cbn [serve]; eauto.
  destruct (tick_total c (elapse n w)) as [[w1|m] ->]; eauto.
Qed.

Lemma serve_never_called_twice c : forall rs w m w',
  serve c rs w <> Some (CalledTwice m w').
Proof.
  induction rs as [|[|n] rs IH]; intros w m w'; cbn [serve]; try discriminate.
  destruct (tick c (elapse n w)) as [[w1|m1]|]; try discriminate. apply IH.
Qed.

(** X24.  [Run] runs at most once per cleaner.  The first call always ends
    (it returns, is still waiting in the select, or a tick panicked), sets
    both flags and is never the "called multiple times" panic; with a
    context already cancelled, or cancelled before the first tick, it returns
    with the world untouched.  A call made after that one has ended,
    whatever its context, panics with that message without running a
    tick. *)
Theorem Run_runs_once (c : BackupCleaner) (ctxErr : bool) (rs : list Reception)
    (w : World) :
  let used := {| hasRun := true; runOnce_used := true |} in
  (exists r, Run c fresh_flags ctxErr rs w = Some (used, r)
             /\ forall m w', r <> CalledTwice m w')
  /\ Run c fresh_flags true rs w = Some (used, Returned w)
  /\ Run c fresh_flags false (CtxDone :: rs) w = Some (used, Returned w)
  /\ (forall ctxErr2 rs2 w2,
        Run c used ctxErr2 rs2 w2
        = Some (used,
                CalledTwice "*backuping.BackupCleaner.Run() called multiple times" w2)).
Proof.
  cbn zeta. split; [|split; [reflexivity|split; [reflexivity|reflexivity]]].
  unfold Run. cbn [hasRun runOnce_used fresh_flags].
  destruct ctxErr.
  - eexists. split; [reflexivity|]. discriminate.
  - destruct (serve_total c rs w) as [r Hr]. rewrite Hr.
    exists r. split; [destruct r; reflexivity|].
    intros m w' ->. exact (serve_never_called_twice c rs w m w' Hr).
Qed.

(** X25.  Whatever the ticker and the context do during a call of [Run],
    and however many ticks it serves: when the call returns or is still
    waiting, every call it made to the deletion pipeline was on a row of the
    starting catalog whose database has an enabled config and that was at
    least 60 minutes old on the clock of that call, and no row was added. *)
Theorem Run_calls_guarded (c : BackupCleaner) (ctxErr : bool) (rs : list Reception)
    (w w' : World) (flags' : RunFlags) (r : RunEnd) :
  Run c fresh_flags ctxErr rs w = Some (flags', r) ->
  r = Returned w' \/ r = Waiting w' ->
  (exists new,
     pipeline_calls (trace w') = new ++ pipeline_calls (trace w)
     /\ forall b at_, In (b, at_) new ->
          In b (rows w) /\ database_enabled c b
          /\ now w <= at_ /\ 60 * gotime.Minute <= at_ - CreatedAt b)
  /\ (forall x, In x (rows w') -> In x (rows w)).
Proof.
  intros HRun Hr.
  assert (exists new, safe_step (database_enabled c) w w' new) as [new Hstep].
  { unfold Run in HRun. cbn [hasRun runOnce_used fresh_flags] in HRun.
    destruct ctxErr.
    - injection HRun as _ <-.
      destruct Hr as [E|E]; [injection E as <-|discriminate].
      eexists. apply safe_refl.
    - destruct (serve c rs w) as [r0|] eqn:Hs; [|discriminate].
      pose proof (serve_enabled c rs w r0 Hs) as Hsafe.
      assert (r0 = r) as ->.
      { destruct r0; injection HRun as _ <-; reflexivity. }
      destruct Hr as [-> | ->]; exact Hsafe. }
  destruct Hstep as [_ Hrows Hc Hg _]. split; [|exact Hrows].
  exists new. split; [exact Hc|]. exact Hg.
Qed.

Lemma Run_calls_guarded_witness :
  match Run (healthy_cleaner [capped_config]) fresh_flags false
          [TickerFired 60000000000; CtxDone] crowded_world with
  | Some (_, Returned w') =>
    exists new,
      pipeline_calls (trace w') = new ++ pipeline_calls (trace crowded_world)
      /\ forall b at_, In (b, at_) new ->
           In b (rows crowded_world)
           /\ database_enabled (healthy_cleaner [capped_config]) b
           /\ now crowded_world <= at_ /\ 60 * gotime.Minute <= at_ - CreatedAt b
  | _ => False
  end.
Proof.
  pose proof (fun w' flags' r H H' =>
                proj1 (Run_calls_guarded (healthy_cleaner [capped_config]) false
                         [TickerFired 60000000000; CtxDone] crowded_world w'
                         flags' r H H')) as H.
  destruct (Run (healthy_cleaner [capped_config]) fresh_flags false
              [TickerFired 60000000000; CtxDone] crowded_world)
    as [[flags' [w'|w'|m|m w']]|] eqn:E.
  - apply (H w' flags' (Returned w') eq_refl). left. reflexivity.
  - vm_compute in E. discriminate E.
  - vm_compute in E. discriminate E.
  - vm_compute in E. discriminate E.
  - vm_compute in E. discriminate E.
Defined.

End CleanerMore.

(** ** The Turnstile check *)

Module TurnstileFacts.
Import cloudflare_turnstile.

(** X26.  [VerifyToken] fails closed.  It answers true exactly when it
    returns no error, and that is exactly when the service is disabled (no
    secret key) or the token is not empty and the reply was read, parsed and
    says success; a transport, read or parse failure or an unsuccessful reply
    is always (false, error).  It sends no request when disabled or when the
    token is empty, and otherwise exactly one, to the verification URL with
    the secret, the token and the remote address. *)
Theorem VerifyToken_fails_closed (s : CloudflareTurnstileService)
    (token remoteIP : string) (network : Request -> Exchange) :
  let request :=
    {| req_url := cloudflareTurnstileVerifyURL;
       req_form := [ ("secret", secretKey s); ("response", token);
                     ("remoteip", remoteIP) ] |} in
  let ok := fst (fst (VerifyToken s token remoteIP network)) in
  let err := snd (fst (VerifyToken s token remoteIP network)) in
  let sent := snd (VerifyToken s token remoteIP network) in
  (ok = true <-> err = None)
  /\ (ok = true <->
      IsEnabled s = false
      \/ (token <> ""
          /\ exists resp, network request = Parsed resp /\ Success resp = true))
  /\ (IsEnabled s = false \/ token = "" -> sent = [])
  /\ (IsEnabled s = true -> token <> "" -> sent = [request]).
Proof.
  cbn zeta. unfold VerifyToken.
  destruct (IsEnabled s) eqn:Hen; cbn [negb fst snd];
    [destruct (String.eqb_spec token "") as [Htok|Htok]; cbn [fst snd];
     [|destruct (network _) as [e|e|e|resp] eqn:Hnet; cbn [fst snd];
       [| | |destruct (Success resp) eqn:Hs; cbn [negb fst snd]]]|];
    repeat split; intros;
    repeat match goal with
           | H : _ \/ _ |- _ => destruct H
           | H : _ /\ _ |- _ => destruct H
           | H : exists _, _ |- _ => destruct H
           end;
    try discriminate; try contradiction; try congruence; eauto 7.
Qed.

End TurnstileFacts.
